(** * Coaty WAMP binding: topic codec and session binding

    A shallow embedding of [src/wamp-topic.ts] (class [WampTopic]) and of
    the binding class [WampBinding], followed by the properties of the
    topic codec, the publication queue, the subscription registry and the
    connection-state notifications.

    JavaScript strings are sequences of UTF-16 code units; they are
    embedded as [list N].  Regular expressions without the [u] flag work
    on code units, which is how [replace] is embedded below. *)

From Stdlib Require Import NArith ZArith String Ascii List Lia.
From Stdlib Require Import DecimalString DecimalN DecimalPos.
From stdpp Require Import base list option gmap.

Local Open Scope N_scope.

(** ** The JavaScript fragment used by the code *)

Module Js.

Abbreviation jsstring := (list N).

(** An ASCII literal as a JavaScript string. *)
Fixpoint str (s : string) : jsstring :=
  match s with
  | EmptyString => []
  | String a s' => N_of_ascii a :: str s'
  end.

Definition NUL : N := 0.
Definition DOT : N := 46.
Definition HASH : N := 35.

(** A value of type [number], for the integers the code handles:
    [NaN] or an integer.  Integers below 10^21 print as plain decimal
    digits ([Number.prototype.toString]); [plain_decimal] marks that
    range. *)
Inductive number := NaN | Int (z : Z).

Definition plain_decimal (z : Z) : Prop := (Z.abs z < 10 ^ 21)%Z.

(** The outcome of running a piece of code: a value or a thrown error. *)
Inductive JsError := TypeError | NotOpened.
Inductive completion (A : Type) := Normal (a : A) | Throw (e : JsError).
Arguments Normal {A} a.
Arguments Throw {A} e.

(** [ToString] of a possibly-undefined string, as template literals and
    [+=] apply it. *)
Definition tpl (o : option jsstring) : jsstring :=
  match o with Some s => s | None => str "undefined" end.

(** Truthiness of a possibly-undefined string. *)
Definition truthy (o : option jsstring) : bool :=
  match o with Some (_ :: _) => true | _ => false end.

(** The character class [\s] of ECMAScript: WhiteSpace and
    LineTerminator code points. *)
Definition regex_s (c : N) : bool :=
  ((9 <=? c) && (c <=? 13)) || (c =? 32) || (c =? 160) || (c =? 5760)
  || ((8192 <=? c) && (c <=? 8202)) || (c =? 8232) || (c =? 8233)
  || (c =? 8239) || (c =? 8287) || (c =? 12288) || (c =? 65279).

(** The pattern [.] without the [s] flag: anything but a line
    terminator. *)
Definition regex_any (c : N) : bool :=
  negb ((c =? 10) || (c =? 13) || (c =? 8232) || (c =? 8233)).

(** [s.replace(/[class]/g, fn)] for a class of single code units. *)
Fixpoint replace_class (cls : N -> bool) (fn : jsstring -> jsstring)
    (s : jsstring) : jsstring :=
  match s with
  | [] => []
  | c :: s' =>
      (if cls c then fn [c] else [c]) ++ replace_class cls fn s'
  end.

(** [s.replace(/\u0000(..)/g, fn)]: leftmost matches, scanned from the
    left, each consuming three code units; [fn] gets the match and the
    group. *)
Fixpoint replace_nul2 (fn : jsstring -> jsstring -> jsstring)
    (s : jsstring) : jsstring :=
  match s with
  | [] => []
  | c :: tl =>
      match tl with
      | a :: b :: rest =>
          if (c =? NUL) && regex_any a && regex_any b
          then fn [c; a; b] [a; b] ++ replace_nul2 fn rest
          else c :: replace_nul2 fn tl
      | _ => c :: replace_nul2 fn tl
      end
  end.

(** [s.split(sep)] for a one-character separator. *)
Fixpoint split (sep : N) (s : jsstring) : list jsstring :=
  match s with
  | [] => [[]]
  | c :: s' =>
      if c =? sep then [] :: split sep s'
      else match split sep s' with
           | seg :: segs => (c :: seg) :: segs
           | [] => [[c]]
           end
  end.

Fixpoint startsWith (s p : jsstring) {struct p} : bool :=
  match p, s with
  | [], _ => true
  | x :: p', y :: s' => (x =? y) && startsWith s' p'
  | _ :: _, [] => false
  end.

(** [s.substr(0, n)] and [s.substring(n)]. *)
Definition substr0 (n : nat) (s : jsstring) : jsstring := take n s.
Definition substring (n : nat) (s : jsstring) : jsstring := drop n s.

(** Decimal digits. *)
Fixpoint uint_units (u : Decimal.uint) : jsstring :=
  match u with
  | Decimal.Nil => []
  | Decimal.D0 u => 48 :: uint_units u
  | Decimal.D1 u => 49 :: uint_units u
  | Decimal.D2 u => 50 :: uint_units u
  | Decimal.D3 u => 51 :: uint_units u
  | Decimal.D4 u => 52 :: uint_units u
  | Decimal.D5 u => 53 :: uint_units u
  | Decimal.D6 u => 54 :: uint_units u
  | Decimal.D7 u => 55 :: uint_units u
  | Decimal.D8 u => 56 :: uint_units u
  | Decimal.D9 u => 57 :: uint_units u
  end.

(** [n.toString()] for a non-negative integer, and [`${z}`] for an
    integer in the [plain_decimal] range. *)
Definition N_toString (n : N) : jsstring := uint_units (N.to_uint n).

Definition Number_toString (z : Z) : jsstring :=
  match z with
  | Zneg p => 45 :: N_toString (Npos p)
  | _ => N_toString (Z.to_N z)
  end.

(** [s.padStart(n, "0")]. *)
Definition padStart0 (n : nat) (s : jsstring) : jsstring :=
  repeat 48 (n - length s)%nat ++ s.

Definition is_digit (c : N) : bool := (48 <=? c) && (c <=? 57).

Fixpoint skip_ws (s : jsstring) : jsstring :=
  match s with
  | c :: s' => if regex_s c then skip_ws s' else s
  | [] => []
  end.

Fixpoint parse_digits (acc : N) (s : jsstring) : N :=
  match s with
  | c :: s' =>
      if is_digit c then parse_digits (acc * 10 + (c - 48)) s' else acc
  | [] => acc
  end.

(** [parseInt(x, 10)]: leading white space, an optional sign, then the
    longest run of decimal digits; [NaN] when there is none. *)
Definition parseInt10 (x : option jsstring) : number :=
  let s := skip_ws (tpl x) in
  let '(sign, s) :=
    match s with
    | c :: r => if c =? 45 then ((-1)%Z, r)
                else if c =? 43 then (1%Z, r) else (1%Z, s)
    | [] => (1%Z, s)
    end in
  match s with
  | c :: _ =>
      if is_digit c then Int (sign * Z.of_N (parse_digits 0 s)) else NaN
  | [] => NaN
  end.

(** An ES [Map], and an object used as a dictionary: entries in
    insertion order, one per key. *)
Section Map.
Context {K V : Type} `{EqDecision K}.

Definition Map := list (K * V).

Fixpoint Map_set (k : K) (v : V) (m : Map) : Map :=
  match m with
  | [] => [(k, v)]
  | (k', v') :: m' =>
      if decide (k' = k) then (k, v) :: m' else (k', v') :: Map_set k v m'
  end.

Fixpoint Map_get (k : K) (m : Map) : option V :=
  match m with
  | [] => None
  | (k', v') :: m' => if decide (k' = k) then Some v' else Map_get k m'
  end.

Definition Map_new (entries : list (K * V)) : Map :=
  foldl (fun m kv => Map_set kv.1 kv.2 m) [] entries.

Definition Map_entries (m : Map) : list (K * V) := m.
Definition Map_keys (m : Map) : list K := m.*1.
End Map.

(** Regular expressions, as far as the patterns of the code use them:
    classes of code units, sequence, alternative [|] and the
    quantifier [*], with [+] and [?] derived from them.  None of the
    patterns has a back reference or a look-around, so whether a
    pattern matches a whole string is decided by taking the derivative
    of the pattern by each code unit in turn. *)
Module RegExp.

Inductive t :=
| Never
| Empty
| Class (cls : N -> bool)
| Seq (r1 r2 : t)
| Alt (r1 r2 : t)
| Star (r : t).

Definition Plus (r : t) : t := Seq r (Star r).
Definition Opt (r : t) : t := Alt r Empty.

Fixpoint nullable (r : t) : bool :=
  match r with
  | Never => false
  | Empty => true
  | Class _ => false
  | Seq r1 r2 => nullable r1 && nullable r2
  | Alt r1 r2 => nullable r1 || nullable r2
  | Star _ => true
  end.

Fixpoint derive (c : N) (r : t) : t :=
  match r with
  | Never => Never
  | Empty => Never
  | Class cls => if cls c then Empty else Never
  | Seq r1 r2 =>
      if nullable r1
      then Alt (Seq (derive c r1) r2) (derive c r2)
      else Seq (derive c r1) r2
  | Alt r1 r2 => Alt (derive c r1) (derive c r2)
  | Star r1 => Seq (derive c r1) (Star r1)
  end.

(** [/^r$/.test(s)]. *)
Fixpoint test (r : t) (s : jsstring) : bool :=
  match s with
  | [] => nullable r
  | c :: s' => test (derive c r) s'
  end.

End RegExp.

End Js.

Import Js.

(** ** Event types *)

(** Modelled from the spec: the enum [CommunicationEventType] is declared
    in the package [@coaty/core], which is not part of the sources.  The
    members are the event kinds of the data model, with the two markers
    [OneWay] and [TwoWay] that [_isOneWayEvent] compares against; the
    one-way kinds lie strictly between the two markers and the two-way
    kinds after [TwoWay]. *)
Inductive CommunicationEventType :=
| Raw | OneWay
| Advertise | Deadvertise | Channel | Associate | IoValue
| TwoWay
| Discover | Resolve | Query | Retrieve | Update | Complete | Call | Return.

#[global] Instance CommunicationEventType_eq_dec :
  EqDecision CommunicationEventType.
Proof. solve_decision. Defined.

(** The numeric value of an enum member. *)
Definition enum_value (e : CommunicationEventType) : N :=
  match e with
  | Raw => 0 | OneWay => 1
  | Advertise => 2 | Deadvertise => 3 | Channel => 4 | Associate => 5
  | IoValue => 6
  | TwoWay => 7
  | Discover => 8 | Resolve => 9 | Query => 10 | Retrieve => 11
  | Update => 12 | Complete => 13 | Call => 14 | Return => 15
  end.

(** ** [WampTopic] *)

Module WampTopic.

Record t := mk {
  _version : number;
  _namespace : jsstring;
  _eventType : option CommunicationEventType;
  _eventTypeFilter : option jsstring;
  _sourceId : option jsstring;
  _correlationId : option jsstring;
}.

Definition PROTOCOL_NAME : jsstring := str "coaty".
Definition PROTOCOL_NAME_PREFIX : jsstring := PROTOCOL_NAME ++ str ".".

Definition WHITESPACE_CHARS : jsstring :=
  [ 32; 12; 10; 13; 9; 11; 160; 5760;
    8192; 8193; 8194; 8195; 8196; 8197; 8198; 8199; 8200; 8201; 8202;
    8232; 8233; 8239; 8287; 12288; 65279 ].

Definition WHITESPACE_CHARS_ENCODING : Map (K := jsstring) (V := jsstring) :=
  Map_new (imap (fun i c => ([c], padStart0 2 (N_toString (N.of_nat i))))
             WHITESPACE_CHARS).

Definition WHITESPACE_CHARS_DECODING : Map (K := jsstring) (V := jsstring) :=
  Map_new (map (fun kv => (kv.2, kv.1)) (Map_entries WHITESPACE_CHARS_ENCODING)).

(** The replacer callback of [_encodeTopicComponent]. *)
Definition encode_replacer (char : jsstring) : jsstring :=
  if decide (char = [DOT]) then [NUL; NUL; NUL]
  else
    let encode :=
      match Map_get char WHITESPACE_CHARS_ENCODING with
      | Some e => e
      | None => str "00"
      end in
    NUL :: encode.

Definition _encodeTopicComponent (component : jsstring) : jsstring :=
  replace_class (fun c => (c =? DOT) || regex_s c) encode_replacer component.

(** The replacer callback of [_decodeTopicComponent]. *)
Definition decode_replacer (_match c1 : jsstring) : jsstring :=
  if startsWith c1 [NUL] then [DOT]
  else tpl (Map_get c1 WHITESPACE_CHARS_DECODING).

Definition _decodeTopicComponent (encodedComponent : jsstring) : jsstring :=
  replace_nul2 decode_replacer encodedComponent.

Definition _isOneWayEvent (eventType : CommunicationEventType) : bool :=
  (enum_value OneWay <? enum_value eventType)
  && (enum_value eventType <? enum_value TwoWay).

Definition EVENT_TYPE_TOPIC_COMPONENTS
  : Map (K := jsstring) (V := CommunicationEventType) :=
  Map_new
    [ (str "ADV", Advertise); (str "DAD", Deadvertise);
      (str "CHN", Channel); (str "ASC", Associate); (str "IOV", IoValue);
      (str "DSC", Discover); (str "RSV", Resolve);
      (str "QRY", Query); (str "RTV", Retrieve);
      (str "UPD", Update); (str "CPL", Complete);
      (str "CLL", Call); (str "RTN", Return) ].

(** The array indexed by the numeric value of the event type. *)
Definition TOPIC_COMPONENTS_BY_EVENT_TYPE : Map (K := N) (V := jsstring) :=
  foldl
    (fun arr key =>
       match Map_get key EVENT_TYPE_TOPIC_COMPONENTS with
       | Some eventType => Map_set (enum_value eventType) key arr
       | None => arr
       end)
    [] (Map_keys EVENT_TYPE_TOPIC_COMPONENTS).

Definition _getEventType (topicComponent : jsstring)
  : option CommunicationEventType :=
  Map_get topicComponent EVENT_TYPE_TOPIC_COMPONENTS.

Definition _getEventTopicComponentPrefix (eventType : CommunicationEventType)
  : option jsstring :=
  Map_get (enum_value eventType) TOPIC_COMPONENTS_BY_EVENT_TYPE.

Definition _parseEvent (event : jsstring)
  : option CommunicationEventType * option jsstring :=
  let typeLen := 3%nat in
  let hasEventFilter := bool_decide (typeLen < length event)%nat in
  let type := if hasEventFilter then substr0 typeLen event else event in
  let filter := if hasEventFilter then Some (substring typeLen event) else None in
  (_getEventType type, filter).

Definition isCoatyTopicLike (topicName : jsstring) : bool :=
  startsWith topicName PROTOCOL_NAME_PREFIX.

(** [createByName]: [Normal None] is the [undefined] result; reading
    [length] or calling [replace] on a missing component throws. *)
Definition createByName (topicName : jsstring) : completion (option t) :=
  if negb (isCoatyTopicLike topicName) then Normal None
  else
    let parts := split DOT topicName in
    let version := parts !! 1%nat in
    let namespace := parts !! 2%nat in
    let event := parts !! 3%nat in
    let sourceId := parts !! 4%nat in
    let corrId := parts !! 5%nat in
    let v := parseInt10 version in
    match event with
    | None => Throw TypeError
    | Some event =>
        let '(eventType, eventTypeFilter) := _parseEvent event in
        match namespace with
        | None => Throw TypeError
        | Some namespace =>
            Normal (Some
              {| _version := v;
                 _namespace := _decodeTopicComponent namespace;
                 _eventType := eventType;
                 _eventTypeFilter :=
                   if truthy eventTypeFilter
                   then Some (_decodeTopicComponent (tpl eventTypeFilter))
                   else eventTypeFilter;
                 _sourceId := sourceId;
                 _correlationId :=
                   if decide (corrId = Some []) then None else corrId |})
        end
    end.

Definition getTopicName (version : Z) (namespace : jsstring)
    (eventType : CommunicationEventType) (eventTypeFilter : option jsstring)
    (sourceId : jsstring) (correlationId : option jsstring) : jsstring :=
  let event := _getEventTopicComponentPrefix eventType in
  let event :=
    if truthy eventTypeFilter
    then Some (tpl event ++ _encodeTopicComponent (tpl eventTypeFilter))
    else event in
  let topic :=
    PROTOCOL_NAME ++ [DOT] ++ Number_toString version ++ [DOT]
    ++ _encodeTopicComponent namespace ++ [DOT] ++ tpl event ++ [DOT]
    ++ sourceId in
  if negb (_isOneWayEvent eventType)
  then topic ++ [DOT] ++ tpl correlationId
  else topic.

Definition getTopicFilter (version : Z) (namespace : option jsstring)
    (eventType : CommunicationEventType) (eventTypeFilter : option jsstring)
    (correlationId : option jsstring) : jsstring :=
  let event := _getEventTopicComponentPrefix eventType in
  let event :=
    if truthy eventTypeFilter
    then Some (tpl event ++ _encodeTopicComponent (tpl eventTypeFilter))
    else event in
  let comps :=
    PROTOCOL_NAME ++ [DOT] ++ Number_toString version ++ [DOT]
    ++ (if truthy namespace then _encodeTopicComponent (tpl namespace) else [])
    ++ [DOT] ++ tpl event ++ [DOT] in
  if negb (_isOneWayEvent eventType)
  then comps ++ (if truthy correlationId
                 then [DOT] ++ tpl correlationId else [DOT])
  else comps.

(** The class [[^\s\.#]] of the two patterns below. *)
Definition uri_component_unit (c : N) : bool :=
  negb (regex_s c || (c =? DOT) || (c =? HASH)).

Definition REGEX_URI_LOOSE_EMPTY : RegExp.t :=
  RegExp.Seq
    (RegExp.Star
       (RegExp.Alt
          (RegExp.Seq (RegExp.Plus (RegExp.Class uri_component_unit))
             (RegExp.Class (fun c => c =? DOT)))
          (RegExp.Class (fun c => c =? DOT))))
    (RegExp.Opt (RegExp.Plus (RegExp.Class uri_component_unit))).

Definition REGEX_URI_LOOSE_NON_EMPTY : RegExp.t :=
  RegExp.Seq
    (RegExp.Star
       (RegExp.Seq (RegExp.Plus (RegExp.Class uri_component_unit))
          (RegExp.Class (fun c => c =? DOT))))
    (RegExp.Plus (RegExp.Class uri_component_unit)).

(** [isValidTopic]; the callers pass a filter that may be [undefined]. *)
Definition isValidTopic (name : option jsstring) (forSubscription : bool)
  : bool :=
  if negb (truthy name) then false
  else if forSubscription
  then RegExp.test REGEX_URI_LOOSE_EMPTY (tpl name)
  else RegExp.test REGEX_URI_LOOSE_NON_EMPTY (tpl name).

End WampTopic.

Import WampTopic.


(** ** [WampBinding] *)

(** The binding runs on one event loop.  Its state is the private fields
    of the class, the [SubscriptionItem] objects it allocated (they are
    shared between the registry array and the promise callbacks, so they
    live in a store and are referred to by index), the promises whose
    callbacks are still to run, and what the binding has done to its
    collaborators so far: the communication states it emitted and the
    calls it issued on the router session.  A handler is a function on
    this state that completes normally or throws. *)

Inductive CommunicationState := Offline | Online.

#[global] Instance CommunicationState_eq_dec : EqDecision CommunicationState.
Proof. solve_decision. Defined.

Inductive CloseReason := closed | lost | unreachable | unsupported | other_reason.

Inductive TestamentScope := destroyed | detached.

Abbreviation Payload := (list N).
Abbreviation Handle := N.
Abbreviation ref := nat.

Module EventOptions.
(** [options.retain], [options.acknowledge] (as truth values) and
    [options.match]. *)
Record t := mk {
  retain : bool;
  acknowledge : bool;
  match_ : option jsstring;
}.
End EventOptions.

Module EventLike.
Record t := mk {
  eventType : CommunicationEventType;
  eventTypeFilter : option jsstring;
  sourceId : jsstring;
  correlationId : option jsstring;
  data : Payload;
  isDataRaw : bool;
  options : option EventOptions.t;
}.
End EventLike.

Module PublicationItem.
Record t := mk {
  topic : option jsstring;
  payload : Payload;
  isKwargsPayload : bool;
  options : option EventOptions.t;
}.
End PublicationItem.

Module SubscriptionItem.
Record t := mk {
  eventType : CommunicationEventType;
  topic : option jsstring;
  match_ : jsstring;
  isKwargsPayload : bool;
  subscription : option Handle;
}.

Definition set_subscription (v : option Handle) (i : t) : t :=
  mk (eventType i) (topic i) (match_ i) (isKwargsPayload i) v.
End SubscriptionItem.

Module JoinOptions.
Record t := mk {
  joinEvents : list EventLike.t;
  unjoinEvent : EventLike.t;
}.
End JoinOptions.

Module BindingOptions.
Record t := mk {
  namespace : jsstring;
  shouldEnableCrossNamespacing : bool;
}.
End BindingOptions.

(** The router session and the connection, as far as the binding reads
    them: a session is open or not, and its socket accepts frames or
    throws "not opened". *)
Module Session.
Record t := mk {
  id : N;
  isOpen : bool;
  socket_open : bool;
}.

(** The session that the connection creates over a new transport: the
    router has not welcomed it yet, so it is not open and has no id
    ([0] stands for [null]; the binding never reads it). *)
Definition fresh : t := mk 0 false false.
End Session.

Module Connection.
Record t := mk {
  session : option Session.t;
  isConnected : bool;
}.

Definition isOpen (c : t) : bool :=
  match session c with
  | Some s => Session.isOpen s
  | None => false
  end.
End Connection.

(** A call issued on the router session. *)
Inductive SessionCall :=
| AddTestament (topic : option jsstring) (payload : Payload) (scope : TestamentScope)
| Subscribe (item : ref) (topic : option jsstring) (match_ : jsstring)
| Unsubscribe (subscription : Handle)
| Publish (topic : option jsstring) (args : list Payload)
    (kwargs : option Payload) (retain acknowledge : bool).

(** A promise returned by the session whose [then]/[catch] callbacks
    change the state of the binding. *)
Inductive Promise :=
| PublishPromise (topic : option jsstring)
| SubscribePromise (item : ref)
| UnsubscribePromise (item : ref).

Inductive Settlement := Fulfilled (value : N) | Rejected.

(** What a subscription handler is given as payload: the keyword
    arguments of the publication ([{}] when it has none) or its first
    positional argument ([undefined] when it has none). *)
Inductive Received := Undefined | EmptyObject | Data (payload : Payload).

(** The event that [_dispatchMessage] emits as ["inboundEvent"]. *)
Module InboundEvent.
Record t := mk {
  eventType : option CommunicationEventType;
  eventTypeFilter : option jsstring;
  sourceId : option jsstring;
  correlationId : option jsstring;
  data : Received;
}.
End InboundEvent.

Module WampBinding.

Record t := mk {
  options : BindingOptions.t;
  _joinOptions : option JoinOptions.t;
  _pendingPublicationItems : list PublicationItem.t;
  _issuedSubscriptionItems : list ref;
  _isPublishingDeferred : bool;
  _connection : option Connection.t;
  _sessionIdLogItem : jsstring;
  store : list SubscriptionItem.t;
  promises : list Promise;
  emitted : list CommunicationState;
  calls : list SessionCall;
}.

Definition set_joinOptions v s :=
  mk (options s) v (_pendingPublicationItems s) (_issuedSubscriptionItems s)
     (_isPublishingDeferred s) (_connection s) (_sessionIdLogItem s)
     (store s) (promises s) (emitted s) (calls s).
Definition set_pendingPublicationItems v s :=
  mk (options s) (_joinOptions s) v (_issuedSubscriptionItems s)
     (_isPublishingDeferred s) (_connection s) (_sessionIdLogItem s)
     (store s) (promises s) (emitted s) (calls s).
Definition set_issuedSubscriptionItems v s :=
  mk (options s) (_joinOptions s) (_pendingPublicationItems s) v
     (_isPublishingDeferred s) (_connection s) (_sessionIdLogItem s)
     (store s) (promises s) (emitted s) (calls s).
Definition set_isPublishingDeferred v s :=
  mk (options s) (_joinOptions s) (_pendingPublicationItems s)
     (_issuedSubscriptionItems s) v (_connection s) (_sessionIdLogItem s)
     (store s) (promises s) (emitted s) (calls s).
Definition set_connection v s :=
  mk (options s) (_joinOptions s) (_pendingPublicationItems s)
     (_issuedSubscriptionItems s) (_isPublishingDeferred s) v
     (_sessionIdLogItem s) (store s) (promises s) (emitted s) (calls s).
Definition set_sessionIdLogItem v s :=
  mk (options s) (_joinOptions s) (_pendingPublicationItems s)
     (_issuedSubscriptionItems s) (_isPublishingDeferred s) (_connection s)
     v (store s) (promises s) (emitted s) (calls s).
Definition set_store v s :=
  mk (options s) (_joinOptions s) (_pendingPublicationItems s)
     (_issuedSubscriptionItems s) (_isPublishingDeferred s) (_connection s)
     (_sessionIdLogItem s) v (promises s) (emitted s) (calls s).
Definition set_promises v s :=
  mk (options s) (_joinOptions s) (_pendingPublicationItems s)
     (_issuedSubscriptionItems s) (_isPublishingDeferred s) (_connection s)
     (_sessionIdLogItem s) (store s) v (emitted s) (calls s).
Definition set_emitted v s :=
  mk (options s) (_joinOptions s) (_pendingPublicationItems s)
     (_issuedSubscriptionItems s) (_isPublishingDeferred s) (_connection s)
     (_sessionIdLogItem s) (store s) (promises s) v (calls s).
Definition set_calls v s :=
  mk (options s) (_joinOptions s) (_pendingPublicationItems s)
     (_issuedSubscriptionItems s) (_isPublishingDeferred s) (_connection s)
     (_sessionIdLogItem s) (store s) (promises s) (emitted s) v.

(** *** Handlers as state transformers that may throw *)

Definition M (A : Type) : Type := t -> completion A * t.

Definition ret {A} (a : A) : M A := fun s => (Normal a, s).
Definition throw {A} (e : JsError) : M A := fun s => (Throw e, s).
Definition bind {A B} (m : M A) (k : A -> M B) : M B :=
  fun s =>
    match m s with
    | (Normal a, s') => k a s'
    | (Throw e, s') => (Throw e, s')
    end.
Definition get : M t := fun s => (Normal s, s).
Definition modify (f : t -> t) : M unit := fun s => (Normal tt, f s).

(** [try { m } catch (error) { h }]. *)
Definition try_catch (m h : M unit) : M unit :=
  fun s =>
    match m s with
    | (Normal a, s') => (Normal a, s')
    | (Throw _, s') => h s'
    end.

Notation "x <- m ;; k" := (bind m (fun x => k))
  (at level 100, m at next level, right associativity).
Notation "m ;; k" := (bind m (fun _ => k))
  (at level 100, right associativity).

(** [items.forEach(f)]. *)
Fixpoint forEach {A} (items : list A) (f : A -> M unit) : M unit :=
  match items with
  | [] => ret tt
  | x :: items' => f x ;; forEach items' f
  end.

(** The state a handler leaves behind. *)
Definition exec {A} (m : M A) (s : t) : t := (m s).2.

(** *** The collaborators *)

Definition apiVersion : Z := 1.

Definition emit_communicationState (st : CommunicationState) : M unit :=
  modify (fun s => set_emitted (emitted s ++ [st]) s).

(** [this._connection?.isOpen]. *)
Definition connection_isOpen (s : t) : bool :=
  match _connection s with
  | Some c => Connection.isOpen c
  | None => false
  end.

(** Sending a request on a session: the session must be open and the
    socket must accept the frame. *)
Definition send_on (session : Session.t) (c : SessionCall) : M unit :=
  if Session.isOpen session && Session.socket_open session
  then modify (fun s => set_calls (calls s ++ [c]) s)
  else throw NotOpened.

(** [this._connection.session.<call>(...)]. *)
Definition session_call (c : SessionCall) : M unit :=
  s <- get ;;
  match _connection s with
  | None => throw TypeError
  | Some conn =>
      match Connection.session conn with
      | None => throw TypeError
      | Some session => send_on session c
      end
  end.

(** Attaching [then]/[catch] callbacks to a returned promise. *)
Definition await (p : Promise) : M unit :=
  modify (fun s => set_promises (promises s ++ [p]) s).

(** Reading and updating a [SubscriptionItem] object. *)
Definition deref (s : t) (item : ref) : option SubscriptionItem.t :=
  store s !! item.

Definition assign_subscription (item : ref) (v : option Handle) : M unit :=
  modify (fun s =>
    set_store (alter (SubscriptionItem.set_subscription v) item (store s)) s).

(** Creating a [SubscriptionItem] object. *)
Definition new_item (i : SubscriptionItem.t) : M ref :=
  s <- get ;;
  modify (set_store (store s ++ [i])) ;;
  ret (length (store s)).

(** *** Private methods *)

Definition _resetSession : M unit :=
  modify (set_sessionIdLogItem (str "[---] ")) ;;
  s <- get ;;
  forEach (_issuedSubscriptionItems s) (fun i => assign_subscription i None) ;;
  emit_communicationState Offline.

Definition _reset : M unit :=
  modify (set_connection None) ;;
  modify (set_joinOptions None) ;;
  modify (set_isPublishingDeferred true) ;;
  modify (set_pendingPublicationItems []) ;;
  modify (set_issuedSubscriptionItems []) ;;
  _resetSession.

Definition _getTopicFor (self : t) (eventLike : EventLike.t)
  : option jsstring :=
  if decide (EventLike.eventType eventLike = Raw)
  then EventLike.eventTypeFilter eventLike
  else if decide (EventLike.eventType eventLike = IoValue)
  then EventLike.eventTypeFilter eventLike
  else Some (getTopicName apiVersion
               (BindingOptions.namespace (options self))
               (EventLike.eventType eventLike)
               (EventLike.eventTypeFilter eventLike)
               (EventLike.sourceId eventLike)
               (EventLike.correlationId eventLike)).

Definition _getTopicFilterFor (self : t) (eventLike : EventLike.t)
  : option jsstring * jsstring :=
  if decide (EventLike.eventType eventLike = Raw)
  then (EventLike.eventTypeFilter eventLike,
        let m := match EventLike.options eventLike with
                 | Some o => EventOptions.match_ o
                 | None => None
                 end in
        if truthy m then tpl m else str "exact")
  else if decide (EventLike.eventType eventLike = IoValue)
  then (EventLike.eventTypeFilter eventLike, str "exact")
  else (Some (getTopicFilter apiVersion
                (if BindingOptions.shouldEnableCrossNamespacing (options self)
                 then None
                 else Some (BindingOptions.namespace (options self)))
                (EventLike.eventType eventLike)
                (EventLike.eventTypeFilter eventLike)
                (EventLike.correlationId eventLike)),
        str "wildcard").

(** The testament callbacks only write to the log, so no promise is
    recorded for them. *)
Definition _addSessionTestaments (session : Session.t) : M unit :=
  s <- get ;;
  match _joinOptions s with
  | None => throw TypeError
  | Some joinOptions =>
      let unjoinEventLike := JoinOptions.unjoinEvent joinOptions in
      let topic := _getTopicFor s unjoinEventLike in
      let payload := EventLike.data unjoinEventLike in
      send_on session (AddTestament topic payload destroyed) ;;
      send_on session (AddTestament topic payload detached)
  end.

(** **** Publication management *)

Definition isKwargsPayload_of (eventLike : EventLike.t) : bool :=
  negb (EventLike.isDataRaw eventLike)
  && negb (bool_decide (EventLike.eventType eventLike = IoValue)).

Definition _addPublicationItem (eventLike : EventLike.t)
    (shouldAddFirst once : bool) : M unit :=
  s <- get ;;
  let topic := _getTopicFor s eventLike in
  let payload := EventLike.data eventLike in
  let isKwargsPayload := isKwargsPayload_of eventLike in
  let options := EventLike.options eventLike in
  let item := PublicationItem.mk topic payload isKwargsPayload options in
  if once && existsb (fun i => bool_decide (PublicationItem.topic i = topic))
               (_pendingPublicationItems s)
  then ret tt
  else if shouldAddFirst
  then modify (set_pendingPublicationItems (item :: _pendingPublicationItems s))
  else modify (set_pendingPublicationItems (_pendingPublicationItems s ++ [item])).

Definition option_flag (o : option EventOptions.t)
    (f : EventOptions.t -> bool) : bool :=
  match o with Some o => f o | None => false end.

(** The body of [_doDrainPublications]; [self] is the call of the
    method to itself. *)
Definition _doDrainPublications_body (self : M unit) : M unit :=
  s <- get ;;
  if negb (connection_isOpen s)
     || bool_decide (length (_pendingPublicationItems s) = 0%nat)
  then modify (set_isPublishingDeferred true)
  else
    match _pendingPublicationItems s !! 0%nat with
    | None => throw TypeError
    | Some item =>
        let topic := PublicationItem.topic item in
        let payload := PublicationItem.payload item in
        let isKwargsPayload := PublicationItem.isKwargsPayload item in
        let options := PublicationItem.options item in
        let args := if isKwargsPayload then [] else [payload] in
        let kwargs := if isKwargsPayload then Some payload else None in
        let retain := option_flag options EventOptions.retain in
        let acknowledge := option_flag options EventOptions.acknowledge in
        session_call (Publish topic args kwargs retain acknowledge) ;;
        (* publish returns a promise only for acknowledged publications *)
        if acknowledge
        then await (PublishPromise topic)
        else
          modify (fun s =>
            set_pendingPublicationItems (tail (_pendingPublicationItems s)) s) ;;
          self
    end.

(** The method calls itself only after it has shifted an item off the
    queue, so the length of the queue bounds the depth of the calls. *)
Fixpoint _doDrainPublications_rec (fuel : nat) : M unit :=
  match fuel with
  | O => ret tt
  | S fuel => _doDrainPublications_body (_doDrainPublications_rec fuel)
  end.

Definition _doDrainPublications : M unit :=
  s <- get ;;
  _doDrainPublications_rec (S (length (_pendingPublicationItems s))).

Definition _drainPublications : M unit :=
  s <- get ;;
  if negb (_isPublishingDeferred s) then ret tt
  else
    modify (set_isPublishingDeferred false) ;;
    _doDrainPublications.

(** The callbacks on the promise of an acknowledged publication:
    [.then(...)] followed by [.catch(...)], so the [catch] callback also
    runs when the [then] callback throws. *)
Definition publish_catch : M unit :=
  modify (set_isPublishingDeferred true).

Definition publish_then : M unit :=
  try_catch
    (modify (fun s =>
       set_pendingPublicationItems (tail (_pendingPublicationItems s)) s) ;;
     _doDrainPublications)
    publish_catch.

(** **** Subscription management *)

Definition _subscriptionItemPredicate (self : t)
    (eventType : CommunicationEventType) (topic : option jsstring)
    (match_ : jsstring) (item : ref) : Prop :=
  match deref self item with
  | Some i =>
      SubscriptionItem.eventType i = eventType
      /\ SubscriptionItem.topic i = topic
      /\ SubscriptionItem.match_ i = match_
  | None => False
  end.

#[global] Instance _subscriptionItemPredicate_dec self eventType topic match_ item :
  Decision (_subscriptionItemPredicate self eventType topic match_ item).
Proof.
  unfold _subscriptionItemPredicate.
  destruct (deref self item); apply _.
Defined.

(** [array.findIndex(p)]; [None] stands for [-1]. *)
Definition findIndex (P : ref -> Prop) `{forall x, Decision (P x)}
    (l : list ref) : option nat :=
  fst <$> list_find P l.

Definition subscribe (item : ref) : M unit :=
  s <- get ;;
  if connection_isOpen s
  then
    match deref s item with
    | None => throw TypeError
    | Some i =>
        session_call (Subscribe item (SubscriptionItem.topic i)
                        (SubscriptionItem.match_ i)) ;;
        await (SubscribePromise item)
    end
  else ret tt.

Definition _subscribeItems (items : list ref) : M unit :=
  forEach items subscribe.

Definition unsubscribe (item : ref) : M unit :=
  s <- get ;;
  match deref s item with
  | None => throw TypeError
  | Some i =>
      match SubscriptionItem.subscription i with
      | None => ret tt
      | Some sub =>
          match _connection s with
          | None => ret tt
          | Some _ =>
              session_call (Unsubscribe sub) ;;
              await (UnsubscribePromise item)
          end
      end
  end.

Definition _unsubscribeItems (items : list ref) : M unit :=
  forEach items unsubscribe.

Definition _addSubscriptionItem (eventLike : EventLike.t) : M unit :=
  s <- get ;;
  let '(topicFilter, match_) := _getTopicFilterFor s eventLike in
  item <- new_item
    (SubscriptionItem.mk (EventLike.eventType eventLike) topicFilter match_
       (isKwargsPayload_of eventLike) None) ;;
  s <- get ;;
  match findIndex (_subscriptionItemPredicate s (EventLike.eventType eventLike)
                     topicFilter match_)
          (_issuedSubscriptionItems s) with
  | None =>
      modify (set_issuedSubscriptionItems (_issuedSubscriptionItems s ++ [item])) ;;
      _subscribeItems [item]
  | Some index =>
      match _issuedSubscriptionItems s !! index with
      | None => throw TypeError
      | Some existingSubscription =>
          modify (set_issuedSubscriptionItems
                    (<[index := item]> (_issuedSubscriptionItems s))) ;;
          _subscribeItems [item] ;;
          _unsubscribeItems [existingSubscription]
      end
  end.

Definition _removeSubscriptionItem (eventLike : EventLike.t) : M unit :=
  s <- get ;;
  let '(topicFilter, match_) := _getTopicFilterFor s eventLike in
  match findIndex (_subscriptionItemPredicate s (EventLike.eventType eventLike)
                     topicFilter match_)
          (_issuedSubscriptionItems s) with
  | None => ret tt
  | Some index =>
      let item := take 1 (drop index (_issuedSubscriptionItems s)) in
      modify (set_issuedSubscriptionItems
                (delete index (_issuedSubscriptionItems s))) ;;
      _unsubscribeItems item
  end.

(** The callbacks on the promises of [subscribe] and [unsubscribe]. *)
Definition subscribe_then (item : ref) (sub : Handle) : M unit :=
  assign_subscription item (Some sub).
Definition subscribe_catch (item : ref) : M unit :=
  assign_subscription item None.
Definition unsubscribe_settled (item : ref) : M unit :=
  assign_subscription item None.

(** *** Protocol handlers *)

Definition onInit : M unit := _reset.

(** The loop of [onopen] over the join events, last one first. *)
Definition addJoinEvents (joinEvents : list EventLike.t) : M unit :=
  forEach (rev joinEvents) (fun e => _addPublicationItem e true true).

(** [this._connection.onopen]. *)
Definition connection_onopen (session : Session.t) : M unit :=
  try_catch
    (modify (set_sessionIdLogItem
               (str "[" ++ N_toString (Session.id session) ++ str "] ")) ;;
     (* the log line reads [this._connection.transport] *)
     s <- get ;;
     match _connection s with
     | None => throw TypeError
     | Some _ => ret tt
     end ;;
     emit_communicationState Online ;;
     _addSessionTestaments session ;;
     s <- get ;;
     _subscribeItems (_issuedSubscriptionItems s) ;;
     s <- get ;;
     match _joinOptions s with
     | None => throw TypeError
     | Some joinOptions => addJoinEvents (JoinOptions.joinEvents joinOptions)
     end ;;
     _drainPublications)
    _reset.

(** [this._connection.onclose]. *)
Definition connection_onclose (reason : CloseReason) : M unit :=
  match reason with
  | closed => _reset
  | lost => _resetSession
  | unreachable => _reset
  | unsupported => _reset
  | other_reason => _reset
  end.

(** [onUnjoin]; closing the connection makes the transport report
    [closed] later on. *)
Definition onUnjoin : M unit :=
  s <- get ;;
  match _connection s with
  | Some c => if Connection.isConnected c then ret tt else _reset
  | None => _reset
  end.

(** *** The event loop *)

(** What the transport does to the connection object when it creates
    a session, before it calls [onopen], and after it has called
    [onclose]. *)
Definition transport_session (session : option Session.t) : M unit :=
  modify (fun s =>
    match _connection s with
    | Some c =>
        set_connection
          (Some (Connection.mk session
                   (match session with Some _ => true | None => false end))) s
    | None => s
    end).

(** [this._connection.open()]: the connection creates a transport and
    a session over it before [open] returns, so that it counts as
    connected (and not yet as open) from then on; when no transport can
    be created it reports [unsupported] to [onclose] before [open]
    returns.  Which of the two happens is up to the environment. *)
Definition connection_open (transport_created : bool) : M unit :=
  if transport_created
  then transport_session (Some Session.fresh)
  else connection_onclose unsupported.

(** [onJoin] stores the join options, creates the connection with the
    two handlers above and opens it. *)
Definition onJoin (joinOptions : JoinOptions.t) (transport_created : bool)
  : M unit :=
  modify (set_joinOptions (Some joinOptions)) ;;
  modify (set_connection (Some (Connection.mk None false))) ;;
  connection_open transport_created.

Definition transport_open (session : Session.t) : M unit :=
  transport_session (Some session) ;; connection_onopen session.

Definition transport_close (reason : CloseReason) : M unit :=
  connection_onclose reason ;; transport_session None.

(** Settling the [i]-th pending promise runs its callbacks. *)
Definition settle (i : nat) (o : Settlement) : M unit :=
  s <- get ;;
  match promises s !! i with
  | None => ret tt
  | Some p =>
      modify (set_promises (delete i (promises s))) ;;
      match p, o with
      | PublishPromise _, Fulfilled _ => publish_then
      | PublishPromise _, Rejected => publish_catch
      | SubscribePromise item, Fulfilled sub => subscribe_then item sub
      | SubscribePromise item, Rejected => subscribe_catch item
      | UnsubscribePromise item, _ => unsubscribe_settled item
      end
  end.

(** The acknowledgments of the router for the publications of a drain,
    one per acknowledged publication, in order: each settles the
    publication promise that is pending, if there is one. *)
Definition is_publish_promise (p : Promise) : bool :=
  match p with PublishPromise _ => true | _ => false end.

Definition pending_publish (s : t) : option nat :=
  fst <$> list_find (fun p => is_publish_promise p = true) (promises s).

Fixpoint acknowledge_publications (acks : list Settlement) : M unit :=
  match acks with
  | [] => ret tt
  | o :: acks' =>
      s <- get ;;
      match pending_publish s with
      | None => ret tt
      | Some i => settle i o ;; acknowledge_publications acks'
      end
  end.

(** *** The remaining protocol handlers *)

Definition createIoRoute (self : t) (ioSourceId : jsstring) : jsstring :=
  getTopicName apiVersion (BindingOptions.namespace (options self))
    IoValue None ioSourceId None.

(** [WampTopic.isCoatyTopicLike(eventLike.eventTypeFilter)]: calling
    [startsWith] on a missing filter throws. *)
Definition filter_isCoatyTopicLike (eventLike : EventLike.t) : M bool :=
  match EventLike.eventTypeFilter eventLike with
  | None => throw TypeError
  | Some topicName => ret (isCoatyTopicLike topicName)
  end.

(** [onPublish]; the line written to the log for a topic that is
    turned down is not part of the state. *)
Definition onPublish (eventLike : EventLike.t) : M unit :=
  invalid <-
    (if decide (EventLike.eventType eventLike = Raw)
     then
       like <- filter_isCoatyTopicLike eventLike ;;
       ret (like
            || negb (isValidTopic (EventLike.eventTypeFilter eventLike) false))
     else ret false) ;;
  if (invalid : bool) then ret tt
  else
    _addPublicationItem eventLike false false ;;
    _drainPublications.

(** [onSubscribe]; [isExternalIoRoute] is the field of that name of
    [eventLike], which only this handler reads. *)
Definition onSubscribe (eventLike : EventLike.t) (isExternalIoRoute : bool)
  : M unit :=
  invalid <-
    (if decide (EventLike.eventType eventLike = Raw)
     then
       like <- filter_isCoatyTopicLike eventLike ;;
       ret (like
            || negb (isValidTopic (EventLike.eventTypeFilter eventLike) true))
     else ret false) ;;
  if (invalid : bool) then ret tt
  else
    invalid <-
      (if decide (EventLike.eventType eventLike = IoValue)
       then
         like <- (if isExternalIoRoute
                  then filter_isCoatyTopicLike eventLike
                  else ret false) ;;
         ret (like
              || negb (isValidTopic (EventLike.eventTypeFilter eventLike) false))
       else ret false) ;;
    if (invalid : bool) then ret tt
    else _addSubscriptionItem eventLike.

Definition onUnsubscribe (eventLike : EventLike.t) : M unit :=
  _removeSubscriptionItem eventLike.

(** *** Inbound message dispatch *)

(** [_dispatchMessage] computes one event from its arguments and emits
    it as ["inboundEvent"]; it reads no field of the binding.  The
    result is the emitted event, or the error thrown before anything is
    emitted. *)
Definition _dispatchMessage (item : SubscriptionItem.t) (topicName : jsstring)
    (payload : Received) : completion InboundEvent.t :=
  match createByName topicName with
  | Throw e => Throw e
  | Normal topic =>
      if bool_decide (SubscriptionItem.eventType item = Raw)
         || bool_decide (SubscriptionItem.eventType item = IoValue)
      then
        Normal
          {| InboundEvent.eventType := Some (SubscriptionItem.eventType item);
             InboundEvent.eventTypeFilter := Some topicName;
             InboundEvent.sourceId :=
               match topic with
               | Some topic => WampTopic._sourceId topic
               | None => None
               end;
             InboundEvent.correlationId := SubscriptionItem.topic item;
             InboundEvent.data := payload |}
      else
        match topic with
        | None => Throw TypeError
        | Some topic =>
            Normal
              {| InboundEvent.eventType := WampTopic._eventType topic;
                 InboundEvent.eventTypeFilter := WampTopic._eventTypeFilter topic;
                 InboundEvent.sourceId := WampTopic._sourceId topic;
                 InboundEvent.correlationId := WampTopic._correlationId topic;
                 InboundEvent.data := payload |}
        end
  end.

(** The handler that [_subscribeItems] registers for [item]: it is
    called with the positional and the keyword arguments of a
    publication and with the topic it was published on. *)
Definition subscription_handler (item : SubscriptionItem.t)
    (args : list Payload) (kwargs : option Payload) (details_topic : jsstring)
  : completion InboundEvent.t :=
  let payload :=
    if SubscriptionItem.isKwargsPayload item
    then match kwargs with Some p => Data p | None => EmptyObject end
    else match args !! 0%nat with Some p => Data p | None => Undefined end in
  _dispatchMessage item details_topic payload.

End WampBinding.
(** ** Auxiliary definitions used in the statements and proofs *)

(** Digits of a decimal numeral. *)
Fixpoint uint_value (acc : N) (u : Decimal.uint) : N :=
  match u with
  | Decimal.Nil => acc
  | Decimal.D0 u => uint_value (acc * 10 + 0) u
  | Decimal.D1 u => uint_value (acc * 10 + 1) u
  | Decimal.D2 u => uint_value (acc * 10 + 2) u
  | Decimal.D3 u => uint_value (acc * 10 + 3) u
  | Decimal.D4 u => uint_value (acc * 10 + 4) u
  | Decimal.D5 u => uint_value (acc * 10 + 5) u
  | Decimal.D6 u => uint_value (acc * 10 + 6) u
  | Decimal.D7 u => uint_value (acc * 10 + 7) u
  | Decimal.D8 u => uint_value (acc * 10 + 8) u
  | Decimal.D9 u => uint_value (acc * 10 + 9) u
  end.

(** What the two replacer callbacks do on one white space character. *)
Definition escape_ok (c : N) : bool :=
  match encode_replacer [c] with
  | [z; a; b] =>
      (z =? NUL) && is_digit a && is_digit b
      && bool_decide (decode_replacer [z; a; b] [a; b] = [c])
  | _ => false
  end.

(** The thirteen event kinds that have a topic component. *)
Definition is_event_kind (e : CommunicationEventType) : bool :=
  match e with Raw | OneWay | TwoWay => false | _ => true end.

(** The response side of the two-way pairs. *)
Definition is_response (e : CommunicationEventType) : bool :=
  match e with Resolve | Retrieve | Complete | Return => true | _ => false end.

(** Event kinds that must carry an event filter. *)
Definition requires_filter (e : CommunicationEventType) : bool :=
  match e with
  | Advertise | Update | Channel | Call | Associate => true
  | _ => false
  end.

(** A valid topic descriptor: an event kind; a filter that, when present,
    is non-empty and NUL-free, and is present when the kind requires one;
    a NUL-free namespace; a positive version that prints as plain decimal
    digits; a dot-free source id; a non-empty dot-free correlation id for
    the two-way kinds and none for the one-way kinds. *)
Record valid_descriptor (version : Z) (namespace : jsstring)
    (eventType : CommunicationEventType) (eventTypeFilter : option jsstring)
    (sourceId : jsstring) (correlationId : option jsstring) : Prop := {
  vd_version : (0 < version)%Z /\ plain_decimal version;
  vd_kind : is_event_kind eventType = true;
  vd_filter :
    match eventTypeFilter with
    | Some f => f <> [] /\ (NUL ∉ f)
    | None => requires_filter eventType = false
    end;
  vd_namespace : NUL ∉ namespace;
  vd_sourceId : DOT ∉ sourceId;
  vd_correlationId :
    if _isOneWayEvent eventType then correlationId = None
    else exists c, correlationId = Some c /\ c <> [] /\ (DOT ∉ c);
}.

Definition prefix_ok (e : CommunicationEventType) : bool :=
  match _getEventTopicComponentPrefix e with
  | Some [a; b; c] =>
      negb (a =? DOT) && negb (b =? DOT) && negb (c =? DOT)
      && bool_decide (_getEventType [a; b; c] = Some e)
  | _ => false
  end.


Import WampBinding.

(** The binding holds a connection whose session is open and whose
    socket accepts frames. *)
Definition online (s : WampBinding.t) : bool :=
  match _connection s with
  | Some c =>
      match Connection.session c with
      | Some session => Session.isOpen session && Session.socket_open session
      | None => false
      end
  | None => false
  end.

(** The queue item that [_addPublicationItem] builds for an event. *)
Definition item_of (s : WampBinding.t) (e : EventLike.t) : PublicationItem.t :=
  PublicationItem.mk (_getTopicFor s e) (EventLike.data e)
    (isKwargsPayload_of e) (EventLike.options e).

Definition acknowledged (i : PublicationItem.t) : bool :=
  option_flag (PublicationItem.options i) EventOptions.acknowledge.

(** The [publish] call that a drain issues for a queue item. *)
Definition publish_call (i : PublicationItem.t) : SessionCall :=
  Publish (PublicationItem.topic i)
    (if PublicationItem.isKwargsPayload i then [] else [PublicationItem.payload i])
    (if PublicationItem.isKwargsPayload i then Some (PublicationItem.payload i) else None)
    (option_flag (PublicationItem.options i) EventOptions.retain)
    (acknowledged i).

(** The four fields a drain writes. *)
Definition drained (s : WampBinding.t) (q : list PublicationItem.t)
    (c : list SessionCall) (d : bool) (p : list Promise) : WampBinding.t :=
  set_promises p
    (set_isPublishingDeferred d
       (set_pendingPublicationItems q (set_calls c s))).

(** What a drain of queue [q] does when the router answers the
    acknowledged publications with [acks]: the queue that is left, the
    items published, the deferred flag and the promise still pending. *)
Fixpoint drain_outcome (q : list PublicationItem.t) (acks : list Settlement)
  : list PublicationItem.t * list PublicationItem.t * bool * list Promise :=
  match q with
  | [] => ([], [], true, [])
  | item :: rest =>
      if acknowledged item then
        match acks with
        | [] => (q, [item], false, [PublishPromise (PublicationItem.topic item)])
        | Fulfilled _ :: acks' =>
            let '(r, sent, d, w) := drain_outcome rest acks' in
            (r, item :: sent, d, w)
        | Rejected :: _ => (q, [item], true, [])
        end
      else
        let '(r, sent, d, w) := drain_outcome rest acks in
        (r, item :: sent, d, w)
  end.

(** A computation [m] leaves the observation [f] of the state as it
    was, however it completes. *)
Definition preserves {B} (f : WampBinding.t -> B) {A} (m : M A) : Prop :=
  forall s, f (m s).2 = f s.

(** A binding that has been constructed, and one that has been
    initialised by the framework. *)
Definition created (o : BindingOptions.t) : WampBinding.t :=
  WampBinding.mk o None [] [] false None [] [] [] [] [].

Definition initialized (o : BindingOptions.t) : WampBinding.t :=
  exec onInit (created o).

(** Clearing the live handle of the items of a registry. *)
Definition invalidate (items : list ref) (st : list SubscriptionItem.t)
  : list SubscriptionItem.t :=
  foldl (fun st r => alter (SubscriptionItem.set_subscription None) r st)
    st items.

(** The [subscribe] call issued for the item at [r], and the two
    testament calls of a join. *)
Definition subscribe_call (st : list SubscriptionItem.t) (r : ref) : SessionCall :=
  Subscribe r
    (default None (SubscriptionItem.topic <$> st !! r))
    (default [] (SubscriptionItem.match_ <$> st !! r)).

Definition testament_calls (s : WampBinding.t) (j : JoinOptions.t)
  : list SessionCall :=
  let unjoin := JoinOptions.unjoinEvent j in
  [ AddTestament (_getTopicFor s unjoin) (EventLike.data unjoin) destroyed;
    AddTestament (_getTopicFor s unjoin) (EventLike.data unjoin) detached ].

Definition is_publish (c : SessionCall) : bool :=
  match c with Publish _ _ _ _ _ => true | _ => false end.

(** Every reference of the registry points into the store. *)
Definition refs_valid (s : WampBinding.t) : Prop :=
  forall r, r ∈ _issuedSubscriptionItems s -> (r < length (store s))%nat.

(** The state in which [onopen] leaves the fields that every join
    writes, apart from those of the drain. *)
Definition opened (s : WampBinding.t) (session : Session.t) : WampBinding.t :=
  set_emitted (emitted s ++ [Online])
    (set_sessionIdLogItem
       (str "[" ++ N_toString (Session.id session) ++ str "] ")
       (set_connection (Some (Connection.mk (Some session) true)) s)).

(** The key of a subscription item, and the keys of the registry, in the
    order of the registry. *)
Definition key : Type := CommunicationEventType * option jsstring * jsstring.

Definition key_of (i : SubscriptionItem.t) : key :=
  (SubscriptionItem.eventType i, SubscriptionItem.topic i,
   SubscriptionItem.match_ i).

Definition keys_in (st : list SubscriptionItem.t) (l : list ref)
  : list (option key) :=
  (fun r => key_of <$> st !! r) <$> l.

Definition keys (s : WampBinding.t) : list (option key) :=
  keys_in (store s) (_issuedSubscriptionItems s).

(** The key under which an event is subscribed. *)
Definition event_key (s : WampBinding.t) (e : EventLike.t) : key :=
  (EventLike.eventType e, (_getTopicFilterFor s e).1, (_getTopicFilterFor s e).2).

(** The desired items of the registry that have key [k]. *)
Definition desired_for (s : WampBinding.t) (k : key) : list ref :=
  filter (fun r => key_of <$> store s !! r = Some k) (_issuedSubscriptionItems s).

(** The invariant of the registry: its references point into the store
    and no two of its items have the same key. *)
Definition registry_inv (s : WampBinding.t) : Prop :=
  refs_valid s /\ NoDup (keys s).

(** What [subscribe] and [unsubscribe] leave alone. *)
Definition registry_view (s : WampBinding.t) :=
  (_issuedSubscriptionItems s, store s, options s, _connection s).

(** ** Auxiliary definitions for topics as URIs and for dispatch *)

(** The strings a pattern matches. *)
Fixpoint matches (r : RegExp.t) (s : jsstring) : Prop :=
  match r with
  | RegExp.Never => False
  | RegExp.Empty => s = []
  | RegExp.Class cls => exists c, s = [c] /\ cls c = true
  | RegExp.Seq r1 r2 =>
      exists s1 s2, s = s1 ++ s2 /\ matches r1 s1 /\ matches r2 s2
  | RegExp.Alt r1 r2 => matches r1 s \/ matches r2 s
  | RegExp.Star r1 => exists ss, s = concat ss /\ Forall (matches r1) ss
  end.

(** A code unit that may occur in a URI component besides the dot that
    separates components: no white space and no [#]. *)
Definition uri_unit (c : N) : Prop := regex_s c = false /\ c <> HASH.

(** A string put together from components that each end in a dot, and a
    last component. *)
Definition dotted (segs : list jsstring) (last : jsstring) : jsstring :=
  concat (map (fun seg => seg ++ [DOT]) segs) ++ last.

(** The text of an event filter: empty when the filter is missing. *)
Definition filter_text (f : option jsstring) : jsstring :=
  if truthy f then tpl f else [].

(** The event component of a topic: the three-letter code of the event
    type and the encoded event filter. *)
Definition event_component (eventType : CommunicationEventType)
    (eventTypeFilter : option jsstring) : jsstring :=
  tpl (_getEventTopicComponentPrefix eventType)
  ++ (if truthy eventTypeFilter
      then _encodeTopicComponent (tpl eventTypeFilter) else []).

(** A dot-separated pattern agrees with a topic when both have the same
    number of components and every component of the pattern is empty or
    is the component of the topic at that place. *)
Definition agrees (pattern topic : jsstring) : Prop :=
  Forall2 (fun p c => p = [] \/ p = c) (split DOT pattern) (split DOT topic).

(** An event kind of the Coaty protocol whose topic is composed by
    [getTopicName]: every kind but [IoValue], whose topic is its route. *)
Definition is_composed_kind (e : CommunicationEventType) : bool :=
  is_event_kind e && negb (bool_decide (e = IoValue)).

(** The private fields of the binding. *)
Definition fields (s : WampBinding.t) :=
  (_joinOptions s, _pendingPublicationItems s, _issuedSubscriptionItems s,
   _isPublishingDeferred s, _connection s, _sessionIdLogItem s).

(** A connection whose session is open although its socket does not
    accept frames any more. *)
Definition socket_closed (s : WampBinding.t) : bool :=
  match _connection s with
  | Some c =>
      match Connection.session c with
      | Some session => Session.isOpen session && negb (Session.socket_open session)
      | None => false
      end
  | None => false
  end.

(** The state in which [onopen] has announced the testaments and issued
    the subscriptions of the registry, before it turns to the join
    events. *)
Definition subscribed (s : WampBinding.t) (j : JoinOptions.t)
    (session : Session.t) : WampBinding.t :=
  set_promises (promises s ++ map SubscribePromise (_issuedSubscriptionItems s))
    (set_calls
       (calls s ++ testament_calls s j
        ++ map (subscribe_call (store s)) (_issuedSubscriptionItems s))
       (opened s session)).

(** [this._connection?.isConnected]. *)
Definition connected (s : WampBinding.t) : bool :=
  match _connection s with
  | Some c => Connection.isConnected c
  | None => false
  end.

(** A name whose components are all non-empty and free of white space
    and [#]. *)
Definition uri_components (name : jsstring) : Prop :=
  Forall (fun seg => seg <> [] /\ Forall uri_unit seg) (split DOT name).

(** What [onSubscribe] and [onUnsubscribe] leave alone: the publication
    queue, its flag, and the connection and join data. *)
Definition queue_view (s : WampBinding.t) :=
  (_pendingPublicationItems s, _isPublishingDeferred s, options s,
   _connection s, _joinOptions s).

(** What no promise callback changes. *)
Definition settled_view (s : WampBinding.t) :=
  (_issuedSubscriptionItems s, options s, _connection s, _joinOptions s).

(** The state that [_reset] leaves behind: the private fields are those
    of a binding that has just been initialised, and [Offline] has been
    emitted. *)
Definition reset_state (s : WampBinding.t) : WampBinding.t :=
  WampBinding.mk (options s) None [] [] true None (str "[---] ")
    (store s) (promises s) (emitted s ++ [Offline]) (calls s).


(** A sequence of notifications in which every notification reports a
    transition: no two adjacent notifications carry the same state. *)
Fixpoint transitions_only (l : list CommunicationState) : bool :=
  match l with
  | a :: l' =>
      match l' with
      | b :: _ => negb (bool_decide (a = b)) && transitions_only l'
      | [] => true
      end
  | [] => true
  end.

(** ** Concrete events and states *)

Module Examples.

Definition opts : BindingOptions.t := BindingOptions.mk (str "my ns") false.

Definition advertise (filter source : string) (payload : string)
    (options : option EventOptions.t) : EventLike.t :=
  EventLike.mk Advertise (Some (str filter)) (str source) None
    (str payload) false options.

Definition acknowledge_options : option EventOptions.t :=
  Some (EventOptions.mk false true None).

Definition A := advertise "A" "agent" "a" None.
Definition B := advertise "B" "agent" "b" None.
Definition C := advertise "C" "agent" "c" None.

(** An event of the application on the topic of [B]. *)
Definition B' := advertise "B" "agent" "other" None.

(** Three events whose publications are acknowledged. *)
Definition T1 := advertise "T1" "agent" "1" acknowledge_options.
Definition T2 := advertise "T2" "agent" "2" acknowledge_options.
Definition T3 := advertise "T3" "agent" "3" acknowledge_options.

Definition unjoin : EventLike.t :=
  EventLike.mk Deadvertise None (str "agent") None (str "bye") false None.

Definition join_options : JoinOptions.t := JoinOptions.mk [A; B; C] unjoin.

Definition session1 : Session.t := Session.mk 1 true true.

(** A subscription to the responses of a query, one to the responses
    of a discovery that carries an event filter, and one to a channel. *)
Definition retrieve : EventLike.t :=
  EventLike.mk Retrieve None (str "agent") (Some (str "corr")) [] false None.
Definition resolve_filtered : EventLike.t :=
  EventLike.mk Resolve (Some (str "f")) (str "agent") (Some (str "corr"))
    [] false None.
Definition channel : EventLike.t :=
  EventLike.mk Channel (Some (str "ch.1")) (str "agent") None [] false None.

(** The binding after [onInit] and [onJoin]; the connection is
    connected and not open yet. *)
Definition joined : WampBinding.t :=
  exec (onJoin join_options true) (initialized opts).

(** Three publications queued while the connection is not open. *)
Definition queued : WampBinding.t :=
  exec (_addPublicationItem T1 false false ;;
        _addPublicationItem T2 false false ;;
        _addPublicationItem T3 false false) (initialized opts).

(** The same with a connection whose session has just been opened by
    the transport. *)
Definition queued_online : WampBinding.t :=
  exec (onJoin join_options true ;;
        _addPublicationItem T1 false false ;;
        _addPublicationItem T2 false false ;;
        _addPublicationItem T3 false false ;;
        transport_session (Some session1)) (initialized opts).

(** The binding after a successful join: the join events have been
    published and the queue is empty. *)
Definition opened_idle : WampBinding.t :=
  exec (transport_open session1) joined.

(** A binding that is online, with the join events published, one
    confirmed subscription with live handle 77, and one publication
    waiting for its acknowledgment. *)
Definition working : WampBinding.t :=
  exec (onJoin join_options true ;;
        transport_open session1 ;;
        _addSubscriptionItem channel ;;
        settle 0 (Fulfilled 77) ;;
        _addPublicationItem T1 false false ;;
        _drainPublications) (initialized opts).




(** The application has published on the topic of [B] before the
    session opens. *)
Definition with_B' : WampBinding.t :=
  exec (_addPublicationItem B' false false) joined.

(** Raw events on a topic of the application, on a topic with an empty
    component and on a topic in the name space of the protocol. *)
Definition raw (topic : string) : EventLike.t :=
  EventLike.mk Raw (Some (str topic)) (str "agent") None (str "r") true None.

Definition raw_sensor := raw "sensors.temperature".
Definition raw_empty_component := raw "sensors..temperature".
Definition raw_coaty := raw "coaty.1.ns.ADVx.agent".

(** An IO value event on the route created for an IO source. *)
Definition io_value (route : jsstring) : EventLike.t :=
  EventLike.mk IoValue (Some route) (str "agent") None (str "v") false None.

(** A discovery with its correlation id, and the subscription to all
    discoveries. *)
Definition discover : EventLike.t :=
  EventLike.mk Discover None (str "agent") (Some (str "corr"))
    (str "d") false None.
Definition discover_all : EventLike.t :=
  EventLike.mk Discover None (str "observer") None [] false None.

(** A session whose socket has been closed under it. *)
Definition stale_session : Session.t := Session.mk 3 true false.

Definition socket_gone : WampBinding.t :=
  exec (transport_session (Some stale_session)) joined.

(** The registry items of a Raw subscription by prefix and of a
    subscription to all discoveries. *)
Definition raw_item : SubscriptionItem.t :=
  SubscriptionItem.mk Raw (Some (str "sensors")) (str "prefix") false None.
Definition discover_item : SubscriptionItem.t :=
  SubscriptionItem.mk Discover
    (Some (str "coaty.1.my" ++ [0; 48; 48] ++ str "ns.DSC.."))
    (str "wildcard") true None.

End Examples.
Example encoding_table :
  WHITESPACE_CHARS_ENCODING !! 7%nat = Some ([5760], str "07")
  /\ length WHITESPACE_CHARS = 25%nat
  /\ Map_get (str "24") WHITESPACE_CHARS_DECODING = Some [65279].
Proof. vm_compute. auto. Qed.

Example prefix_table :
  _getEventTopicComponentPrefix Resolve = Some (str "RSV")
  /\ _getEventTopicComponentPrefix Raw = None
  /\ _getEventType (str "CLL") = Some Call.
Proof. vm_compute. auto. Qed.

Example encode_x_dot_y :
  _encodeTopicComponent (str "x.y") = [120; 0; 0; 0; 121]
  /\ _decodeTopicComponent [120; 0; 0; 0; 121] = str "x.y".
Proof. vm_compute. auto. Qed.

Example topic_name_example :
  getTopicName 1 (str "my ns") Call (Some (str "op.x")) (str "abc") (Some (str "def"))
  = str "coaty.1.my" ++ [0; 48; 48] ++ str "ns.CLLop" ++ [0;0;0] ++ str "x.abc.def".
Proof. vm_compute. reflexivity. Qed.


Example createByName_other_topics :
  createByName (str "sensors.temperature") = Normal None
  /\ createByName (str "coaty.1") = Throw TypeError
  /\ createByName (str "coaty.x.ns.ADVf.src")
     = Normal (Some {| _version := NaN; _namespace := str "ns";
                       _eventType := Some Advertise;
                       _eventTypeFilter := Some (str "f");
                       _sourceId := Some (str "src");
                       _correlationId := None |}).
Proof. vm_compute. auto. Qed.
(** ** Facts about the JavaScript fragment *)

Section Js_facts.

Lemma regex_s_list c : regex_s c = true <-> In c WHITESPACE_CHARS.
Proof.
  unfold regex_s, WHITESPACE_CHARS. split.
  - intros H.
    repeat (apply orb_prop in H as [H | H]);
      try (apply andb_prop in H as [H1 H2];
           apply N.leb_le in H1; apply N.leb_le in H2);
      try apply N.eqb_eq in H; simpl; lia.
  - intros H. simpl in H.
    repeat (destruct H as [H | H]; [subst c; reflexivity |]).
    destruct H.
Qed.

Lemma is_digit_plain c :
  is_digit c = true ->
  c <> NUL /\ c <> DOT /\ c <> HASH /\ regex_s c = false /\ regex_any c = true.
Proof.
  unfold is_digit, NUL, DOT, HASH. intros H.
  apply andb_prop in H as [H1 H2].
  apply N.leb_le in H1. apply N.leb_le in H2.
  repeat split; try lia.
  - destruct (regex_s c) eqn:E; [| reflexivity].
    apply regex_s_list in E. simpl in E. lia.
  - unfold regex_any.
    destruct (N.eqb_spec c 10); [lia |].
    destruct (N.eqb_spec c 13); [lia |].
    destruct (N.eqb_spec c 8232); [lia |].
    destruct (N.eqb_spec c 8233); [lia |]. reflexivity.
Qed.

Lemma split_no_sep sep s : sep ∉ s -> split sep s = [s].
Proof.
  induction s as [| c s IH]; intros H; [reflexivity |].
  apply not_elem_of_cons in H as [Hc Hs]. simpl.
  destruct (N.eqb_spec c sep) as [-> | _]; [congruence |].
  now rewrite (IH Hs).
Qed.

Lemma split_app sep seg rest :
  sep ∉ seg -> split sep (seg ++ sep :: rest) = seg :: split sep rest.
Proof.
  induction seg as [| c seg IH]; intros H; simpl.
  - now rewrite N.eqb_refl.
  - apply not_elem_of_cons in H as [Hc Hs].
    destruct (N.eqb_spec c sep) as [-> | _]; [congruence |].
    now rewrite (IH Hs).
Qed.

Lemma split_app_sep sep seg rest :
  sep ∉ seg -> split sep (seg ++ [sep] ++ rest) = seg :: split sep rest.
Proof. apply split_app. Qed.

Lemma split_nonempty sep s : split sep s <> [].
Proof.
  destruct s as [| c s]; cbn; [discriminate |].
  destruct (c =? sep); [discriminate |].
  destruct (split sep s); discriminate.
Qed.

Lemma split_app_any sep a b :
  split sep (a ++ [sep] ++ b) = split sep a ++ split sep b.
Proof.
  induction a as [| c a IH].
  - cbn. now rewrite N.eqb_refl.
  - change ((c :: a) ++ [sep] ++ b) with (c :: (a ++ [sep] ++ b)).
    cbn [split]. rewrite IH.
    destruct (c =? sep); [reflexivity |].
    pose proof (split_nonempty sep a) as Hne.
    destruct (split sep a); [congruence | reflexivity].
Qed.

Lemma startsWith_app p rest : startsWith (p ++ rest) p = true.
Proof.
  induction p as [| x p IH]; simpl; [reflexivity |].
  now rewrite N.eqb_refl.
Qed.

Lemma uint_units_digits u : Forall (fun c => is_digit c = true) (uint_units u).
Proof. induction u; simpl; constructor; auto. Qed.

Lemma parse_digits_units u : forall acc rest,
  match rest with c :: _ => is_digit c = false | [] => True end ->
  parse_digits acc (uint_units u ++ rest) = uint_value acc u.
Proof.
  induction u; intros acc rest Hr; simpl;
    try (rewrite IHu by assumption; reflexivity).
  destruct rest as [| c rest]; simpl; [reflexivity | now rewrite Hr].
Qed.

Lemma uint_value_pos u : forall p,
  uint_value (Npos p) u = Npos (Pos.of_uint_acc u p).
Proof.
  induction u; intros p; simpl; try reflexivity;
    (etransitivity; [| apply IHu]); f_equal; lia.
Qed.

Lemma uint_value_0 u : uint_value 0 u = N.of_uint u.
Proof.
  induction u; simpl; try reflexivity; try assumption;
    apply uint_value_pos.
Qed.

Lemma N_toString_nonempty n :
  exists c s, N_toString n = c :: s /\ is_digit c = true.
Proof.
  pose proof (uint_units_digits (N.to_uint n)) as F.
  unfold N_toString.
  destruct (uint_units (N.to_uint n)) as [| c s] eqn:E.
  - exfalso.
    assert (N.of_uint (N.to_uint n) = 0) as H0.
    { destruct (N.to_uint n); simpl in E; try discriminate. reflexivity. }
    rewrite DecimalN.Unsigned.of_to in H0. subst n. discriminate E.
  - inversion F; subst. eauto.
Qed.

Lemma parseInt10_toString (z : Z) rest :
  (0 <= z)%Z ->
  match rest with c :: _ => is_digit c = false | [] => True end ->
  parseInt10 (Some (Number_toString z ++ rest)) = Int z.
Proof.
  intros Hz Hr.
  assert (Number_toString z = N_toString (Z.to_N z)) as ->
    by (destruct z; [reflexivity | reflexivity | lia]).
  destruct (N_toString_nonempty (Z.to_N z)) as (c & s & E & Hc).
  unfold parseInt10. simpl tpl.
  pose proof (is_digit_plain c Hc) as (_ & _ & _ & Hws & _).
  assert (c <> 45 /\ c <> 43) as [H45 H43].
  { unfold is_digit in Hc. apply andb_prop in Hc as [H1 H2].
    apply N.leb_le in H1. lia. }
  rewrite E. simpl. rewrite Hws.
  destruct (N.eqb_spec c 45); [congruence |].
  destruct (N.eqb_spec c 43); [congruence |].
  rewrite Hc. f_equal.
  change (c :: s ++ rest) with ((c :: s) ++ rest). rewrite <- E.
  unfold N_toString. rewrite parse_digits_units by assumption.
  rewrite uint_value_0, DecimalN.Unsigned.of_to. lia.
Qed.

End Js_facts.

(** ** The escaping of topic components *)

Section Escaping.

Lemma escapes_ok : forallb escape_ok WHITESPACE_CHARS = true.
Proof. vm_compute. reflexivity. Qed.

Lemma escape_spec c :
  regex_s c = true ->
  exists a b, encode_replacer [c] = [NUL; a; b]
              /\ is_digit a = true /\ is_digit b = true
              /\ decode_replacer [NUL; a; b] [a; b] = [c].
Proof.
  intros H. apply regex_s_list in H.
  pose proof escapes_ok as F. rewrite forallb_forall in F.
  specialize (F c H). unfold escape_ok in F.
  destruct (encode_replacer [c]) as [| z [| a [| b [| ? ?]]]]; try discriminate.
  repeat (apply andb_prop in F as [F ?]).
  apply N.eqb_eq in F. subst z.
  exists a, b. repeat split; auto.
  now apply bool_decide_eq_true in H0.
Qed.

Lemma encode_cons c s :
  _encodeTopicComponent (c :: s)
  = (if (c =? DOT) || regex_s c then encode_replacer [c] else [c])
    ++ _encodeTopicComponent s.
Proof. reflexivity. Qed.

Lemma decode_plain c s :
  c <> NUL -> _decodeTopicComponent (c :: s) = c :: _decodeTopicComponent s.
Proof.
  intros H. unfold _decodeTopicComponent. simpl.
  destruct (N.eqb_spec c NUL); [congruence |].
  destruct s as [| a [| b rest]]; reflexivity.
Qed.

Lemma decode_escape a b s :
  regex_any a = true -> regex_any b = true ->
  _decodeTopicComponent (NUL :: a :: b :: s)
  = decode_replacer [NUL; a; b] [a; b] ++ _decodeTopicComponent s.
Proof.
  intros Ha Hb. unfold _decodeTopicComponent. simpl.
  now rewrite Ha, Hb.
Qed.

Lemma decode_encode s :
  NUL ∉ s -> _decodeTopicComponent (_encodeTopicComponent s) = s.
Proof.
  induction s as [| c s IH]; intros H; [reflexivity |].
  apply not_elem_of_cons in H as [Hc Hs].
  rewrite encode_cons.
  destruct (N.eqb_spec c DOT) as [-> | Hd]; simpl orb.
  - change (encode_replacer [DOT]) with [NUL; NUL; NUL]. simpl app.
    rewrite decode_escape by reflexivity.
    now rewrite IH.
  - destruct (regex_s c) eqn:Hw.
    + destruct (escape_spec c Hw) as (a & b & -> & Ha & Hb & Hdec).
      simpl app.
      apply is_digit_plain in Ha as (_ & _ & _ & _ & Ha).
      apply is_digit_plain in Hb as (_ & _ & _ & _ & Hb).
      rewrite decode_escape by assumption.
      now rewrite Hdec, IH.
    + simpl app. rewrite decode_plain by congruence. now rewrite IH.
Qed.

(** Every code unit of an encoded component is one of: a code unit of
    the input that is neither a dot nor white space, NUL, or a digit. *)
Lemma encode_units s :
  Forall (fun c => (c ∈ s /\ c <> DOT /\ regex_s c = false)
                   \/ c = NUL \/ is_digit c = true)
         (_encodeTopicComponent s).
Proof.
  induction s as [| c s IH]; [constructor |].
  rewrite encode_cons. apply Forall_app. split.
  - destruct (N.eqb_spec c DOT) as [-> | Hd]; simpl orb.
    + change (encode_replacer [DOT]) with [NUL; NUL; NUL]. cbv iota.
      repeat (constructor; [right; left; reflexivity |]).
      constructor.
    + destruct (regex_s c) eqn:Hw.
      * destruct (escape_spec c Hw) as (a & b & -> & Ha & Hb & _).
        constructor; [right; left; reflexivity |].
        constructor; [right; right; exact Ha |].
        constructor; [right; right; exact Hb |].
        constructor.
      * constructor; [| constructor].
        left. split; [apply list_elem_of_here | auto].
  - eapply Forall_impl; [exact IH |]. simpl.
    intros x [(Hx & ?) | ?]; [left | right]; auto.
    split; [now right | auto].
Qed.

Lemma encode_no_dot_ws s :
  Forall (fun c => c <> DOT /\ regex_s c = false) (_encodeTopicComponent s).
Proof.
  eapply Forall_impl; [apply encode_units |]. simpl.
  intros c [(_ & ? & ?) | [-> | Hd]].
  - split; assumption.
  - split; [vm_compute; discriminate | reflexivity].
  - apply is_digit_plain in Hd. tauto.
Qed.

Lemma encode_no_dot s : DOT ∉ _encodeTopicComponent s.
Proof.
  intros H. pose proof (encode_no_dot_ws s) as F.
  rewrite Forall_forall in F. now apply F in H as [].
Qed.

Lemma encode_hash s : HASH ∈ _encodeTopicComponent s <-> HASH ∈ s.
Proof.
  split.
  - intros H. pose proof (encode_units s) as F.
    rewrite Forall_forall in F.
    destruct (F _ H) as [(? & _) | [E | E]];
      [assumption | vm_compute in E; discriminate E ..].
  - induction s as [| c s IH]; intros H; [now apply elem_of_nil in H |].
    rewrite encode_cons. apply elem_of_app.
    apply elem_of_cons in H as [<- | H]; [left | right; auto].
    change ((HASH =? DOT) || regex_s HASH) with false. left.
Qed.

Lemma encode_nonempty s : s <> [] -> _encodeTopicComponent s <> [].
Proof.
  destruct s as [| c s]; [congruence |]. intros _.
  rewrite encode_cons.
  destruct (N.eqb_spec c DOT) as [-> | Hd]; simpl orb; [discriminate |].
  destruct (regex_s c) eqn:Hw; [| discriminate].
  destruct (escape_spec c Hw) as (a & b & -> & _). discriminate.
Qed.

End Escaping.

(** ** Topic names and topic filters *)

Section Topics.

Lemma prefix_spec e :
  is_event_kind e = true ->
  exists a b c,
    _getEventTopicComponentPrefix e = Some [a; b; c]
    /\ (DOT ∉ [a; b; c]) /\ _getEventType [a; b; c] = Some e.
Proof.
  intros H.
  assert (prefix_ok e = true) as Hok
    by (destruct e; try discriminate H; vm_compute; reflexivity).
  unfold prefix_ok in Hok.
  destruct (_getEventTopicComponentPrefix e) as [[| a [| b [| c [| ? ?]]]] |];
    try discriminate Hok.
  repeat (apply andb_prop in Hok as [Hok ?]).
  exists a, b, c. split; [reflexivity |]. split.
  - rewrite !not_elem_of_cons.
    repeat match goal with
           | H : negb (_ =? _) = true |- _ =>
               apply negb_true_iff, N.eqb_neq in H
           end.
    repeat split; try congruence. apply not_elem_of_nil.
  - now apply bool_decide_eq_true in H0.
Qed.

Lemma digits_no_dot s :
  Forall (fun c => is_digit c = true) s -> DOT ∉ s.
Proof.
  intros F H. rewrite Forall_forall in F. apply F in H.
  vm_compute in H. discriminate H.
Qed.

Lemma Number_toString_no_dot z : (0 <= z)%Z -> DOT ∉ Number_toString z.
Proof.
  intros Hz. apply digits_no_dot.
  destruct z; try lia; apply uint_units_digits.
Qed.

Lemma parseEvent_prefix a b c :
  _parseEvent [a; b; c] = (_getEventType [a; b; c], None).
Proof. reflexivity. Qed.

Lemma parseEvent_filter a b c x :
  x <> [] ->
  _parseEvent (a :: b :: c :: x) = (_getEventType [a; b; c], Some x).
Proof.
  intros Hx. unfold _parseEvent.
  rewrite bool_decide_eq_true_2; [reflexivity |].
  destruct x; [congruence | simpl; lia].
Qed.

(** C4: decoding the publication topic of a valid descriptor gives the
    descriptor back: [createByName (getTopicName ...)] returns a topic
    whose version, namespace, event type, event filter, source id and
    correlation id are those that were encoded. *)
Theorem createByName_getTopicName
    version namespace eventType eventTypeFilter sourceId correlationId :
  valid_descriptor version namespace eventType eventTypeFilter
    sourceId correlationId ->
  createByName
    (getTopicName version namespace eventType eventTypeFilter
       sourceId correlationId)
  = Normal (Some {| _version := Int version;
                    _namespace := namespace;
                    _eventType := Some eventType;
                    _eventTypeFilter := eventTypeFilter;
                    _sourceId := Some sourceId;
                    _correlationId := correlationId |}).
Proof.
  intros [[Hv _] Hk Hf Hns Hsrc Hcorr].
  destruct (prefix_spec eventType Hk) as (a & b & c & Hp & Hpd & Hty).
  unfold getTopicName, createByName. rewrite Hp.
  cbv zeta.
  match goal with
  | |- context [if truthy eventTypeFilter then ?u else ?v] =>
      set (event := if truthy eventTypeFilter then u else v)
  end.
  assert (exists x, tpl event = a :: b :: c :: x
                    /\ (DOT ∉ x)
                    /\ _parseEvent (a :: b :: c :: x)
                       = (Some eventType,
                          if truthy eventTypeFilter then Some x else None)
                    /\ (truthy eventTypeFilter = true ->
                        x <> [] /\
                        Some (_decodeTopicComponent x) = eventTypeFilter)
                    /\ (truthy eventTypeFilter = false ->
                        eventTypeFilter = None))
    as (x & Hev & Hxd & Hparse & Hdec & Hnone).
  { subst event. destruct eventTypeFilter as [[| f0 f] |].
    - destruct Hf as [Hf _]. congruence.
    - destruct Hf as [Hne Hnul]. simpl truthy. cbv iota.
      exists (_encodeTopicComponent (f0 :: f)).
      pose proof (encode_nonempty (f0 :: f) Hne) as Hx.
      split; [reflexivity |]. split; [apply encode_no_dot |].
      split; [now rewrite parseEvent_filter, Hty |].
      split; [| discriminate]. intros _. split; [exact Hx |].
      simpl tpl. now rewrite decode_encode.
    - exists []. simpl. split; [reflexivity |].
      split; [apply not_elem_of_nil |].
      split; [now rewrite parseEvent_prefix, Hty |].
      split; [discriminate | reflexivity]. }
  rewrite Hev.
  assert (DOT ∉ PROTOCOL_NAME) as Hproto.
  { intros H. vm_compute in H.
    repeat (apply elem_of_cons in H as [H | H]; [discriminate H |]).
    now apply elem_of_nil in H. }
  assert (DOT ∉ a :: b :: c :: x) as Hevd.
  { rewrite !not_elem_of_cons in Hpd |- *. tauto. }
  pose proof (Number_toString_no_dot version ltac:(lia)) as Hvd.
  pose proof (encode_no_dot namespace) as Hnsd.
  assert (parseInt10 (Some (Number_toString version)) = Int version) as Hpi.
  { rewrite <- (app_nil_r (Number_toString version)).
    apply parseInt10_toString; [lia | exact I]. }
  destruct (_isOneWayEvent eventType); simpl negb; cbv iota.
  - subst correlationId.
    rewrite !split_app_sep by assumption.
    rewrite (split_no_sep DOT sourceId) by assumption.
    simpl lookup. rewrite Hpi, Hparse, (decode_encode namespace Hns).
    destruct (truthy eventTypeFilter) eqn:Ht.
    + destruct (Hdec eq_refl) as [Hx <-].
      destruct x; [congruence |]. reflexivity.
    + rewrite (Hnone eq_refl). reflexivity.
  - destruct Hcorr as (corr & -> & Hcne & Hcd).
    simpl tpl. rewrite <- !app_assoc.
    rewrite !split_app_sep by assumption.
    rewrite (split_no_sep DOT corr) by assumption.
    simpl lookup. rewrite Hpi, Hparse, (decode_encode namespace Hns).
    case_decide; [congruence |].
    destruct (truthy eventTypeFilter) eqn:Ht.
    + destruct (Hdec eq_refl) as [Hx <-].
      destruct x; [congruence |]. reflexivity.
    + rewrite (Hnone eq_refl). reflexivity.
Qed.

End Topics.

(** ** Frame properties of the handlers *)

Section Frames.

Context {B : Type} (f : WampBinding.t -> B).

Lemma preserves_ret {A} (a : A) : preserves f (ret a).
Proof. intros s. reflexivity. Qed.

Lemma preserves_throw {A} e : preserves f (@throw A e).
Proof. intros s. reflexivity. Qed.

Lemma preserves_get : preserves f get.
Proof. intros s. reflexivity. Qed.

Lemma preserves_modify g :
  (forall s, f (g s) = f s) -> preserves f (modify g).
Proof. intros H s. apply H. Qed.

Lemma preserves_bind {A C} (m : M A) (k : A -> M C) :
  preserves f m -> (forall a, preserves f (k a)) -> preserves f (bind m k).
Proof.
  intros Hm Hk s. unfold bind. specialize (Hm s).
  destruct (m s) as [[a | e] s']; cbn in *; [| exact Hm].
  now rewrite Hk.
Qed.

Lemma preserves_try_catch (m h : M unit) :
  preserves f m -> preserves f h -> preserves f (try_catch m h).
Proof.
  intros Hm Hh s. unfold try_catch. specialize (Hm s).
  destruct (m s) as [[a | e] s']; cbn in *; [exact Hm |].
  now rewrite Hh.
Qed.

Lemma preserves_forEach {A} (items : list A) (g : A -> M unit) :
  (forall x, preserves f (g x)) -> preserves f (forEach items g).
Proof.
  intros Hg. induction items as [| x items IH]; cbn.
  - apply preserves_ret.
  - apply preserves_bind; [apply Hg | intros _; exact IH].
Qed.

End Frames.

(** One step of a frame proof, by the shape of the code. *)
Ltac frame_step :=
  lazymatch goal with
  | |- preserves _ (bind _ _) => apply preserves_bind; [| intros ?]
  | |- preserves _ (ret _) => apply preserves_ret
  | |- preserves _ (throw _) => apply preserves_throw
  | |- preserves _ get => apply preserves_get
  | |- preserves _ (modify _) =>
      apply preserves_modify; intros []; reflexivity
  | |- preserves _ (forEach _ _) => apply preserves_forEach; intros ?
  | |- preserves _ (try_catch _ _) => apply preserves_try_catch
  | |- preserves _ (if ?b then _ else _) => destruct b
  | |- preserves _ (match ?x with _ => _ end) => destruct x
  end.

Ltac frame := repeat frame_step.

Section Quiet.

(** No method other than [_resetSession] and the [onopen] handler
    emits a communication state. *)

Lemma quiet_session_call c : preserves emitted (session_call c).
Proof. unfold session_call, send_on. frame. Qed.

Lemma quiet_send_on session c : preserves emitted (send_on session c).
Proof. unfold send_on. frame. Qed.

Lemma quiet_addSessionTestaments session :
  preserves emitted (_addSessionTestaments session).
Proof.
  unfold _addSessionTestaments. frame; apply quiet_send_on.
Qed.

Lemma quiet_subscribe item : preserves emitted (subscribe item).
Proof.
  unfold subscribe, await. frame. apply quiet_session_call.
Qed.

Lemma quiet_unsubscribe item : preserves emitted (unsubscribe item).
Proof.
  unfold unsubscribe, await. frame. apply quiet_session_call.
Qed.

Lemma quiet_addPublicationItem e first once :
  preserves emitted (_addPublicationItem e first once).
Proof. unfold _addPublicationItem. frame. Qed.

Lemma quiet_addJoinEvents es : preserves emitted (addJoinEvents es).
Proof.
  unfold addJoinEvents. frame. apply quiet_addPublicationItem.
Qed.

Lemma quiet_doDrain_rec fuel : preserves emitted (_doDrainPublications_rec fuel).
Proof.
  induction fuel as [| fuel IH]; cbn [_doDrainPublications_rec].
  - apply preserves_ret.
  - unfold _doDrainPublications_body, await. frame;
      try apply quiet_session_call. exact IH.
Qed.

Lemma quiet_doDrain : preserves emitted _doDrainPublications.
Proof. unfold _doDrainPublications. frame. apply quiet_doDrain_rec. Qed.

Lemma quiet_drainPublications : preserves emitted _drainPublications.
Proof. unfold _drainPublications. frame. apply quiet_doDrain. Qed.

Lemma quiet_addSubscriptionItem e : preserves emitted (_addSubscriptionItem e).
Proof.
  unfold _addSubscriptionItem, new_item, _subscribeItems, _unsubscribeItems.
  apply preserves_bind; [apply preserves_get | intros s].
  destruct (_getTopicFilterFor s e) as [topicFilter match_].
  frame; first [apply quiet_subscribe | apply quiet_unsubscribe].
Qed.

Lemma quiet_removeSubscriptionItem e :
  preserves emitted (_removeSubscriptionItem e).
Proof.
  unfold _removeSubscriptionItem, _unsubscribeItems.
  apply preserves_bind; [apply preserves_get | intros s].
  destruct (_getTopicFilterFor s e) as [topicFilter match_].
  frame. apply quiet_unsubscribe.
Qed.

Lemma quiet_settle i o : preserves emitted (settle i o).
Proof.
  unfold settle, publish_then, publish_catch, subscribe_then,
    subscribe_catch, unsubscribe_settled, assign_subscription.
  frame. apply quiet_doDrain.
Qed.

Lemma quiet_transport_session o : preserves emitted (transport_session o).
Proof.
  intros s. unfold transport_session, modify. cbn [snd].
  destruct (_connection s); reflexivity.
Qed.

Lemma quiet_onJoin j : preserves emitted (onJoin j true).
Proof.
  unfold onJoin, connection_open. frame. apply quiet_transport_session.
Qed.

End Quiet.

Create HintDb quiet.

#[global] Hint Resolve quiet_session_call quiet_send_on
  quiet_addSessionTestaments quiet_subscribe quiet_unsubscribe
  quiet_addPublicationItem quiet_addJoinEvents quiet_doDrain
  quiet_drainPublications quiet_addSubscriptionItem
  quiet_removeSubscriptionItem quiet_settle quiet_onJoin : quiet.

(** ** The publication queue *)

Section Queue.

Lemma drained_drained s q c d p q' c' d' p' :
  drained (drained s q c d p) q' c' d' p' = drained s q' c' d' p'.
Proof. reflexivity. Qed.

Lemma drained_id s :
  drained s (_pendingPublicationItems s) (calls s)
    (_isPublishingDeferred s) (promises s) = s.
Proof. destruct s; reflexivity. Qed.

Lemma try_catch_normal (m h : M unit) s s' :
  m s = (Normal tt, s') -> try_catch m h s = (Normal tt, s').
Proof. unfold try_catch. now intros ->. Qed.

Lemma session_call_online c s :
  online s = true ->
  session_call c s = (Normal tt, set_calls (calls s ++ [c]) s).
Proof.
  unfold online, session_call, send_on, bind, get. cbn.
  destruct (_connection s) as [conn |]; [| discriminate].
  destruct (Connection.session conn) as [session |]; [| discriminate].
  now intros ->.
Qed.

Lemma online_isOpen s : online s = true -> connection_isOpen s = true.
Proof.
  unfold online, connection_isOpen, Connection.isOpen.
  destruct (_connection s) as [conn |]; [| discriminate].
  destruct (Connection.session conn) as [session |]; [| discriminate].
  intros H. now apply andb_prop in H as [-> _].
Qed.

(** The method satisfies the recursive definition it has in the
    source. *)
Lemma doDrain_unfold s :
  _doDrainPublications s
  = _doDrainPublications_body _doDrainPublications s.
Proof.
  unfold _doDrainPublications at 1. unfold bind at 1, get at 1.
  cbn [_doDrainPublications_rec].
  unfold _doDrainPublications_body, bind, get.
  destruct (negb (connection_isOpen s)
            || bool_decide (length (_pendingPublicationItems s) = 0%nat));
    [reflexivity |].
  destruct (_pendingPublicationItems s) as [| item rest] eqn:Hq;
    [reflexivity |].
  cbn [lookup list_lookup].
  destruct (session_call _ s) as [[[] | e] s1] eqn:Hc; [| reflexivity].
  destruct (option_flag _ EventOptions.acknowledge); [reflexivity |].
  unfold modify, _doDrainPublications, bind, get.
  assert (_pendingPublicationItems s1 = item :: rest) as ->.
  { unfold session_call, send_on, bind, get, modify, throw in Hc.
    destruct (_connection s) as [conn |]; [| discriminate Hc].
    destruct (Connection.session conn) as [session |]; [| discriminate Hc].
    destruct (Session.isOpen session && Session.socket_open session);
      [| discriminate Hc].
    injection Hc as <-. destruct s; exact Hq. }
  destruct s1; reflexivity.
Qed.

Lemma doDrain_empty s :
  _pendingPublicationItems s = [] ->
  _doDrainPublications s = (Normal tt, set_isPublishingDeferred true s).
Proof.
  intros Hq. rewrite doDrain_unfold.
  unfold _doDrainPublications_body, bind, get. rewrite Hq. cbn.
  now rewrite orb_true_r.
Qed.

Lemma doDrain_offline s :
  connection_isOpen s = false ->
  _doDrainPublications s = (Normal tt, set_isPublishingDeferred true s).
Proof.
  intros Hc. rewrite doDrain_unfold.
  unfold _doDrainPublications_body, bind, get. now rewrite Hc.
Qed.

Lemma doDrain_head s item rest :
  online s = true ->
  _pendingPublicationItems s = item :: rest ->
  _doDrainPublications s
  = if acknowledged item
    then (Normal tt,
          set_promises (promises s ++ [PublishPromise (PublicationItem.topic item)])
            (set_calls (calls s ++ [publish_call item]) s))
    else _doDrainPublications
           (set_pendingPublicationItems rest
              (set_calls (calls s ++ [publish_call item]) s)).
Proof.
  intros Ho Hq. rewrite doDrain_unfold.
  unfold _doDrainPublications_body at 1. unfold bind at 1, get at 1.
  rewrite (online_isOpen s Ho), Hq. cbn [negb orb length].
  rewrite bool_decide_eq_false_2 by lia.
  cbn [lookup list_lookup]. unfold bind at 1.
  rewrite (session_call_online _ s Ho).
  fold (acknowledged item). fold (publish_call item).
  destruct (acknowledged item); [reflexivity |].
  unfold bind, modify. destruct s; cbn in *. now rewrite Hq.
Qed.

Lemma pending_publish_snoc (l : list Promise) t :
  list_find (fun p => is_publish_promise p = true) l = None ->
  fst <$> list_find (fun p => is_publish_promise p = true)
            (l ++ [PublishPromise t])
  = Some (length l).
Proof.
  intros H. rewrite list_find_app_r by exact H. reflexivity.
Qed.

Lemma pending_publish_None s :
  pending_publish s = None ->
  list_find (fun p => is_publish_promise p = true) (promises s) = None.
Proof.
  unfold pending_publish.
  destruct (list_find _ (promises s)); [discriminate | reflexivity].
Qed.

Lemma delete_snoc {A} (l : list A) x : delete (length l) (l ++ [x]) = l.
Proof. induction l; cbn; [reflexivity | now f_equal]. Qed.

Lemma acknowledge_idle acks s :
  pending_publish s = None ->
  acknowledge_publications acks s = (Normal tt, s).
Proof.
  intros H. destruct acks; [reflexivity |].
  cbn. unfold bind, get. now rewrite H.
Qed.

(** A drain followed by the acknowledgments of the router. *)
Lemma drain_run q : forall acks s,
  online s = true ->
  _pendingPublicationItems s = q ->
  _isPublishingDeferred s = false ->
  pending_publish s = None ->
  (_doDrainPublications ;; acknowledge_publications acks) s
  = let '(r, sent, d, w) := drain_outcome q acks in
    (Normal tt,
     drained s r (calls s ++ map publish_call sent) d (promises s ++ w)).
Proof.
  induction q as [| item rest IH]; intros acks s Ho Hq Hd Hp.
  - unfold bind. rewrite (doDrain_empty s Hq).
    rewrite acknowledge_idle by (destruct s; exact Hp).
    cbn [drain_outcome map]. rewrite !app_nil_r.
    destruct s; cbn in *; subst; reflexivity.
  - unfold bind at 1. rewrite (doDrain_head s item rest Ho Hq).
    cbn [drain_outcome]. destruct (acknowledged item) eqn:Ha.
    + destruct acks as [| [v |] acks'].
      * cbn. destruct s; cbn in *; subst; reflexivity.
      * cbn [acknowledge_publications]. unfold bind at 1, get at 1.
        unfold pending_publish. cbn [promises set_promises].
        rewrite pending_publish_snoc by (now apply pending_publish_None).
        unfold bind at 1, settle at 1, bind at 1, get at 1.
        cbn [promises set_promises].
        rewrite lookup_app_r, Nat.sub_diag by lia. cbn [lookup list_lookup].
        unfold bind at 1, modify at 1. rewrite delete_snoc.
        unfold publish_then.
        set (s1 := set_promises (promises s) _).
        set (s2 := set_pendingPublicationItems rest s1).
        assert (online s2 = true) as Ho2 by (destruct s; exact Ho).
        assert (_pendingPublicationItems s2 = rest) as Hq2 by reflexivity.
        assert (_isPublishingDeferred s2 = false) as Hd2
          by (destruct s; exact Hd).
        assert (pending_publish s2 = None) as Hp2 by (destruct s; exact Hp).
        specialize (IH acks' s2 Ho2 Hq2 Hd2 Hp2).
        destruct (drain_outcome rest acks') as [[[r sent] d] w].
        unfold bind at 1 in IH.
        destruct (_doDrainPublications s2) as [[[] | e] s3] eqn:Hrun;
          [| discriminate IH].
        rewrite (try_catch_normal _ _ s1 s3).
        2:{ unfold bind, modify.
            replace (set_pendingPublicationItems
                       (tail (_pendingPublicationItems s1)) s1) with s2
              by (subst s2 s1; destruct s; cbn in *; now rewrite Hq).
            exact Hrun. }
        rewrite IH. f_equal.
        subst s2 s1. destruct s; cbn in *. now rewrite <- app_assoc.
      * cbn [acknowledge_publications]. unfold bind at 1, get at 1.
        unfold pending_publish. cbn [promises set_promises].
        rewrite pending_publish_snoc by (now apply pending_publish_None).
        unfold bind at 1, settle at 1, bind at 1, get at 1.
        cbn [promises set_promises].
        rewrite lookup_app_r, Nat.sub_diag by lia. cbn [lookup list_lookup].
        unfold bind at 1, modify at 1. rewrite delete_snoc.
        unfold publish_catch, modify.
        rewrite acknowledge_idle by (destruct s; exact Hp).
        cbn [map]. rewrite app_nil_r.
        destruct s; cbn in *; subst; reflexivity.
    + set (s2 := set_pendingPublicationItems rest _).
      assert (online s2 = true) as Ho2 by (destruct s; exact Ho).
      assert (_pendingPublicationItems s2 = rest) as Hq2 by reflexivity.
      assert (_isPublishingDeferred s2 = false) as Hd2
        by (destruct s; exact Hd).
      assert (pending_publish s2 = None) as Hp2 by (destruct s; exact Hp).
      specialize (IH acks s2 Ho2 Hq2 Hd2 Hp2).
      destruct (drain_outcome rest acks) as [[[r sent] d] w].
      unfold bind at 1 in IH. rewrite IH. f_equal.
      subst s2. destruct s; cbn in *. now rewrite <- app_assoc.
Qed.

(** Outcomes of a drain for the two shapes of answers that matter. *)
Lemma drain_outcome_fulfilled q : forall vs,
  (length (filter (fun i => acknowledged i = true) q) <= length vs)%nat ->
  drain_outcome q (Fulfilled <$> vs) = ([], q, true, []).
Proof.
  induction q as [| item rest IH]; intros vs Hlen; [reflexivity |].
  cbn [drain_outcome]. rewrite filter_cons in Hlen.
  destruct (acknowledged item) eqn:Ha.
  - rewrite decide_True in Hlen by reflexivity.
    destruct vs as [| v vs]; cbn in Hlen; [lia |].
    cbn [fmap list_fmap]. rewrite IH by lia. reflexivity.
  - rewrite decide_False in Hlen by discriminate.
    rewrite IH by exact Hlen. reflexivity.
Qed.

Lemma drain_outcome_rejected pre x post : forall vs acks,
  acknowledged x = true ->
  length vs = length (filter (fun i => acknowledged i = true) pre) ->
  drain_outcome (pre ++ x :: post) ((Fulfilled <$> vs) ++ Rejected :: acks)
  = (x :: post, pre ++ [x], true, []).
Proof.
  induction pre as [| item pre IH]; intros vs acks Hx Hlen.
  - destruct vs; [| discriminate Hlen]. cbn. now rewrite Hx.
  - cbn [app drain_outcome]. rewrite filter_cons in Hlen.
    destruct (acknowledged item) eqn:Ha.
    + rewrite decide_True in Hlen by reflexivity.
      destruct vs as [| v vs]; [discriminate Hlen |].
      cbn [fmap list_fmap app]. cbn in Hlen.
      rewrite IH by (assumption || lia). reflexivity.
    + rewrite decide_False in Hlen by discriminate.
      rewrite IH by assumption. reflexivity.
Qed.

(** Draining from the armed state. *)
Lemma drainPublications_run acks s :
  online s = true ->
  _isPublishingDeferred s = true ->
  pending_publish s = None ->
  (_drainPublications ;; acknowledge_publications acks) s
  = let '(r, sent, d, w) := drain_outcome (_pendingPublicationItems s) acks in
    (Normal tt,
     drained s r (calls s ++ map publish_call sent) d (promises s ++ w)).
Proof.
  intros Ho Hd Hp.
  pose proof (drain_run (_pendingPublicationItems s) acks
                (set_isPublishingDeferred false s)) as H.
  destruct (drain_outcome (_pendingPublicationItems s) acks)
    as [[[r sent] d] w].
  unfold _drainPublications. unfold bind at 1, bind at 1, get at 1.
  rewrite Hd. cbn [negb]. unfold bind at 1, modify at 1.
  unfold bind at 1 in H. rewrite H.
  - destruct s; reflexivity.
  - destruct s; exact Ho.
  - destruct s; reflexivity.
  - destruct s; reflexivity.
  - destruct s; exact Hp.
Qed.

(** Adding to the queue. *)
Lemma queued_topic t q :
  existsb (fun i => bool_decide (PublicationItem.topic i = t)) q = true
  <-> t ∈ map PublicationItem.topic q.
Proof.
  rewrite existsb_exists, list_elem_of_In, in_map_iff.
  split; intros (i & H1 & H2); exists i.
  - apply bool_decide_eq_true in H2. now split.
  - split; [assumption | now apply bool_decide_eq_true].
Qed.

Lemma addPublicationItem_back e s :
  _addPublicationItem e false false s
  = (Normal tt,
     set_pendingPublicationItems (_pendingPublicationItems s ++ [item_of s e]) s).
Proof. reflexivity. Qed.

Lemma addPublicationItem_queued e first s :
  _getTopicFor s e ∈ map PublicationItem.topic (_pendingPublicationItems s) ->
  _addPublicationItem e first true s = (Normal tt, s).
Proof.
  intros H. apply queued_topic in H.
  unfold _addPublicationItem, bind, get. cbn [andb]. now rewrite H.
Qed.

Lemma addPublicationItem_front e s :
  _getTopicFor s e ∉ map PublicationItem.topic (_pendingPublicationItems s) ->
  _addPublicationItem e true true s
  = (Normal tt,
     set_pendingPublicationItems (item_of s e :: _pendingPublicationItems s) s).
Proof.
  intros H. unfold _addPublicationItem, bind, get. cbn [andb].
  destruct (existsb _ _) eqn:E; [| reflexivity].
  now apply queued_topic in E.
Qed.

Lemma forEach_app {A} (l1 l2 : list A) (g : A -> M unit) s :
  forEach (l1 ++ l2) g s = (forEach l1 g ;; forEach l2 g) s.
Proof.
  revert s. induction l1 as [| x l1 IH]; intros s; cbn.
  - reflexivity.
  - unfold bind. destruct (g x s) as [[[] | e] s']; [apply IH | reflexivity].
Qed.

Lemma forEach_back es : forall s,
  forEach es (fun e => _addPublicationItem e false false) s
  = (Normal tt,
     set_pendingPublicationItems
       (_pendingPublicationItems s ++ map (item_of s) es) s).
Proof.
  induction es as [| e es IH]; intros s; cbn [forEach map].
  - rewrite app_nil_r. destruct s; reflexivity.
  - unfold bind. rewrite addPublicationItem_back, IH.
    destruct s; cbn. now rewrite <- app_assoc.
Qed.

Lemma addJoinEvents_fresh es : forall s,
  NoDup (map (_getTopicFor s) es) ->
  (forall e, e ∈ es ->
     _getTopicFor s e ∉ map PublicationItem.topic (_pendingPublicationItems s)) ->
  addJoinEvents es s
  = (Normal tt,
     set_pendingPublicationItems
       (map (item_of s) es ++ _pendingPublicationItems s) s).
Proof.
  unfold addJoinEvents.
  induction es as [| e es IH]; intros s Hnd Hfresh.
  - destruct s; reflexivity.
  - cbn [rev map] in *. apply NoDup_cons in Hnd as [Hne Hnd].
    rewrite forEach_app. unfold bind at 1.
    rewrite IH by (auto using list_elem_of_further). cbn [forEach].
    unfold bind. rewrite addPublicationItem_front.
    + destruct s; reflexivity.
    + replace (_getTopicFor _ e) with (_getTopicFor s e)
        by (destruct s; reflexivity).
      replace (_pendingPublicationItems _)
        with (map (item_of s) es ++ _pendingPublicationItems s)
        by (destruct s; reflexivity).
      rewrite map_app, not_elem_of_app. split.
      * rewrite map_map. exact Hne.
      * apply Hfresh, list_elem_of_here.
Qed.

Lemma addJoinEvents_queued es : forall s,
  (forall e, e ∈ es ->
     _getTopicFor s e ∈ map PublicationItem.topic (_pendingPublicationItems s)) ->
  addJoinEvents es s = (Normal tt, s).
Proof.
  unfold addJoinEvents. intros s H.
  assert (forall e, e ∈ rev es ->
            _getTopicFor s e
            ∈ map PublicationItem.topic (_pendingPublicationItems s)) as H'.
  { intros e He. apply H. apply list_elem_of_In in He.
    apply list_elem_of_In. now apply in_rev. }
  clear H. induction (rev es) as [| e l IH]; [reflexivity |].
  cbn [forEach]. unfold bind.
  rewrite addPublicationItem_queued by apply H', list_elem_of_here.
  apply IH. intros e' He'. now apply H', list_elem_of_further.
Qed.

(** The join events of a join, when the queue starts with the join
    events that an earlier join left unpublished. *)
Lemma addJoinEvents_leftover es n rest s :
  NoDup (map (_getTopicFor s) es) ->
  _pendingPublicationItems s = map (item_of s) (drop n es) ++ rest ->
  (forall e, e ∈ es -> _getTopicFor s e ∉ map PublicationItem.topic rest) ->
  addJoinEvents es s
  = (Normal tt,
     set_pendingPublicationItems (map (item_of s) es ++ rest) s).
Proof.
  intros Hnd Hq Hfresh.
  assert (addJoinEvents es s
          = (addJoinEvents (drop n es) ;; addJoinEvents (take n es)) s) as ->.
  { unfold addJoinEvents. rewrite <- forEach_app, <- rev_app_distr.
    now rewrite take_drop. }
  unfold bind. rewrite addJoinEvents_queued.
  2:{ intros e He. rewrite Hq, map_app, elem_of_app. left.
      rewrite map_map. cbn.
      apply list_elem_of_In, in_map_iff. exists e.
      split; [reflexivity | now apply list_elem_of_In]. }
  rewrite <- (take_drop n es) in Hnd. rewrite map_app in Hnd.
  apply NoDup_app in Hnd as (Hnd1 & Hdisj & _).
  rewrite addJoinEvents_fresh; [| exact Hnd1 |].
  - rewrite Hq, app_assoc, <- map_app, take_drop. reflexivity.
  - intros e He. rewrite Hq, map_app, not_elem_of_app. split.
    + rewrite map_map. cbn. apply Hdisj.
      apply list_elem_of_In, in_map_iff. exists e.
      split; [reflexivity | now apply list_elem_of_In].
    + apply Hfresh. apply elem_of_take in He as (i & Hi & _).
      eapply list_elem_of_lookup_2. exact Hi.
Qed.

End Queue.

(** ** Session lifecycle *)

Section Lifecycle.

Lemma bind_normal {A C} (m : M A) (k : A -> M C) s a s' :
  m s = (Normal a, s') -> bind m k s = k a s'.
Proof. unfold bind. now intros ->. Qed.

Lemma forEach_invalidate items : forall s,
  forEach items (fun i => assign_subscription i None) s
  = (Normal tt, set_store (invalidate items (store s)) s).
Proof.
  induction items as [| r items IH]; intros s; cbn.
  - destruct s; reflexivity.
  - unfold bind, assign_subscription at 1, modify. rewrite IH.
    destruct s; reflexivity.
Qed.

Lemma resetSession_eq s :
  _resetSession s
  = (Normal tt,
     set_emitted (emitted s ++ [Offline])
       (set_store (invalidate (_issuedSubscriptionItems s) (store s))
          (set_sessionIdLogItem (str "[---] ") s))).
Proof.
  unfold _resetSession, bind, modify, get.
  rewrite forEach_invalidate. destruct s; reflexivity.
Qed.

Lemma reset_eq s :
  _reset s
  = (Normal tt,
     WampBinding.mk (options s) None [] [] true None (str "[---] ")
       (store s) (promises s) (emitted s ++ [Offline]) (calls s)).
Proof.
  unfold _reset, bind, modify. rewrite resetSession_eq.
  destruct s; reflexivity.
Qed.




Lemma send_on_open session c s :
  Session.isOpen session = true -> Session.socket_open session = true ->
  send_on session c s = (Normal tt, set_calls (calls s ++ [c]) s).
Proof. unfold send_on. now intros -> ->. Qed.

Lemma addSessionTestaments_open session s j :
  _joinOptions s = Some j ->
  Session.isOpen session = true -> Session.socket_open session = true ->
  _addSessionTestaments session s
  = (Normal tt, set_calls (calls s ++ testament_calls s j) s).
Proof.
  intros Hj Ho Hs. unfold _addSessionTestaments, bind, get.
  rewrite Hj, !send_on_open by assumption.
  destruct s; cbn. now rewrite <- app_assoc.
Qed.

Lemma subscribeItems_online items : forall s,
  online s = true ->
  (forall r, r ∈ items -> (r < length (store s))%nat) ->
  _subscribeItems items s
  = (Normal tt,
     set_promises (promises s ++ map SubscribePromise items)
       (set_calls (calls s ++ map (subscribe_call (store s)) items) s)).
Proof.
  unfold _subscribeItems.
  induction items as [| r items IH]; intros s Ho Hv; cbn.
  - rewrite !app_nil_r. destruct s; reflexivity.
  - unfold bind at 1, subscribe at 1, bind at 1, get at 1.
    rewrite (online_isOpen s Ho). unfold deref.
    match goal with
    | |- context [match ?x with Some _ => _ | None => _ end] =>
        destruct x as [i |] eqn:Hi
    end.
    2:{ apply lookup_ge_None in Hi.
        specialize (Hv r (list_elem_of_here _ _)). lia. }
    unfold bind at 1.
    rewrite (session_call_online _ s Ho). unfold await, modify.
    rewrite IH.
    + assert (subscribe_call (store s) r
              = Subscribe r (SubscriptionItem.topic i) (SubscriptionItem.match_ i))
        as Hsc by (unfold subscribe_call; now rewrite Hi).
      cbn [map]. rewrite Hsc.
      destruct s; cbn. now rewrite <- !app_assoc.
    + destruct s; exact Ho.
    + intros r' Hr'. destruct s; cbn.
      now apply Hv, list_elem_of_further.
Qed.

Lemma addPublicationItem_eq e first once s :
  exists q,
    _addPublicationItem e first once s
    = (Normal tt, set_pendingPublicationItems q s)
    /\ exists front, q = front ++ _pendingPublicationItems s
                     \/ (first = false /\ q = _pendingPublicationItems s ++ front).
Proof.
  unfold _addPublicationItem, bind, get.
  destruct (once && existsb _ _).
  - exists (_pendingPublicationItems s). split; [destruct s; reflexivity |].
    exists []. now left.
  - destruct first; eexists; (split; [reflexivity |]).
    + eexists [_]. left. reflexivity.
    + eexists. right. split; reflexivity.
Qed.

Lemma addJoinEvents_eq es s :
  exists front,
    addJoinEvents es s
    = (Normal tt,
       set_pendingPublicationItems (front ++ _pendingPublicationItems s) s).
Proof.
  unfold addJoinEvents. generalize (rev es) as l. intros l. revert s.
  induction l as [| e l IH]; intros s; cbn.
  - exists []. destruct s; reflexivity.
  - destruct (addPublicationItem_eq e true true s)
      as (q & Hq & front & [-> | [? _]]); [| discriminate].
    unfold bind. rewrite Hq.
    destruct (IH (set_pendingPublicationItems
                    (front ++ _pendingPublicationItems s) s))
      as (front' & ->).
    exists (front' ++ front). cbn. rewrite <- app_assoc.
    destruct s; reflexivity.
Qed.

Lemma doDrain_online_rec q : forall s,
  online s = true -> _pendingPublicationItems s = q ->
  exists r sent d p,
    _doDrainPublications s
    = (Normal tt, drained s r (calls s ++ map publish_call sent) d p).
Proof.
  induction q as [| item rest IH]; intros s Ho Hq.
  - rewrite (doDrain_empty s Hq).
    exists [], [], true, (promises s). cbn. rewrite app_nil_r.
    destruct s; cbn in *; subst; reflexivity.
  - rewrite (doDrain_head s item rest Ho Hq).
    destruct (acknowledged item).
    + exists (item :: rest), [item], (_isPublishingDeferred s),
        (promises s ++ [PublishPromise (PublicationItem.topic item)]).
      destruct s; cbn in *; subst; reflexivity.
    + destruct (IH (set_pendingPublicationItems rest
                      (set_calls (calls s ++ [publish_call item]) s)))
        as (r & sent & d & p & ->);
        [destruct s; exact Ho | reflexivity |].
      exists r, (item :: sent), d, p.
      destruct s; cbn. now rewrite <- app_assoc.
Qed.

Lemma drainPublications_online s :
  online s = true ->
  exists r sent d p,
    _drainPublications s
    = (Normal tt, drained s r (calls s ++ map publish_call sent) d p).
Proof.
  intros Ho. unfold _drainPublications, bind, get, modify.
  destruct (_isPublishingDeferred s) eqn:Hd; cbn [negb].
  - destruct (doDrain_online_rec (_pendingPublicationItems s)
                (set_isPublishingDeferred false s))
      as (r & sent & d & p & ->);
      [destruct s; exact Ho | destruct s; reflexivity |].
    exists r, sent, d, p. destruct s; reflexivity.
  - exists (_pendingPublicationItems s), [], false, (promises s).
    cbn. rewrite app_nil_r. destruct s; cbn in *; subst; reflexivity.
Qed.

(** A join that succeeds: the state after the transport has opened a
    session and [onopen] has run. *)
Lemma transport_open_success s c j session :
  _connection s = Some c ->
  _joinOptions s = Some j ->
  Session.isOpen session = true ->
  Session.socket_open session = true ->
  refs_valid s ->
  exists q sent d p,
    transport_open session s
    = (Normal tt,
       drained (opened s session) q
         (calls s ++ testament_calls s j
          ++ map (subscribe_call (store s)) (_issuedSubscriptionItems s)
          ++ map publish_call sent)
         d p).
Proof.
  intros Hc Hj Ho Hso Hv.
  unfold transport_open, transport_session, connection_onopen.
  unfold bind at 1, modify at 1. rewrite Hc.
  set (s0 := set_connection _ s).
  assert (online s0 = true) as Ho0.
  { subst s0. destruct s; unfold online; cbn. now rewrite Ho, Hso. }
  set (body := bind _ _).
  enough (exists q sent d p,
             body s0 = (Normal tt,
               drained (opened s session) q
                 (calls s ++ testament_calls s j
                  ++ map (subscribe_call (store s)) (_issuedSubscriptionItems s)
                  ++ map publish_call sent) d p))
    as (q & sent & d & p & Hb).
  { exists q, sent, d, p. unfold try_catch. now rewrite Hb. }
  subst body.
  unfold bind at 1, modify at 1.
  set (s1 := set_sessionIdLogItem _ s0).
  unfold bind at 1, get at 1.
  assert (_connection s1 = Some (Connection.mk (Some session) true)) as ->
    by (subst s1 s0; destruct s; reflexivity).
  unfold bind at 1, ret at 1.
  unfold bind at 1, emit_communicationState at 1, modify at 1.
  set (s2 := set_emitted _ s1).
  assert (s2 = opened s session) as Hs2
    by (subst s2 s1 s0; destruct s; reflexivity).
  clearbody s2. subst s2. clear s1.
  assert (online (opened s session) = true) as Ho2
    by (destruct s; exact Ho0).
  unfold bind at 1.
  rewrite (addSessionTestaments_open session (opened s session) j)
    by (assumption || (destruct s; exact Hj)).
  set (s3 := set_calls _ _).
  assert (online s3 = true) as Ho3 by (destruct s; exact Ho2).
  assert (forall r, r ∈ _issuedSubscriptionItems s3 ->
                    (r < length (store s3))%nat) as Hv3
    by (destruct s; exact Hv).
  unfold bind at 1, get at 1. unfold bind at 1.
  rewrite (subscribeItems_online _ s3 Ho3 Hv3).
  set (s4 := set_promises _ _).
  unfold bind at 1, get at 1.
  assert (_joinOptions s4 = Some j) as -> by (destruct s; exact Hj).
  unfold bind at 1.
  destruct (addJoinEvents_eq (JoinOptions.joinEvents j) s4) as (front & ->).
  set (s5 := set_pendingPublicationItems _ s4).
  assert (online s5 = true) as Ho5 by (destruct s; exact Ho3).
  destruct (drainPublications_online s5 Ho5) as (q & sent & d & p & ->).
  exists q, sent, d, p. f_equal.
  subst s5 s4 s3. destruct s; cbn.
  unfold drained, opened, testament_calls; cbn.
  now rewrite <- !app_assoc.
Qed.

(** Whatever happens while [onopen] runs, it emits [Online] at most
    once, followed by [Offline] when the open sequence is abandoned. *)
Lemma onopen_emitted_cases session s :
  let e' := emitted (exec (connection_onopen session) s) in
  e' = emitted s ++ [Online]
  \/ e' = emitted s ++ [Online; Offline]
  \/ e' = emitted s ++ [Offline].
Proof.
  intros e'. subst e'. unfold exec.
  destruct (connection_onopen session s) as [c0 sf] eqn:Hrun. cbn [snd].
  revert Hrun. unfold connection_onopen, try_catch.
  unfold bind at 1, modify at 1.
  set (s1 := set_sessionIdLogItem _ s).
  assert (emitted s1 = emitted s) as He1 by (destruct s; reflexivity).
  unfold bind at 1, get at 1.
  destruct (_connection s1) as [c |].
  - unfold bind at 1, ret at 1.
    unfold bind at 1, emit_communicationState at 1, modify at 1.
    set (s2 := set_emitted _ s1).
    assert (emitted s2 = emitted s ++ [Online]) as He2
      by (subst s2; destruct s1; cbn in *; now rewrite He1).
    set (rest := bind _ _).
    assert (preserves emitted rest) as Hq.
    { subst rest.
      apply preserves_bind; [apply quiet_addSessionTestaments | intros _].
      apply preserves_bind; [apply preserves_get | intros s3].
      apply preserves_bind.
      { unfold _subscribeItems. apply preserves_forEach.
        intros r. apply quiet_subscribe. }
      intros _. apply preserves_bind; [apply preserves_get | intros s4].
      apply preserves_bind.
      { destruct (_joinOptions s4);
          [apply quiet_addJoinEvents | apply preserves_throw]. }
      intros _. apply quiet_drainPublications. }
    specialize (Hq s2).
    destruct (rest s2) as [[[] | err] s3]; cbn [fst snd] in Hq |- *.
    + intros [= <- <-]. left. now rewrite Hq.
    + rewrite reset_eq. intros [= <- <-]. right. left.
      cbn. rewrite Hq, He2. now rewrite <- app_assoc.
  - unfold bind at 1, throw at 1. rewrite reset_eq.
    intros [= <- <-]. right. right. cbn [emitted]. now f_equal.
Qed.

Lemma onclose_emitted reason s :
  (connection_onclose reason s).1 = Normal tt
  /\ emitted (exec (connection_onclose reason) s) = emitted s ++ [Offline].
Proof.
  unfold exec.
  destruct reason; cbn [connection_onclose];
    rewrite ?reset_eq, ?resetSession_eq; split; try reflexivity;
    destruct s; reflexivity.
Qed.


(** After a close with reason [unreachable] the binding has dropped
    its connection, so the [onopen] of a later successful retry of the
    transport is abandoned before it emits [Online]. *)
Remark open_after_unreachable s session :
  let s1 := exec (transport_close unreachable) s in
  _connection s1 = None
  /\ _pendingPublicationItems s1 = []
  /\ _issuedSubscriptionItems s1 = []
  /\ emitted (exec (transport_open session) s1)
     = emitted s ++ [Offline; Offline].
Proof.
  assert (transport_close unreachable s
          = (Normal tt,
             WampBinding.mk (options s) None [] [] true None (str "[---] ")
               (store s) (promises s) (emitted s ++ [Offline]) (calls s)))
    as Hclose.
  { unfold transport_close, transport_session, bind.
    cbn [connection_onclose]. now rewrite reset_eq. }
  intros s1. subst s1. unfold exec. rewrite Hclose. cbn [snd].
  set (s1 := WampBinding.mk _ _ _ _ _ _ _ _ _ _ _).
  repeat split.
  assert (transport_open session s1 = _reset (set_sessionIdLogItem
            (str "[" ++ N_toString (Session.id session) ++ str "] ") s1))
    as -> by reflexivity.
  rewrite reset_eq. subst s1. cbn [emitted set_sessionIdLogItem snd].
  now rewrite <- app_assoc.
Qed.

End Lifecycle.

(** ** The subscription registry *)

Section Registry.

Lemma registry_subscribeItems items :
  preserves registry_view (_subscribeItems items).
Proof.
  unfold _subscribeItems, subscribe, session_call, send_on, await. frame.
Qed.

Lemma registry_unsubscribeItems items :
  preserves registry_view (_unsubscribeItems items).
Proof.
  unfold _unsubscribeItems, unsubscribe, session_call, send_on, await. frame.
Qed.

Lemma predicate_key s ty topic m r :
  _subscriptionItemPredicate s ty topic m r
  <-> key_of <$> store s !! r = Some (ty, topic, m).
Proof.
  unfold _subscriptionItemPredicate, deref, key_of.
  destruct (store s !! r) as [i |]; cbn; [| easy].
  split.
  - now intros (-> & -> & ->).
  - intros [= -> -> ->]. auto.
Qed.

Lemma keys_in_app st x l :
  (forall r, r ∈ l -> (r < length st)%nat) ->
  keys_in (st ++ x) l = keys_in st l.
Proof.
  intros Hv. unfold keys_in. apply list_fmap_ext.
  intros i r Hr. rewrite lookup_app_l; [reflexivity |].
  apply Hv. eapply list_elem_of_lookup_2. exact Hr.
Qed.

Lemma filter_none {A} (P : A -> Prop) `{forall x, Decision (P x)} (l : list A) :
  (forall x, x ∈ l -> ~ P x) -> filter P l = [].
Proof.
  induction l as [| y l IH]; intros Hn; [reflexivity |].
  rewrite filter_cons_False by apply Hn, list_elem_of_here.
  apply IH. intros x Hx. now apply Hn, list_elem_of_further.
Qed.

Lemma desired_unique st l k r :
  NoDup (keys_in st l) -> r ∈ l -> key_of <$> st !! r = Some k ->
  filter (fun r => key_of <$> st !! r = Some k) l = [r].
Proof.
  induction l as [| x l IH]; intros Hnd Hr Hk; [now apply elem_of_nil in Hr |].
  cbn in Hnd. apply NoDup_cons in Hnd as [Hx Hnd].
  apply elem_of_cons in Hr as [<- | Hr].
  - rewrite filter_cons_True by exact Hk. f_equal.
    apply filter_none. intros y Hy Hyk. apply Hx.
    rewrite Hk, <- Hyk. fold (keys_in st l). unfold keys_in.
    now apply (list_elem_of_fmap_2 (fun r => key_of <$> st !! r)).
  - rewrite filter_cons_False; [now apply IH |].
    intros Hxk. apply Hx. rewrite Hxk, <- Hk.
    fold (keys_in st l). unfold keys_in.
    now apply (list_elem_of_fmap_2 (fun r => key_of <$> st !! r)).
Qed.

Lemma view_modify_then {V} (view : WampBinding.t -> V) g
    (k : unit -> M unit) s :
  (forall a, preserves view (k a)) ->
  view (bind (modify g) k s).2 = view (g s).
Proof. intros H. unfold bind, modify. apply H. Qed.

Lemma registry_view_eq s s' :
  registry_view s' = registry_view s ->
  _issuedSubscriptionItems s' = _issuedSubscriptionItems s
  /\ store s' = store s /\ options s' = options s
  /\ _connection s' = _connection s.
Proof. unfold registry_view. intros [= -> -> -> ->]. auto. Qed.

(** What [_addSubscriptionItem] does to the registry, however it
    completes. *)
Lemma addSubscriptionItem_effect e s :
  refs_valid s ->
  let k := event_key s e in
  let new := length (store s) in
  exists issued',
    registry_view (exec (_addSubscriptionItem e) s)
    = (issued',
       store s ++ [SubscriptionItem.mk k.1.1 k.1.2 k.2
                     (isKwargsPayload_of e) None],
       options s, _connection s)
    /\ (((Some k ∉ keys s)
         /\ issued' = _issuedSubscriptionItems s ++ [new])
        \/ (exists index old,
              (_issuedSubscriptionItems s !! index = Some old)
              /\ key_of <$> store s !! old = Some k
              /\ issued' = <[index := new]> (_issuedSubscriptionItems s))).
Proof.
  intros Hv k new. unfold _addSubscriptionItem, exec.
  unfold bind at 1, get at 1.
  assert (k = (EventLike.eventType e, (_getTopicFilterFor s e).1,
               (_getTopicFilterFor s e).2)) as Hk by reflexivity.
  destruct (_getTopicFilterFor s e) as [tf m]. cbn [fst snd] in Hk.
  unfold bind at 1, new_item at 1, bind at 1, get at 1, bind at 1,
    modify at 1, ret at 1.
  rewrite Hk. cbn [fst snd].
  set (item := SubscriptionItem.mk _ _ _ _ _).
  set (s1 := set_store (store s ++ [item]) s).
  unfold bind at 1, get at 1.
  assert (forall r, r ∈ _issuedSubscriptionItems s ->
            (_subscriptionItemPredicate s1 (EventLike.eventType e) tf m r
             <-> key_of <$> store s !! r = Some k)) as HP.
  { intros r Hr. rewrite predicate_key, Hk.
    replace (store s1) with (store s ++ [item]) by (destruct s; reflexivity).
    rewrite lookup_app_l by (now apply Hv). reflexivity. }
  replace (_issuedSubscriptionItems s1) with (_issuedSubscriptionItems s)
    by (destruct s; reflexivity).
  unfold findIndex.
  destruct (list_find _ (_issuedSubscriptionItems s)) as [[index old] |] eqn:Hfind;
    cbn [fmap option_fmap option_map fst].
  - apply list_find_Some in Hfind as (Hold & HPold & _).
    rewrite Hold.
    assert (old ∈ _issuedSubscriptionItems s) as Hin
      by (eapply list_elem_of_lookup_2; exact Hold).
    apply HP in HPold; [| exact Hin].
    rewrite view_modify_then.
    2:{ intros _. apply preserves_bind;
          [apply registry_subscribeItems
          | intros _; apply registry_unsubscribeItems]. }
    eexists. split; [destruct s; reflexivity |].
    right. exists index, old. repeat split; try assumption.
    rewrite HPold. now f_equal.
  - apply list_find_None in Hfind. rewrite Forall_forall in Hfind.
    rewrite view_modify_then by (intros _; apply registry_subscribeItems).
    eexists. split; [destruct s; reflexivity |].
    left. split; [| reflexivity].
    unfold keys, keys_in. rewrite list_elem_of_fmap.
    intros (r & Hrk & Hr). apply (Hfind r Hr). apply HP; [exact Hr |].
    rewrite <- Hrk. now f_equal.
Qed.

Lemma elem_of_insert_inv {A} (l : list A) i x y :
  y ∈ <[i := x]> l -> y = x \/ y ∈ l.
Proof.
  intros H. apply list_elem_of_lookup in H as [j Hj].
  apply list_lookup_insert_Some in Hj as [(_ & -> & _) | (_ & Hj)];
    [now left | right].
  eapply list_elem_of_lookup_2. exact Hj.
Qed.

Lemma addSubscriptionItem_inv e s :
  registry_inv s ->
  registry_inv (exec (_addSubscriptionItem e) s)
  /\ desired_for (exec (_addSubscriptionItem e) s) (event_key s e)
     = [length (store s)]
  /\ options (exec (_addSubscriptionItem e) s) = options s.
Proof.
  intros [Hv Hnd].
  destruct (addSubscriptionItem_effect e s Hv) as (issued' & Hview & Hcase).
  set (s' := exec _ s) in *.
  set (k := event_key s e) in *.
  set (item := SubscriptionItem.mk _ _ _ _ _) in Hview.
  apply (f_equal (fun v => (v.1.1.1, v.1.1.2, v.1.2))) in Hview as Hv3.
  cbn in Hv3. injection Hv3 as Hi Hst Hop. clear Hview.
  assert (key_of <$> (store s ++ [item]) !! length (store s) = Some k) as Hnew.
  { rewrite lookup_app_r, Nat.sub_diag by lia. reflexivity. }
  assert (keys_in (store s ++ [item]) (_issuedSubscriptionItems s) = keys s)
    as Hold by (apply keys_in_app, Hv).
  assert (refs_valid s' /\ NoDup (keys s')
          /\ length (store s) ∈ _issuedSubscriptionItems s') as (Hv' & Hnd' & Hin).
  { unfold refs_valid, keys. rewrite Hi, Hst, length_app. cbn [length].
    destruct Hcase as [(Hfresh & ->) | (index & old & Hio & Hko & ->)].
    - split; [| split].
      + intros r Hr. apply elem_of_app in Hr as [Hr | Hr].
        * specialize (Hv r Hr). lia.
        * apply list_elem_of_singleton in Hr. lia.
      + unfold keys_in. rewrite fmap_app. fold (keys_in (store s ++ [item])
                                                   (_issuedSubscriptionItems s)).
        rewrite Hold. cbn [fmap list_fmap].
        match goal with
        | |- context [keys s ++ [?x]] =>
            replace x with (Some k) by (symmetry; exact Hnew)
        end.
        apply NoDup_app. split; [exact Hnd |]. split.
        * intros x Hx Hx'. apply list_elem_of_singleton in Hx'. now subst x.
        * apply NoDup_singleton.
      + apply elem_of_app. right. apply list_elem_of_here.
    - assert (index < length (_issuedSubscriptionItems s))%nat as Hlt
        by (eapply lookup_lt_Some; exact Hio).
      split; [| split].
      + intros r Hr. apply elem_of_insert_inv in Hr as [-> | Hr]; [lia |].
        specialize (Hv r Hr). lia.
      + unfold keys_in. rewrite list_fmap_insert.
        fold (keys_in (store s ++ [item]) (_issuedSubscriptionItems s)).
        rewrite Hold.
        match goal with
        | |- context [<[index := ?x]> (keys s)] =>
            replace x with (Some k) by (symmetry; exact Hnew)
        end.
        rewrite list_insert_id; [exact Hnd |].
        unfold keys, keys_in. rewrite list_lookup_fmap, Hio. cbn.
        now rewrite Hko.
      + now apply list_elem_of_insert. }
  split; [split; assumption |]. split; [| exact Hop].
  unfold desired_for. apply desired_unique; try assumption.
  now rewrite Hst.
Qed.

Lemma removeSubscriptionItem_effect e s :
  exists issued',
    registry_view (exec (_removeSubscriptionItem e) s)
    = (issued', store s, options s, _connection s)
    /\ (issued' = _issuedSubscriptionItems s
        \/ exists index, issued' = delete index (_issuedSubscriptionItems s)).
Proof.
  unfold _removeSubscriptionItem, exec. unfold bind at 1, get at 1.
  destruct (_getTopicFilterFor s e) as [tf m].
  destruct (findIndex _ _) as [index |].
  - rewrite view_modify_then by (intros _; apply registry_unsubscribeItems).
    eexists. split; [destruct s; reflexivity |]. right. now exists index.
  - eexists. split; [reflexivity |]. now left.
Qed.

Lemma removeSubscriptionItem_inv e s :
  registry_inv s -> registry_inv (exec (_removeSubscriptionItem e) s).
Proof.
  intros [Hv Hnd].
  destruct (removeSubscriptionItem_effect e s) as (issued' & Hview & Hcase).
  set (s' := exec _ s) in *.
  apply (f_equal (fun v => (v.1.1.1, v.1.1.2))) in Hview.
  cbn in Hview. injection Hview as Hi Hst.
  unfold registry_inv, refs_valid, keys. rewrite Hi, Hst.
  destruct Hcase as [-> | [index ->]]; [split; assumption |]. split.
  - intros r Hr. apply Hv. eapply list_elem_of_delete_inv. exact Hr.
  - unfold keys_in. rewrite list_fmap_delete.
    eapply sublist_NoDup; [exact Hnd | apply sublist_delete].
Qed.

(** Replacing an item whose subscription is live: the new item is
    subscribed and the live handle of the old one is released. *)
Lemma addSubscriptionItem_release e s index old i h :
  registry_inv s -> online s = true ->
  _issuedSubscriptionItems s !! index = Some old ->
  store s !! old = Some i ->
  key_of i = event_key s e ->
  SubscriptionItem.subscription i = Some h ->
  let new := length (store s) in
  let k := event_key s e in
  _addSubscriptionItem e s
  = (Normal tt,
     set_promises (promises s ++ [SubscribePromise new; UnsubscribePromise old])
       (set_calls (calls s ++ [Subscribe new k.1.2 k.2; Unsubscribe h])
          (set_issuedSubscriptionItems
             (<[index := new]> (_issuedSubscriptionItems s))
             (set_store
                (store s ++ [SubscriptionItem.mk k.1.1 k.1.2 k.2
                               (isKwargsPayload_of e) None]) s)))).
Proof.
  intros [Hv Hnd] Ho Hio Hsi Hki Hh new k. subst new k.
  assert (old ∈ _issuedSubscriptionItems s) as Hin
    by (eapply list_elem_of_lookup_2; exact Hio).
  unfold _addSubscriptionItem. unfold bind at 1, get at 1.
  unfold event_key in *.
  destruct (_getTopicFilterFor s e) as [tf m]. cbn [fst snd] in *.
  unfold bind at 1, new_item at 1, bind at 1, get at 1, bind at 1,
    modify at 1, ret at 1.
  set (item := SubscriptionItem.mk _ _ _ _ _).
  set (s1 := set_store (store s ++ [item]) s).
  unfold bind at 1, get at 1.
  assert (forall r, r ∈ _issuedSubscriptionItems s ->
            (_subscriptionItemPredicate s1 (EventLike.eventType e) tf m r
             <-> key_of <$> store s !! r
                 = Some (EventLike.eventType e, tf, m))) as HP.
  { intros r Hr. rewrite predicate_key.
    replace (store s1) with (store s ++ [item]) by (destruct s; reflexivity).
    rewrite lookup_app_l by (now apply Hv). reflexivity. }
  replace (_issuedSubscriptionItems s1) with (_issuedSubscriptionItems s)
    by (destruct s; reflexivity).
  assert (key_of <$> store s !! old = Some (EventLike.eventType e, tf, m))
    as Hkold by (rewrite Hsi; cbn; now f_equal).
  assert (list_find (_subscriptionItemPredicate s1 (EventLike.eventType e) tf m)
            (_issuedSubscriptionItems s) = Some (index, old)) as Hfind.
  { apply list_find_Some. split; [exact Hio |]. split; [now apply HP |].
    intros j y Hj Hlt HPy.
    assert (y ∈ _issuedSubscriptionItems s) as Hy
      by (eapply list_elem_of_lookup_2; exact Hj).
    apply HP in HPy; [| exact Hy].
    assert (j = index); [| lia].
    apply (NoDup_lookup (keys s) j index
             (Some (EventLike.eventType e, tf, m)) Hnd).
    - unfold keys, keys_in. rewrite list_lookup_fmap, Hj. cbn. now f_equal.
    - unfold keys, keys_in. rewrite list_lookup_fmap, Hio. cbn. now f_equal. }
  unfold findIndex. rewrite Hfind. cbn [fmap option_fmap option_map fst].
  rewrite Hio.
  unfold bind at 1, modify at 1.
  set (s2 := set_issuedSubscriptionItems _ s1).
  assert (online s2 = true) as Ho2 by (destruct s; exact Ho).
  unfold bind at 1.
  match goal with
  | |- context [_subscribeItems ?l s2] =>
      rewrite (subscribeItems_online l s2 Ho2)
  end.
  2:{ intros r Hr. apply list_elem_of_singleton in Hr. subst r.
      replace (store s2) with (store s ++ [item]) by (destruct s; reflexivity).
      rewrite length_app. cbn. lia. }
  set (s3 := set_promises _ _).
  assert (online s3 = true) as Ho3 by (destruct s; exact Ho).
  unfold _unsubscribeItems. cbn [forEach].
  unfold bind at 1, unsubscribe at 1, bind at 1, get at 1.
  assert (deref s3 old = Some i) as ->.
  { unfold deref.
    replace (store s3) with (store s ++ [item]) by (destruct s; reflexivity).
    rewrite lookup_app_l by (now apply Hv). exact Hsi. }
  rewrite Hh.
  assert (exists c, _connection s3 = Some c) as [c ->].
  { unfold online in Ho3. destruct (_connection s3); [eauto | discriminate]. }
  unfold bind at 1. rewrite (session_call_online _ s3 Ho3).
  unfold await, modify, ret.
  assert (subscribe_call (store s2) (length (store s))
          = Subscribe (length (store s)) tf m) as Hsc.
  { unfold subscribe_call.
    replace (store s2) with (store s ++ [item]) by (destruct s; reflexivity).
    rewrite lookup_app_r, Nat.sub_diag by lia. reflexivity. }
  subst s3. cbn [map]. rewrite Hsc.
  destruct s; cbn. now rewrite <- !app_assoc.
Qed.

Lemma event_key_options s s' e :
  options s' = options s -> event_key s' e = event_key s e.
Proof.
  intros H. unfold event_key, _getTopicFilterFor. now rewrite H.
Qed.

(** The invariant can be checked by evaluation. *)
Lemma refs_valid_check s :
  forallb (fun r => (r <? length (store s))%nat) (_issuedSubscriptionItems s)
  = true ->
  refs_valid s.
Proof.
  intros Hv r Hr. rewrite forallb_forall in Hv.
  apply list_elem_of_In in Hr. apply Hv in Hr. now apply Nat.ltb_lt.
Qed.

Lemma registry_inv_check s :
  forallb (fun r => (r <? length (store s))%nat) (_issuedSubscriptionItems s)
  && bool_decide (NoDup (keys s)) = true ->
  registry_inv s.
Proof.
  intros H. apply andb_prop in H as [Hv Hnd]. split.
  - intros r Hr. rewrite forallb_forall in Hv.
    apply list_elem_of_In in Hr. apply Hv in Hr. now apply Nat.ltb_lt.
  - now apply bool_decide_eq_true in Hnd.
Qed.

End Registry.

Example working_state :
  _pendingPublicationItems Examples.working = [item_of Examples.working Examples.T1]
  /\ _issuedSubscriptionItems Examples.working = [0%nat]
  /\ (SubscriptionItem.subscription <$> store Examples.working !! 0%nat) = Some (Some 77)
  /\ promises Examples.working
     = [PublishPromise (_getTopicFor Examples.working Examples.T1)]
  /\ emitted Examples.working = [Offline; Online]
  /\ map is_publish (calls Examples.working)
     = [false; false; true; true; true; false; true]
  /\ online Examples.working = true.
Proof. vm_compute. repeat split. Qed.

Example topic_filter_for_retrieve :
  _getTopicFilterFor (initialized Examples.opts) Examples.retrieve
  = (Some (str "coaty.1.my" ++ [0; 48; 48] ++ str "ns.RTV..corr"),
     str "wildcard").
Proof. vm_compute. reflexivity. Qed.

(** ** The escaping is reversible *)

(** C3: for every string [s] without NUL, decoding the encoding of [s]
    gives [s] back, whatever dots and white space characters [s]
    contains; the encoding of ["x.y"] is ["x"], three NUL, ["y"], which
    decodes to ["x.y"]. *)
Theorem decodeTopicComponent_encodeTopicComponent (s : jsstring) :
  NUL ∉ s ->
  _decodeTopicComponent (_encodeTopicComponent s) = s
  /\ _encodeTopicComponent (str "x.y") = str "x" ++ [NUL; NUL; NUL] ++ str "y"
  /\ _decodeTopicComponent (str "x" ++ [NUL; NUL; NUL] ++ str "y") = str "x.y".
Proof.
  intros H. split; [now apply decode_encode |].
  split; vm_compute; reflexivity.
Qed.

Lemma decodeTopicComponent_encodeTopicComponent_witness :
  let s := str "a.b c" ++ [5760; 65279] in
  (NUL ∉ s) /\ _decodeTopicComponent (_encodeTopicComponent s) = s.
Proof.
  assert (NUL ∉ str "a.b c" ++ [5760; 65279]) as H
    by (compute_done).
  split; [exact H |].
  exact (proj1 (decodeTopicComponent_encodeTopicComponent _ H)).
Defined.

(** C10, as the code has it: the output of [_encodeTopicComponent]
    contains no dot and no white space character (none of the characters
    of [WHITESPACE_CHARS]); ['#'] is not escaped, it occurs in the output
    exactly when it occurs in the input; the output has no dot, so it is
    one segment of any topic it is put into. *)
Theorem encodeTopicComponent_one_segment (s : jsstring) :
  Forall (fun c => c <> DOT /\ regex_s c = false /\ ~ In c WHITESPACE_CHARS)
    (_encodeTopicComponent s)
  /\ (HASH ∈ _encodeTopicComponent s <-> HASH ∈ s)
  /\ split DOT (_encodeTopicComponent s) = [_encodeTopicComponent s]
  /\ forall before after,
       split DOT (before ++ [DOT] ++ _encodeTopicComponent s ++ [DOT] ++ after)
       = split DOT before ++ [_encodeTopicComponent s] ++ split DOT after.
Proof.
  split; [| split; [| split]].
  - eapply Forall_impl; [apply encode_no_dot_ws |]. cbn.
    intros c [Hd Hw]. repeat split; try assumption.
    intros Hin. apply regex_s_list in Hin. congruence.
  - apply encode_hash.
  - apply split_no_sep, encode_no_dot.
  - intros before after. rewrite split_app_any.
    now rewrite split_app_sep by apply encode_no_dot.
Qed.

(** C10 as stated fails: ['#'] passes through the encoding. *)
Lemma encodeTopicComponent_keeps_hash :
  _encodeTopicComponent (str "a#b") = str "a#b"
  /\ HASH ∈ _encodeTopicComponent (str "a#b").
Proof.
  split; [vm_compute; reflexivity |].
  compute_done.
Qed.

(** ** Topic filters of response events *)

(** C2, as the code has it: [getTopicFilter] does not look at the event
    type when it handles the event filter.  For a response event type
    the pattern is the protocol name, the version, the encoded namespace
    (or nothing), the three-character prefix followed by the encoded
    event filter when a non-empty one is supplied, two dots, and the
    correlation id when one is supplied. *)
Theorem getTopicFilter_response version namespace eventType
    eventTypeFilter correlationId :
  is_response eventType = true ->
  exists prefix,
    _getEventTopicComponentPrefix eventType = Some prefix
    /\ length prefix = 3%nat
    /\ getTopicFilter version namespace eventType eventTypeFilter correlationId
       = PROTOCOL_NAME ++ [DOT] ++ Number_toString version ++ [DOT]
         ++ (if truthy namespace
             then _encodeTopicComponent (tpl namespace) else [])
         ++ [DOT]
         ++ (prefix ++ if truthy eventTypeFilter
                       then _encodeTopicComponent (tpl eventTypeFilter)
                       else [])
         ++ [DOT] ++ [DOT]
         ++ (if truthy correlationId then tpl correlationId else []).
Proof.
  intros H.
  assert (exists a b c,
             _getEventTopicComponentPrefix eventType = Some [a; b; c]
             /\ _isOneWayEvent eventType = false) as (a & b & c & Hp & Hw)
    by (destruct eventType; try discriminate H;
        do 3 eexists; split; vm_compute; reflexivity).
  exists [a; b; c]. split; [exact Hp |]. split; [reflexivity |].
  unfold getTopicFilter. rewrite Hp, Hw. cbn [negb tpl].
  destruct (truthy eventTypeFilter), (truthy correlationId);
    cbn [tpl]; rewrite <- ?app_assoc, ?app_nil_r; reflexivity.
Qed.

Lemma getTopicFilter_response_witness :
  is_response Retrieve = true
  /\ exists prefix,
       _getEventTopicComponentPrefix Retrieve = Some prefix
       /\ length prefix = 3%nat
       /\ getTopicFilter 1 (Some (str "ns")) Retrieve None (Some (str "corr"))
          = PROTOCOL_NAME ++ [DOT] ++ Number_toString 1 ++ [DOT]
            ++ _encodeTopicComponent (str "ns") ++ [DOT]
            ++ (prefix ++ []) ++ [DOT] ++ [DOT] ++ str "corr".
Proof.
  split; [reflexivity |].
  exact (getTopicFilter_response 1 (Some (str "ns")) Retrieve None
           (Some (str "corr")) eq_refl).
Defined.

(** C2 as stated fails: a response filter with an event filter is
    computed, not rejected, and its event segment carries the filter;
    the binding records the subscription under this pattern. *)
Lemma getTopicFilter_response_with_filter :
  getTopicFilter 1 (Some (str "ns")) Resolve (Some (str "f")) (Some (str "corr"))
  = str "coaty.1.ns.RSVf..corr"
  /\ split DOT (getTopicFilter 1 (Some (str "ns")) Resolve (Some (str "f"))
                  (Some (str "corr"))) !! 3%nat
     = Some (str "RSVf")
  /\ (let s := exec (_addSubscriptionItem Examples.resolve_filtered)
                 (initialized Examples.opts) in
      (_addSubscriptionItem Examples.resolve_filtered
         (initialized Examples.opts)).1 = Normal tt
      /\ (SubscriptionItem.topic <$> store s !! 0%nat)
         = Some (Some (str "coaty.1.my" ++ [0; 48; 48] ++ str "ns.RSVf..corr"))
      /\ _issuedSubscriptionItems s = [0%nat]).
Proof. repeat split; vm_compute; reflexivity. Qed.

(** ** Publication topics decode to what was encoded *)

Lemma createByName_getTopicName_witness :
  createByName
    (getTopicName 1 (str "my ns") Call (Some (str "op.x")) (str "abc")
       (Some (str "def")))
  = Normal (Some {| _version := Int 1;
                    _namespace := str "my ns";
                    _eventType := Some Call;
                    _eventTypeFilter := Some (str "op.x");
                    _sourceId := Some (str "abc");
                    _correlationId := Some (str "def") |}).
Proof.
  apply createByName_getTopicName.
  constructor.
  - split; [reflexivity | unfold plain_decimal; reflexivity].
  - reflexivity.
  - split; [discriminate |].
    compute_done.
  - compute_done.
  - compute_done.
  - cbn. exists (str "def"). split; [reflexivity |]. split; [discriminate |].
    compute_done.
Defined.

(** ** Draining the publication queue *)

(** C6: events enqueued at the back of the queue, one after the other,
    and drained on an open session whose router acknowledges every
    acknowledged publication, are published in the order in which they
    were enqueued (behind what was queued before), and the queue is
    empty afterwards. *)
Theorem drain_publishes_in_order s (es : list EventLike.t) (vs : list N) :
  online s = true ->
  _isPublishingDeferred s = true ->
  pending_publish s = None ->
  (length (_pendingPublicationItems s) + length es <= length vs)%nat ->
  let run :=
    (forEach es (fun e => _addPublicationItem e false false) ;;
     _drainPublications ;;
     acknowledge_publications (Fulfilled <$> vs)) s in
  run.1 = Normal tt
  /\ calls run.2
     = calls s ++ map publish_call (_pendingPublicationItems s ++ map (item_of s) es)
  /\ _pendingPublicationItems run.2 = []
  /\ _isPublishingDeferred run.2 = true.
Proof.
  intros Ho Hd Hp Hlen run.
  set (s1 := set_pendingPublicationItems
               (_pendingPublicationItems s ++ map (item_of s) es) s).
  assert (run = (Normal tt,
                 drained s1 []
                   (calls s1 ++ map publish_call (_pendingPublicationItems s1))
                   true (promises s1 ++ []))) as ->.
  { subst run. unfold bind at 1. rewrite forEach_back. fold s1.
    rewrite (drainPublications_run (Fulfilled <$> vs) s1)
      by (destruct s; assumption).
    rewrite drain_outcome_fulfilled; [reflexivity |].
    etransitivity; [apply length_filter |].
    subst s1. cbn. rewrite length_app, length_map. exact Hlen. }
  subst s1. destruct s; cbn. auto.
Qed.

Lemma drain_publishes_in_order_witness :
  let s := Examples.opened_idle in
  let run :=
    (forEach [Examples.T1; Examples.T2; Examples.T3]
       (fun e => _addPublicationItem e false false) ;;
     _drainPublications ;;
     acknowledge_publications (Fulfilled <$> [0; 0; 0])) s in
  calls run.2
  = calls s
    ++ map publish_call (map (item_of s) [Examples.T1; Examples.T2; Examples.T3])
  /\ _pendingPublicationItems run.2 = [].
Proof.
  cbv zeta.
  pose proof (drain_publishes_in_order Examples.opened_idle
                [Examples.T1; Examples.T2; Examples.T3] [0; 0; 0]
                eq_refl eq_refl eq_refl) as H.
  cbv zeta in H.
  destruct H as (_ & Hc & Hq & _); [vm_compute; lia |].
  split; [exact Hc | exact Hq].
Defined.

(** C5: when the router rejects the acknowledgment of an item, the
    drain stops: the rejected item and the items behind it stay in the
    queue in their order, the items before it have been published and
    removed, and the queue is marked deferred with no publication
    pending, so that nothing is sent until [_drainPublications] is called
    again. *)
Theorem drain_stops_at_rejected_acknowledgment s pre x post
    (vs : list N) (acks : list Settlement) :
  online s = true ->
  _isPublishingDeferred s = true ->
  pending_publish s = None ->
  _pendingPublicationItems s = pre ++ x :: post ->
  acknowledged x = true ->
  length vs = length (filter (fun i => acknowledged i = true) pre) ->
  let run :=
    (_drainPublications ;;
     acknowledge_publications ((Fulfilled <$> vs) ++ Rejected :: acks)) s in
  run.1 = Normal tt
  /\ _pendingPublicationItems run.2 = x :: post
  /\ _isPublishingDeferred run.2 = true
  /\ calls run.2 = calls s ++ map publish_call (pre ++ [x])
  /\ promises run.2 = promises s.
Proof.
  intros Ho Hd Hp Hq Hx Hlen run.
  assert (run = (Normal tt,
                 drained s (x :: post)
                   (calls s ++ map publish_call (pre ++ [x]))
                   true (promises s ++ []))) as ->.
  { subst run. rewrite (drainPublications_run _ s Ho Hd Hp), Hq.
    now rewrite drain_outcome_rejected by assumption. }
  destruct s; cbn. rewrite app_nil_r. auto.
Qed.

Lemma drain_stops_at_rejected_acknowledgment_witness :
  let s := Examples.queued_online in
  let run :=
    (_drainPublications ;;
     acknowledge_publications ((Fulfilled <$> [0]) ++ [Rejected])) s in
  _pendingPublicationItems s
  = [item_of s Examples.T1; item_of s Examples.T2; item_of s Examples.T3]
  /\ _pendingPublicationItems run.2
     = [item_of s Examples.T2; item_of s Examples.T3]
  /\ _isPublishingDeferred run.2 = true
  /\ calls run.2
     = map publish_call [item_of s Examples.T1; item_of s Examples.T2].
Proof.
  cbv zeta. split; [reflexivity |].
  destruct (drain_stops_at_rejected_acknowledgment Examples.queued_online
              [item_of Examples.queued_online Examples.T1]
              (item_of Examples.queued_online Examples.T2)
              [item_of Examples.queued_online Examples.T3]
              [0] [] eq_refl eq_refl eq_refl eq_refl eq_refl eq_refl)
    as (_ & Hq & Hd & Hc & _).
  split; [exact Hq |]. split; [exact Hd | exact Hc].
Defined.

(** ** Join events go to the front of the queue *)

(** C7, as the code has it: when the topics of the join events are
    pairwise distinct and the only items of the queue on these topics
    are join events that an earlier join left unpublished (the last
    [length joinEvents - n] of them, at the head of the queue), the loop
    of [onopen] leaves the join events at the front of the queue in their
    given order, ahead of everything else that was queued; with an empty
    leftover the join events are all added in front.  A join event
    whose topic is already in the queue is not added. *)
Theorem join_events_enqueued_in_front s (joinEvents : list EventLike.t)
    (n : nat) (rest : list PublicationItem.t) :
  NoDup (map (_getTopicFor s) joinEvents) ->
  _pendingPublicationItems s = map (item_of s) (drop n joinEvents) ++ rest ->
  (forall e, e ∈ joinEvents ->
     _getTopicFor s e ∉ map PublicationItem.topic rest) ->
  addJoinEvents joinEvents s
  = (Normal tt,
     set_pendingPublicationItems (map (item_of s) joinEvents ++ rest) s)
  /\ forall e s0,
       _getTopicFor s0 e ∈ map PublicationItem.topic (_pendingPublicationItems s0) ->
       _addPublicationItem e true true s0 = (Normal tt, s0).
Proof.
  intros Hnd Hq Hfresh. split.
  - now apply (addJoinEvents_leftover joinEvents n rest).
  - intros e s0. apply addPublicationItem_queued.
Qed.

Lemma join_events_enqueued_in_front_witness :
  let s := Examples.queued in
  _pendingPublicationItems
    (exec (addJoinEvents [Examples.A; Examples.B; Examples.C]) s)
  = map (item_of s) [Examples.A; Examples.B; Examples.C]
    ++ _pendingPublicationItems s.
Proof.
  cbv zeta. unfold exec.
  rewrite (proj1 (join_events_enqueued_in_front Examples.queued
                    [Examples.A; Examples.B; Examples.C] 3
                    (_pendingPublicationItems Examples.queued)
                    ltac:(compute_done) eq_refl
                    ltac:(apply Forall_forall; compute_done))).
  reflexivity.
Defined.

(** C7 as stated fails: the application has published on the topic of
    [B]; after the loop the queue holds [A], [C] and then the item of
    the application, so [B] is not dequeued between [A] and [C]. *)
Lemma join_events_skip_queued_topic :
  let s := Examples.with_B' in
  _pendingPublicationItems
    (exec (addJoinEvents [Examples.A; Examples.B; Examples.C]) s)
  = [item_of s Examples.A; item_of s Examples.C; item_of s Examples.B']
  /\ _pendingPublicationItems
       (exec (addJoinEvents [Examples.A; Examples.B; Examples.C]) s)
     <> map (item_of s) [Examples.A; Examples.B; Examples.C]
        ++ _pendingPublicationItems s.
Proof. split; [vm_compute; reflexivity | vm_compute; discriminate]. Qed.

(** ** The subscription registry holds one item per key *)

(** C8: starting from a registry with at most one item per key, every
    [_addSubscriptionItem] and every [_removeSubscriptionItem] leaves a
    registry with at most one item per key.  After two additions with
    the same key the registry holds exactly one item with that key, the
    one created by the second addition; and an addition that replaces an
    item whose subscription is live subscribes the new item and then
    calls [unsubscribe] on the live handle of the replaced one. *)
Theorem registry_one_item_per_key s (e1 e2 : EventLike.t) :
  registry_inv s ->
  event_key s e1 = event_key s e2 ->
  let s1 := exec (_addSubscriptionItem e1) s in
  let s2 := exec (_addSubscriptionItem e2) s1 in
  (forall e, registry_inv (exec (_addSubscriptionItem e) s)
             /\ registry_inv (exec (_removeSubscriptionItem e) s))
  /\ desired_for s1 (event_key s e1) = [length (store s)]
  /\ desired_for s2 (event_key s e1) = [S (length (store s))]
  /\ length (desired_for s2 (event_key s e1)) = 1%nat
  /\ forall index old i h,
       online s = true ->
       _issuedSubscriptionItems s !! index = Some old ->
       store s !! old = Some i ->
       key_of i = event_key s e1 ->
       SubscriptionItem.subscription i = Some h ->
       (_addSubscriptionItem e1 s).1 = Normal tt
       /\ _issuedSubscriptionItems s1
          = <[index := length (store s)]> (_issuedSubscriptionItems s)
       /\ calls s1
          = calls s ++ [Subscribe (length (store s)) (event_key s e1).1.2
                          (event_key s e1).2;
                        Unsubscribe h]
       /\ promises s1
          = promises s ++ [SubscribePromise (length (store s));
                           UnsubscribePromise old].
Proof.
  intros Hinv Hk s1 s2.
  destruct (addSubscriptionItem_inv e1 s Hinv) as (Hinv1 & Hd1 & Hop1).
  fold s1 in Hinv1, Hd1, Hop1.
  destruct (addSubscriptionItem_inv e2 s1 Hinv1) as (Hinv2 & Hd2 & Hop2).
  fold s2 in Hinv2, Hd2, Hop2.
  rewrite (event_key_options s s1 e2 Hop1), <- Hk in Hd2.
  assert (length (store s1) = S (length (store s))) as Hlen.
  { destruct Hinv as [Hv _].
    destruct (addSubscriptionItem_effect e1 s Hv) as (issued' & Hview & _).
    fold s1 in Hview. apply (f_equal (fun v => v.1.1.2)) in Hview.
    cbn in Hview. rewrite Hview, length_app. cbn. lia. }
  rewrite Hlen in Hd2.
  split.
  { intros e. split.
    - apply (addSubscriptionItem_inv e s Hinv).
    - apply (removeSubscriptionItem_inv e s Hinv). }
  split; [exact Hd1 |]. split; [exact Hd2 |].
  split; [now rewrite Hd2 |].
  intros index old i h Ho Hio Hsi Hki Hh.
  pose proof (addSubscriptionItem_release e1 s index old i h Hinv Ho Hio Hsi
                Hki Hh) as Hrun.
  cbv zeta in Hrun. subst s1. unfold exec. rewrite Hrun.
  destruct s; cbn. auto.
Qed.

Lemma registry_one_item_per_key_witness :
  let s := Examples.working in
  let s1 := exec (_addSubscriptionItem Examples.channel) s in
  let s2 := exec (_addSubscriptionItem Examples.channel) s1 in
  desired_for s (event_key s Examples.channel) = [0%nat]
  /\ desired_for s2 (event_key s Examples.channel) = [2%nat]
  /\ calls s1
     = calls s ++ [Subscribe 1%nat (event_key s Examples.channel).1.2
                     (event_key s Examples.channel).2;
                   Unsubscribe 77].
Proof.
  cbv zeta.
  destruct (registry_one_item_per_key Examples.working Examples.channel
              Examples.channel
              ltac:(apply registry_inv_check; vm_compute; reflexivity)
              eq_refl) as (_ & _ & Hd2 & _ & Hrel).
  split; [vm_compute; reflexivity |]. split; [exact Hd2 |].
  destruct (Hrel 0%nat 0%nat
              (SubscriptionItem.mk Channel
                 (event_key Examples.working Examples.channel).1.2
                 (event_key Examples.working Examples.channel).2
                 true (Some 77))
              77 eq_refl eq_refl ltac:(vm_compute; reflexivity) eq_refl eq_refl)
    as (_ & _ & Hc & _).
  exact Hc.
Defined.

(** ** Patterns: the matcher decides the strings a pattern matches *)

Section RegExp_facts.

Import RegExp.

Lemma nullable_matches r : nullable r = true <-> matches r [].
Proof.
  induction r as [| | cls | r1 IH1 r2 IH2 | r1 IH1 r2 IH2 | r IH]; simpl.
  - split; [discriminate | tauto].
  - tauto.
  - split; [discriminate | intros (c & Hc & _); discriminate Hc].
  - rewrite andb_true_iff, IH1, IH2. split.
    + intros [H1 H2]. now exists [], [].
    + intros (s1 & s2 & Hs & H1 & H2).
      symmetry in Hs. apply app_eq_nil in Hs as [-> ->]. tauto.
  - rewrite orb_true_iff, IH1, IH2. tauto.
  - split; [| reflexivity]. intros _. exists []. split; [reflexivity | constructor].
Qed.

Lemma matches_star_cons r c s :
  matches (Star r) (c :: s)
  <-> exists s1 s2, s = s1 ++ s2 /\ matches r (c :: s1) /\ matches (Star r) s2.
Proof.
  split.
  - intros (ss & Hs & Hall). revert Hs.
    induction Hall as [| piece ss Hp Hall IH]; simpl; [discriminate |].
    destruct piece as [| c' piece]; simpl; [exact IH |].
    intros [= <- ->]. exists piece, (concat ss). split; [reflexivity |].
    split; [exact Hp |]. now exists ss.
  - intros (s1 & s2 & -> & H1 & ss & -> & Hall).
    exists ((c :: s1) :: ss). split; [reflexivity | now constructor].
Qed.

Lemma derive_matches r : forall c s,
  matches (derive c r) s <-> matches r (c :: s).
Proof.
  induction r as [| | cls | r1 IH1 r2 IH2 | r1 IH1 r2 IH2 | r IH];
    intros c s.
  - simpl. tauto.
  - simpl. split; [tauto | discriminate].
  - simpl. destruct (cls c) eqn:Hc; simpl.
    + split; [intros ->; now exists c |].
      now intros (c' & [= <- ->] & _).
    + split; [tauto |]. intros (c' & [= <- ->] & Hc'). congruence.
  - assert (matches (Seq (derive c r1) r2) s
            <-> exists s1 s2, s = s1 ++ s2
                              /\ matches r1 (c :: s1) /\ matches r2 s2) as Hseq.
    { simpl. split; intros (s1 & s2 & Hs & H1 & H2); exists s1, s2;
        (split; [exact Hs |]); (split; [| exact H2]); now apply IH1. }
    change (derive c (Seq r1 r2))
      with (if nullable r1
            then Alt (Seq (derive c r1) r2) (derive c r2)
            else Seq (derive c r1) r2).
    destruct (nullable r1) eqn:Hn.
    + change (matches (Alt ?a ?b) s) with (matches a s \/ matches b s).
      rewrite Hseq, IH2. split.
      * intros [(s1 & s2 & -> & H1 & H2) | H2].
        -- now exists (c :: s1), s2.
        -- exists [], (c :: s). split; [reflexivity |].
           split; [now apply nullable_matches | exact H2].
      * intros (s1 & s2 & Hs & H1 & H2). destruct s1 as [| c' s1].
        -- simpl in Hs. subst s2. now right.
        -- injection Hs as <- ->. left. now exists s1, s2.
    + rewrite Hseq. split.
      * intros (s1 & s2 & -> & H1 & H2). now exists (c :: s1), s2.
      * intros (s1 & s2 & Hs & H1 & H2). destruct s1 as [| c' s1].
        -- apply nullable_matches in H1. congruence.
        -- injection Hs as <- ->. now exists s1, s2.
  - simpl. rewrite IH1, IH2. tauto.
  - rewrite matches_star_cons.
    change (derive c (Star r)) with (Seq (derive c r) (Star r)).
    split; intros (s1 & s2 & Hs & H1 & H2); exists s1, s2;
      (split; [exact Hs |]); (split; [| exact H2]); now apply IH.
Qed.

Lemma test_matches r s : test r s = true <-> matches r s.
Proof.
  revert r. induction s as [| c s IH]; intros r; simpl.
  - apply nullable_matches.
  - rewrite IH. apply derive_matches.
Qed.

(** One or more code units of a class. *)
Lemma matches_plus_class cls s :
  matches (Plus (Class cls)) s
  <-> s <> [] /\ Forall (fun c => cls c = true) s.
Proof.
  split.
  - intros (s1 & s2 & -> & (c & -> & Hc) & ss & -> & Hall).
    split; [discriminate |]. constructor; [exact Hc |].
    induction Hall as [| piece ss (c' & -> & Hc') _ IH]; simpl;
      [constructor | now constructor].
  - intros [Hne Hall]. destruct s as [| c s]; [congruence |].
    apply Forall_cons in Hall as [Hc Hall].
    exists [c], s. split; [reflexivity |]. split; [now exists c |].
    exists (map (fun c => [c]) s). split.
    + clear. induction s as [| c s IH]; simpl; [reflexivity | now f_equal].
    + clear Hne Hc. induction Hall as [| c' s Hc' _ IH]; simpl;
        [constructor |].
      constructor; [now exists c' | exact IH].
Qed.

Lemma matches_star_intro r ss :
  Forall (matches r) ss -> matches (Star r) (concat ss).
Proof. intros H. now exists ss. Qed.

End RegExp_facts.

(** ** Topics as dot-separated URIs *)

Section Uri_facts.

Import RegExp.

Lemma split_each_no_sep sep s : Forall (fun seg => sep ∉ seg) (split sep s).
Proof.
  induction s as [| c s IH]; simpl.
  - constructor; [apply not_elem_of_nil | constructor].
  - destruct (N.eqb_spec c sep) as [-> | Hc].
    + constructor; [apply not_elem_of_nil | exact IH].
    + destruct (split sep s) as [| seg segs]; simpl.
      * constructor; [| constructor].
        rewrite not_elem_of_cons. split; [congruence | apply not_elem_of_nil].
      * apply Forall_cons in IH as [Hseg Hsegs].
        constructor; [| exact Hsegs].
        rewrite not_elem_of_cons. split; [congruence | exact Hseg].
Qed.

Lemma split_dotted segs : forall last,
  Forall (fun seg => DOT ∉ seg) segs -> DOT ∉ last ->
  split DOT (dotted segs last) = segs ++ [last].
Proof.
  unfold dotted.
  induction segs as [| seg segs IH]; intros last Hsegs Hlast; simpl.
  - now apply split_no_sep.
  - apply Forall_cons in Hsegs as [Hseg Hsegs].
    rewrite <- !app_assoc.
    rewrite (split_app_sep DOT seg) by exact Hseg.
    f_equal. now apply IH.
Qed.

Lemma split_join s :
  exists segs last, split DOT s = segs ++ [last] /\ s = dotted segs last.
Proof.
  unfold dotted.
  induction s as [| c s (segs & last & Hsplit & Hs)]; simpl.
  - now exists [], [].
  - destruct (N.eqb_spec c DOT) as [-> | Hc].
    + exists ([] :: segs), last. rewrite Hsplit. split; [reflexivity |].
      simpl. now f_equal.
    + rewrite Hsplit. destruct segs as [| seg segs]; simpl.
      * exists [], (c :: last). split; [reflexivity |].
        simpl in Hs |- *. now f_equal.
      * exists ((c :: seg) :: segs), last. split; [reflexivity |].
        simpl in Hs |- *. now f_equal.
Qed.

Lemma dotted_units segs last c :
  c ∈ dotted segs last
  <-> c = DOT /\ segs <> [] \/ (exists seg, seg ∈ segs /\ c ∈ seg) \/ c ∈ last.
Proof.
  unfold dotted. induction segs as [| seg segs IH]; simpl.
  - split; [auto |]. intros [[_ H] | [(seg & H & _) | H]];
      [congruence | now apply elem_of_nil in H | exact H].
  - rewrite <- !app_assoc, (elem_of_app seg), (elem_of_app [DOT]), IH,
      list_elem_of_singleton.
    split.
    + intros [H | [-> | [[-> _] | [(g & Hg & Hc) | H]]]].
      * right; left. exists seg. split; [apply list_elem_of_here | exact H].
      * left. split; [reflexivity | discriminate].
      * left. split; [reflexivity | discriminate].
      * right; left. exists g. split; [now apply list_elem_of_further | exact Hc].
      * right; right. exact H.
    + intros [[-> _] | [(g & Hg & Hc) | H]].
      * right; left. reflexivity.
      * apply elem_of_cons in Hg as [-> | Hg]; [now left |].
        right; right; right; left. now exists g.
      * right; right; right; right. exact H.
Qed.

Lemma uri_component_unit_spec c :
  uri_component_unit c = true <-> uri_unit c /\ c <> DOT.
Proof.
  unfold uri_component_unit, uri_unit.
  rewrite negb_true_iff, !orb_false_iff, !N.eqb_neq. tauto.
Qed.

Lemma dot_class_spec s :
  matches (Class (fun c => c =? DOT)) s <-> s = [DOT].
Proof.
  simpl. split.
  - intros (c & -> & Hc). apply N.eqb_eq in Hc. now subst c.
  - intros ->. now exists DOT.
Qed.

(** The pieces that the starred group of the pattern for publications
    matches: components that each end in a dot. *)
Lemma matches_non_empty_pieces ss :
  Forall
    (matches (Seq (Plus (Class uri_component_unit))
                (Class (fun c => c =? DOT)))) ss
  <-> exists segs,
        ss = map (fun seg => seg ++ [DOT]) segs
        /\ Forall (fun seg => seg <> []
                              /\ Forall (fun c => uri_component_unit c = true) seg)
             segs.
Proof.
  split.
  - induction 1 as [| piece ss (s1 & s2 & -> & H1 & H2) _ (segs & -> & IH)].
    + now exists [].
    + apply matches_plus_class in H1. apply dot_class_spec in H2 as ->.
      exists (s1 :: segs). split; [reflexivity | now constructor].
  - intros (segs & -> & Hall).
    induction Hall as [| seg segs Hseg _ IH]; simpl; constructor;
      [| exact IH].
    exists seg, [DOT]. split; [reflexivity |].
    split; [now apply matches_plus_class | now apply dot_class_spec].
Qed.

Lemma matches_loose_non_empty s :
  matches REGEX_URI_LOOSE_NON_EMPTY s
  <-> exists segs last,
        s = dotted segs last
        /\ Forall (fun seg => seg <> []
                              /\ Forall (fun c => uri_component_unit c = true) seg)
             (segs ++ [last]).
Proof.
  unfold REGEX_URI_LOOSE_NON_EMPTY, dotted. split.
  - intros (s1 & s2 & -> & (ss & -> & Hss) & Hlast).
    apply matches_non_empty_pieces in Hss as (segs & -> & Hsegs).
    apply matches_plus_class in Hlast.
    exists segs, s2. split; [reflexivity |].
    apply Forall_app. split; [exact Hsegs | now constructor].
  - intros (segs & last & -> & Hall).
    apply Forall_app in Hall as [Hsegs Hlast].
    apply Forall_cons in Hlast as [Hlast _].
    exists (concat (map (fun seg => seg ++ [DOT]) segs)), last.
    split; [reflexivity |]. split; [| now apply matches_plus_class].
    apply matches_star_intro, matches_non_empty_pieces. now exists segs.
Qed.

(** The same for the pattern for subscriptions, whose components may be
    empty. *)
Lemma matches_loose_empty_pieces ss :
  Forall
    (matches (Alt (Seq (Plus (Class uri_component_unit))
                     (Class (fun c => c =? DOT)))
                (Class (fun c => c =? DOT)))) ss
  <-> exists segs,
        ss = map (fun seg => seg ++ [DOT]) segs
        /\ Forall (Forall (fun c => uri_component_unit c = true)) segs.
Proof.
  split.
  - induction 1 as [| piece ss Hp _ (segs & -> & IH)].
    + now exists [].
    + destruct Hp as [(s1 & s2 & -> & H1 & H2) | H2].
      * apply matches_plus_class in H1 as [_ H1].
        apply dot_class_spec in H2 as ->.
        exists (s1 :: segs). split; [reflexivity | now constructor].
      * apply dot_class_spec in H2 as ->.
        exists ([] :: segs). split; [reflexivity |].
        constructor; [constructor | exact IH].
  - intros (segs & -> & Hall).
    induction Hall as [| seg segs Hseg _ IH]; simpl; constructor;
      [| exact IH].
    destruct seg as [| c seg].
    + right. now apply dot_class_spec.
    + left. exists (c :: seg), [DOT]. split; [reflexivity |].
      split; [| now apply dot_class_spec].
      apply matches_plus_class. split; [discriminate | exact Hseg].
Qed.

Lemma matches_loose_empty s :
  matches REGEX_URI_LOOSE_EMPTY s
  <-> exists segs last,
        s = dotted segs last
        /\ Forall (Forall (fun c => uri_component_unit c = true))
             (segs ++ [last]).
Proof.
  unfold REGEX_URI_LOOSE_EMPTY, dotted. split.
  - intros (s1 & s2 & -> & (ss & -> & Hss) & Hlast).
    apply matches_loose_empty_pieces in Hss as (segs & -> & Hsegs).
    exists segs, s2. split; [reflexivity |].
    apply Forall_app. split; [exact Hsegs |]. constructor; [| constructor].
    destruct Hlast as [Hlast | ->]; [| constructor].
    now apply matches_plus_class in Hlast as [_ Hlast].
  - intros (segs & last & -> & Hall).
    apply Forall_app in Hall as [Hsegs Hlast].
    apply Forall_cons in Hlast as [Hlast _].
    exists (concat (map (fun seg => seg ++ [DOT]) segs)), last.
    split; [reflexivity |]. split.
    + apply matches_star_intro, matches_loose_empty_pieces. now exists segs.
    + destruct last as [| c last]; [now right |].
      left. apply matches_plus_class. split; [discriminate | exact Hlast].
Qed.

Lemma component_units_no_dot seg :
  Forall (fun c => uri_component_unit c = true) seg -> DOT ∉ seg.
Proof.
  intros Hall Hin. rewrite Forall_forall in Hall.
  apply Hall, uri_component_unit_spec in Hin. tauto.
Qed.

(** Both patterns in terms of the components of the string. *)
Lemma test_loose_non_empty s :
  test REGEX_URI_LOOSE_NON_EMPTY s = true
  <-> Forall (fun seg => seg <> [] /\ Forall uri_unit seg) (split DOT s).
Proof.
  rewrite test_matches, matches_loose_non_empty. split.
  - intros (segs & last & -> & Hall).
    rewrite split_dotted.
    + eapply Forall_impl; [exact Hall |]. intros seg [Hne Hseg].
      split; [exact Hne |]. eapply Forall_impl; [exact Hseg |].
      intros c Hc. now apply uri_component_unit_spec in Hc.
    + apply Forall_app in Hall as [Hsegs _].
      eapply Forall_impl; [exact Hsegs |]. intros seg [_ Hseg].
      now apply component_units_no_dot.
    + apply Forall_app in Hall as [_ Hlast].
      apply Forall_cons in Hlast as [[_ Hlast] _].
      now apply component_units_no_dot.
  - intros Hall. destruct (split_join s) as (segs & last & Hsplit & Hs).
    exists segs, last. split; [exact Hs |]. rewrite <- Hsplit.
    pose proof (proj1 (Forall_forall _ _) (split_each_no_sep DOT s)) as Hdots.
    pose proof (proj1 (Forall_forall _ _) Hall) as Hsegs.
    apply Forall_forall. intros seg Hin.
    destruct (Hsegs seg Hin) as [Hne Hseg].
    split; [exact Hne |].
    apply Forall_forall. intros c Hc.
    apply uri_component_unit_spec.
    split; [exact (proj1 (Forall_forall _ _) Hseg c Hc) |].
    intros ->. now apply (Hdots seg Hin).
Qed.

Lemma test_loose_empty s :
  test REGEX_URI_LOOSE_EMPTY s = true <-> Forall uri_unit s.
Proof.
  rewrite test_matches, matches_loose_empty. split.
  - intros (segs & last & -> & Hall).
    apply Forall_forall. intros c Hc.
    pose proof (proj1 (Forall_forall _ _) Hall) as Hsegs.
    apply dotted_units in Hc as [[-> _] | [(seg & Hseg & Hc) | Hc]].
    + split; [reflexivity | discriminate].
    + assert (seg ∈ segs ++ [last]) as Hin
        by (apply elem_of_app; now left).
      apply Hsegs in Hin.
      pose proof (proj1 (Forall_forall _ _) Hin c Hc) as Hu.
      now apply uri_component_unit_spec in Hu.
    + assert (last ∈ segs ++ [last]) as Hin
        by (apply elem_of_app; right; apply list_elem_of_here).
      apply Hsegs in Hin.
      pose proof (proj1 (Forall_forall _ _) Hin c Hc) as Hu.
      now apply uri_component_unit_spec in Hu.
  - intros Hall. destruct (split_join s) as (segs & last & Hsplit & Hs).
    exists segs, last. split; [exact Hs |]. rewrite <- Hsplit.
    pose proof (proj1 (Forall_forall _ _) (split_each_no_sep DOT s)) as Hdots.
    pose proof (proj1 (Forall_forall _ _) Hall) as Hunits.
    apply Forall_forall. intros seg Hin.
    apply Forall_forall. intros c Hc.
    apply uri_component_unit_spec. split.
    + apply Hunits. rewrite Hs. apply dotted_units.
      apply list_elem_of_lookup in Hin as [i Hi].
      rewrite Hsplit in Hi.
      destruct (decide (i < length segs)%nat) as [Hlt | Hge].
      * rewrite lookup_app_l in Hi by exact Hlt.
        right; left. exists seg. split; [| exact Hc].
        now apply list_elem_of_lookup_2 in Hi.
      * rewrite lookup_app_r in Hi by lia.
        destruct (i - length segs)%nat as [| n]; [| now destruct n].
        injection Hi as <-. now right; right.
    + intros ->. now apply (Hdots seg Hin).
Qed.

Lemma split_nil_components s :
  Forall (fun seg => seg <> [] /\ Forall uri_unit seg) (split DOT s) -> s <> [].
Proof.
  intros Hall ->. simpl in Hall.
  apply Forall_cons in Hall as [[Hne _] _]. congruence.
Qed.

End Uri_facts.

(** ** The components of topic names and topic filters *)

Section Topic_components.

Lemma Number_toString_units z :
  Number_toString z <> []
  /\ Forall (fun c => is_digit c = true \/ c = 45) (Number_toString z).
Proof.
  assert (forall n, N_toString n <> []
                    /\ Forall (fun c => is_digit c = true \/ c = 45)
                         (N_toString n)) as HN.
  { intros n. split.
    - destruct (N_toString_nonempty n) as (c & s & -> & _). discriminate.
    - eapply Forall_impl; [apply uint_units_digits |]. intros c Hc. now left. }
  destruct z as [| p | p]; [apply HN | apply HN |].
  change (Number_toString (Z.neg p)) with (45 :: N_toString (N.pos p)).
  split; [discriminate |]. constructor; [now right | apply HN].
Qed.

Lemma sign_digit_uri c :
  is_digit c = true \/ c = 45 -> uri_unit c /\ c <> DOT.
Proof.
  intros [Hc | ->].
  - apply is_digit_plain in Hc as (_ & Hd & Hh & Hs & _).
    repeat split; assumption.
  - repeat split; discriminate.
Qed.

Lemma Number_toString_uri z :
  Number_toString z <> [] /\ Forall uri_unit (Number_toString z)
  /\ (DOT ∉ Number_toString z).
Proof.
  destruct (Number_toString_units z) as [Hne Hall].
  split; [exact Hne |]. split.
  - eapply Forall_impl; [exact Hall |]. intros c Hc.
    now apply sign_digit_uri in Hc.
  - intros Hin. apply (proj1 (Forall_forall _ _) Hall), sign_digit_uri in Hin.
    tauto.
Qed.

Lemma PROTOCOL_NAME_uri :
  PROTOCOL_NAME <> [] /\ Forall uri_unit PROTOCOL_NAME /\ (DOT ∉ PROTOCOL_NAME).
Proof.
  split; [discriminate |]. split.
  - repeat (apply Forall_cons_2; [split; [reflexivity | discriminate] |]).
    apply Forall_nil_2.
  - intros H. vm_compute in H.
    repeat (apply elem_of_cons in H as [H | H]; [discriminate H |]).
    now apply elem_of_nil in H.
Qed.

Lemma prefix_uri e :
  is_event_kind e = true ->
  exists a b c,
    _getEventTopicComponentPrefix e = Some [a; b; c]
    /\ Forall uri_unit [a; b; c].
Proof.
  intros H.
  destruct e; try discriminate H;
    match goal with
    | |- context [_getEventTopicComponentPrefix ?e] =>
        let p := eval vm_compute in (_getEventTopicComponentPrefix e) in
        change (_getEventTopicComponentPrefix e) with p
    end;
    (eexists _, _, _; split; [reflexivity |]);
    repeat (apply Forall_cons_2; [split; [reflexivity | discriminate] |]);
    apply Forall_nil_2.
Qed.

Lemma encode_filter_text f :
  (if truthy f then _encodeTopicComponent (tpl f) else [])
  = _encodeTopicComponent (filter_text f).
Proof. unfold filter_text. now destruct (truthy f). Qed.

Lemma filter_text_truthy f : truthy f = true <-> filter_text f <> [].
Proof.
  unfold filter_text. destruct f as [[| c f] |]; simpl;
    split; congruence.
Qed.

Lemma event_component_eq ty f :
  event_component ty f
  = tpl (_getEventTopicComponentPrefix ty)
    ++ _encodeTopicComponent (filter_text f).
Proof. unfold event_component. now rewrite encode_filter_text. Qed.

Lemma event_component_no_dot ty f :
  is_event_kind ty = true -> DOT ∉ event_component ty f.
Proof.
  intros Hk. destruct (prefix_spec ty Hk) as (a & b & c & Hp & Hd & _).
  rewrite event_component_eq, Hp. simpl tpl.
  rewrite elem_of_app. intros [H | H]; [now apply Hd |].
  now apply encode_no_dot in H.
Qed.

Lemma getTopicName_eq v ns ty f src corr :
  getTopicName v ns ty f src corr
  = PROTOCOL_NAME ++ [DOT] ++ Number_toString v ++ [DOT]
    ++ _encodeTopicComponent ns ++ [DOT] ++ event_component ty f ++ [DOT]
    ++ src ++ (if _isOneWayEvent ty then [] else [DOT] ++ tpl corr).
Proof.
  unfold getTopicName, event_component.
  assert (tpl (if truthy f
               then Some (tpl (_getEventTopicComponentPrefix ty)
                          ++ _encodeTopicComponent (tpl f))
               else _getEventTopicComponentPrefix ty)
          = tpl (_getEventTopicComponentPrefix ty)
            ++ (if truthy f then _encodeTopicComponent (tpl f) else [])) as ->.
  { destruct (truthy f); [reflexivity | now rewrite app_nil_r]. }
  destruct (_isOneWayEvent ty); simpl negb; cbv iota.
  - now rewrite app_nil_r.
  - now rewrite <- !app_assoc.
Qed.

Lemma getTopicFilter_eq v nsf ty f corrf :
  getTopicFilter v nsf ty f corrf
  = PROTOCOL_NAME ++ [DOT] ++ Number_toString v ++ [DOT]
    ++ (if truthy nsf then _encodeTopicComponent (tpl nsf) else [])
    ++ [DOT] ++ event_component ty f ++ [DOT]
    ++ (if _isOneWayEvent ty then []
        else [DOT] ++ (if truthy corrf then tpl corrf else [])).
Proof.
  unfold getTopicFilter, event_component.
  assert (tpl (if truthy f
               then Some (tpl (_getEventTopicComponentPrefix ty)
                          ++ _encodeTopicComponent (tpl f))
               else _getEventTopicComponentPrefix ty)
          = tpl (_getEventTopicComponentPrefix ty)
            ++ (if truthy f then _encodeTopicComponent (tpl f) else [])) as ->.
  { destruct (truthy f); [reflexivity | now rewrite app_nil_r]. }
  destruct (_isOneWayEvent ty); simpl negb; cbv iota.
  - reflexivity.
  - rewrite <- !app_assoc. repeat f_equal.
    destruct (truthy corrf); reflexivity.
Qed.

Lemma getTopicName_split v ns ty f src corr :
  is_event_kind ty = true ->
  DOT ∉ src ->
  (_isOneWayEvent ty = false -> DOT ∉ tpl corr) ->
  split DOT (getTopicName v ns ty f src corr)
  = [PROTOCOL_NAME; Number_toString v; _encodeTopicComponent ns;
     event_component ty f; src]
    ++ (if _isOneWayEvent ty then [] else [tpl corr]).
Proof.
  intros Hk Hsrc Hcorr. rewrite getTopicName_eq.
  pose proof PROTOCOL_NAME_uri as (_ & _ & Hp).
  pose proof (Number_toString_uri v) as (_ & _ & Hv).
  pose proof (encode_no_dot ns) as Hns.
  pose proof (event_component_no_dot ty f Hk) as Hev.
  rewrite !split_app_sep by assumption.
  destruct (_isOneWayEvent ty).
  - rewrite app_nil_r, split_no_sep by assumption. reflexivity.
  - rewrite split_app_sep by assumption.
    rewrite split_no_sep by auto. reflexivity.
Qed.

Lemma getTopicFilter_split v nsf ty f corrf :
  is_event_kind ty = true ->
  (truthy corrf = true -> DOT ∉ tpl corrf) ->
  split DOT (getTopicFilter v nsf ty f corrf)
  = [PROTOCOL_NAME; Number_toString v;
     if truthy nsf then _encodeTopicComponent (tpl nsf) else [];
     event_component ty f; []]
    ++ (if _isOneWayEvent ty then []
        else [if truthy corrf then tpl corrf else []]).
Proof.
  intros Hk Hcorr. rewrite getTopicFilter_eq.
  pose proof PROTOCOL_NAME_uri as (_ & _ & Hp).
  pose proof (Number_toString_uri v) as (_ & _ & Hv).
  assert (DOT ∉ (if truthy nsf then _encodeTopicComponent (tpl nsf) else []))
    as Hns by (destruct (truthy nsf);
               [apply encode_no_dot | apply not_elem_of_nil]).
  pose proof (event_component_no_dot ty f Hk) as Hev.
  rewrite !split_app_sep by assumption.
  destruct (_isOneWayEvent ty).
  - reflexivity.
  - change ([DOT] ++ ?x) with ([] ++ [DOT] ++ x).
    rewrite split_app_sep by apply not_elem_of_nil.
    rewrite split_no_sep; [reflexivity |].
    destruct (truthy corrf); [auto | apply not_elem_of_nil].
Qed.

Lemma getTopicName_isCoatyTopicLike v ns ty f src corr :
  isCoatyTopicLike (getTopicName v ns ty f src corr) = true.
Proof.
  rewrite getTopicName_eq. unfold isCoatyTopicLike, PROTOCOL_NAME_PREFIX.
  change (PROTOCOL_NAME ++ [DOT] ++ ?x) with ((PROTOCOL_NAME ++ str ".") ++ x).
  apply startsWith_app.
Qed.

(** [createByName] on a topic with at least four components. *)
Lemma createByName_components t p0 v ns ev rest :
  isCoatyTopicLike t = true ->
  split DOT t = p0 :: v :: ns :: ev :: rest ->
  createByName t
  = Normal (Some
      {| _version := parseInt10 (Some v);
         _namespace := _decodeTopicComponent ns;
         _eventType := (_parseEvent ev).1;
         _eventTypeFilter :=
           if truthy (_parseEvent ev).2
           then Some (_decodeTopicComponent (tpl (_parseEvent ev).2))
           else (_parseEvent ev).2;
         _sourceId := rest !! 0%nat;
         _correlationId :=
           if decide (rest !! 1%nat = Some []) then None else rest !! 1%nat |}).
Proof.
  intros Hl Hs. unfold createByName. rewrite Hl, Hs.
  cbn [negb lookup list_lookup]. destruct (_parseEvent ev). reflexivity.
Qed.

Lemma parseEvent_component ty f :
  is_event_kind ty = true ->
  _parseEvent (event_component ty f)
  = (Some ty,
     if truthy f then Some (_encodeTopicComponent (tpl f)) else None).
Proof.
  intros Hk. destruct (prefix_spec ty Hk) as (a & b & c & Hp & _ & Hty).
  unfold event_component. rewrite Hp. simpl tpl.
  destruct (truthy f) eqn:Hf.
  - change ([a; b; c] ++ ?x) with (a :: b :: c :: x).
    rewrite parseEvent_filter, Hty; [reflexivity |].
    apply encode_nonempty. destruct f as [[| ? ?] |]; discriminate.
  - now rewrite app_nil_r, parseEvent_prefix, Hty.
Qed.

(** Parsing a composed topic name gives back what it was composed
    of. *)
Lemma topic_name_parsed v ns ty f src corr :
  valid_descriptor v ns ty f src corr ->
  createByName (getTopicName v ns ty f src corr)
  = Normal (Some {| _version := Int v;
                    _namespace := ns;
                    _eventType := Some ty;
                    _eventTypeFilter := f;
                    _sourceId := Some src;
                    _correlationId := corr |}).
Proof.
  intros [[Hv _] Hk Hf Hns Hsrc Hcorr].
  assert (_isOneWayEvent ty = false -> DOT ∉ tpl corr) as Hcd.
  { intros Hw. rewrite Hw in Hcorr.
    now destruct Hcorr as (c & -> & _ & Hc). }
  rewrite (createByName_components _ PROTOCOL_NAME (Number_toString v)
             (_encodeTopicComponent ns) (event_component ty f)
             (src :: if _isOneWayEvent ty then [] else [tpl corr])).
  - rewrite parseEvent_component by exact Hk.
    rewrite <- (app_nil_r (Number_toString v)).
    rewrite parseInt10_toString by (lia || exact I).
    rewrite decode_encode by exact Hns.
    cbn [fst snd].
    match goal with
    | |- Normal (Some (WampTopic.mk _ _ _ ?x ?y ?z)) = _ =>
        assert (x = f) as ->; [| assert (z = corr) as ->]
    end.
    + destruct f as [[| c f] |]; simpl in Hf; simpl truthy; cbv iota.
      * destruct Hf as [Hf _]. congruence.
      * destruct Hf as [Hne Hf]. simpl tpl.
        destruct (_encodeTopicComponent (c :: f)) as [| c' f'] eqn:He.
        -- now apply encode_nonempty in He.
        -- simpl. now rewrite <- He, decode_encode.
      * reflexivity.
    + destruct (_isOneWayEvent ty).
      * now subst corr.
      * destruct Hcorr as (c & -> & Hne & _). simpl.
        case_decide; [congruence | reflexivity].
    + now destruct (_isOneWayEvent ty).
  - apply getTopicName_isCoatyTopicLike.
  - rewrite getTopicName_split by assumption.
    now destruct (_isOneWayEvent ty).
Qed.

(** The two tables of event type codes. *)
Lemma getEventType_prefix p e :
  _getEventType p = Some e -> _getEventTopicComponentPrefix e = Some p.
Proof.
  unfold _getEventType.
  let table := eval vm_compute in EVENT_TYPE_TOPIC_COMPONENTS in
  change EVENT_TYPE_TOPIC_COMPONENTS with table.
  cbn [Map_get].
  repeat (destruct (decide (_ = p)) as [<- | _];
          [intros [= <-]; vm_compute; reflexivity |]).
  discriminate.
Qed.

Lemma prefix_getEventType p e :
  _getEventTopicComponentPrefix e = Some p -> _getEventType p = Some e.
Proof.
  intros H. destruct e; vm_compute in H; try discriminate H;
    injection H as <-; vm_compute; reflexivity.
Qed.

Lemma encode_nil_iff s : _encodeTopicComponent s = [] <-> s = [].
Proof.
  split; [| now intros ->].
  destruct s as [| c s]; [reflexivity |]. intros H.
  now apply encode_nonempty in H.
Qed.

Lemma encode_uri s :
  Forall uri_unit (_encodeTopicComponent s) <-> HASH ∉ s.
Proof.
  rewrite <- encode_hash. split.
  - intros Hall Hin. apply (proj1 (Forall_forall _ _) Hall) in Hin.
    now destruct Hin.
  - intros Hh. apply Forall_forall. intros c Hc. split.
    + now apply (proj1 (Forall_forall _ _) (encode_no_dot_ws s)) in Hc.
    + intros ->. now apply Hh.
Qed.

Lemma encode_injective a b :
  NUL ∉ a -> NUL ∉ b ->
  _encodeTopicComponent a = _encodeTopicComponent b -> a = b.
Proof.
  intros Ha Hb H. rewrite <- (decode_encode a Ha), <- (decode_encode b Hb).
  now rewrite H.
Qed.

Lemma event_component_uri ty f :
  is_event_kind ty = true ->
  event_component ty f <> []
  /\ (Forall uri_unit (event_component ty f) <-> HASH ∉ filter_text f).
Proof.
  intros Hk. destruct (prefix_uri ty Hk) as (a & b & c & Hp & Hu).
  rewrite event_component_eq, Hp. simpl tpl.
  split; [discriminate |].
  rewrite Forall_app, encode_uri. tauto.
Qed.

End Topic_components.

(** ** Further facts about the handlers of the binding *)

Section Handlers.

Lemma drainPublications_disarmed s :
  _isPublishingDeferred s = false -> _drainPublications s = (Normal tt, s).
Proof.
  intros H. unfold _drainPublications, bind, get. now rewrite H.
Qed.

Lemma drainPublications_armed s :
  _isPublishingDeferred s = true ->
  _drainPublications s
  = _doDrainPublications (set_isPublishingDeferred false s).
Proof.
  intros H. unfold _drainPublications. unfold bind at 1, get at 1.
  now rewrite H.
Qed.

(** A drain of a queue whose publications are not acknowledged. *)
Lemma doDrain_unacknowledged q : forall s,
  online s = true ->
  _pendingPublicationItems s = q ->
  Forall (fun i => acknowledged i = false) q ->
  _doDrainPublications s
  = (Normal tt,
     drained s [] (calls s ++ map publish_call q) true (promises s)).
Proof.
  induction q as [| item rest IH]; intros s Ho Hq Hall.
  - rewrite doDrain_empty by exact Hq. f_equal.
    destruct s; cbn in *. subst. now rewrite app_nil_r.
  - apply Forall_cons in Hall as [Hitem Hrest].
    rewrite (doDrain_head s item rest Ho Hq), Hitem.
    rewrite IH; [| destruct s; exact Ho | destruct s; reflexivity | exact Hrest].
    f_equal. destruct s; cbn. unfold drained; cbn.
    now rewrite <- app_assoc.
Qed.

Lemma onPublish_not_raw e s :
  EventLike.eventType e <> Raw ->
  onPublish e s = (_addPublicationItem e false false ;; _drainPublications) s.
Proof.
  intros H. unfold onPublish.
  destruct (decide (EventLike.eventType e = Raw)); [contradiction |].
  reflexivity.
Qed.

Lemma onPublish_raw_eq e topic s :
  EventLike.eventType e = Raw ->
  EventLike.eventTypeFilter e = Some topic ->
  onPublish e s
  = if isCoatyTopicLike topic || negb (isValidTopic (Some topic) false)
    then (Normal tt, s)
    else (_addPublicationItem e false false ;; _drainPublications) s.
Proof.
  intros Hty Hf. unfold onPublish, filter_isCoatyTopicLike.
  destruct (decide (EventLike.eventType e = Raw)); [| contradiction].
  rewrite Hf. unfold bind at 1, bind at 1, ret at 1, ret at 1.
  now destruct (isCoatyTopicLike topic || negb (isValidTopic (Some topic) false)).
Qed.

(** The steps of [onopen] up to the join events. *)
Lemma transport_open_steps s c j session r :
  _connection s = Some c ->
  _joinOptions s = Some j ->
  Session.isOpen session = true ->
  Session.socket_open session = true ->
  refs_valid s ->
  (addJoinEvents (JoinOptions.joinEvents j) ;; _drainPublications)
    (subscribed s j session) = (Normal tt, r) ->
  transport_open session s = (Normal tt, r).
Proof.
  intros Hc Hj Ho Hso Hv Hrest.
  unfold transport_open, transport_session, connection_onopen.
  unfold bind at 1, modify at 1. rewrite Hc.
  set (s0 := set_connection _ s).
  assert (online s0 = true) as Ho0.
  { subst s0. destruct s; unfold online; cbn. now rewrite Ho, Hso. }
  set (body := bind _ _).
  enough (body s0 = (Normal tt, r)) as Hb.
  { unfold try_catch. now rewrite Hb. }
  subst body.
  unfold bind at 1, modify at 1.
  set (s1 := set_sessionIdLogItem _ s0).
  unfold bind at 1, get at 1.
  assert (_connection s1 = Some (Connection.mk (Some session) true)) as ->
    by (subst s1 s0; destruct s; reflexivity).
  unfold bind at 1, ret at 1.
  unfold bind at 1, emit_communicationState at 1, modify at 1.
  set (s2 := set_emitted _ s1).
  assert (s2 = opened s session) as Hs2
    by (subst s2 s1 s0; destruct s; reflexivity).
  clearbody s2. subst s2. clear s1.
  assert (online (opened s session) = true) as Ho2
    by (destruct s; exact Ho0).
  unfold bind at 1.
  rewrite (addSessionTestaments_open session (opened s session) j)
    by (assumption || (destruct s; exact Hj)).
  set (s3 := set_calls _ _).
  assert (online s3 = true) as Ho3 by (destruct s; exact Ho2).
  assert (forall r, r ∈ _issuedSubscriptionItems s3 ->
                    (r < length (store s3))%nat) as Hv3
    by (destruct s; exact Hv).
  unfold bind at 1, get at 1. unfold bind at 1.
  rewrite (subscribeItems_online _ s3 Ho3 Hv3).
  set (s4 := set_promises _ _).
  unfold bind at 1, get at 1.
  assert (_joinOptions s4 = Some j) as -> by (destruct s; exact Hj).
  assert (s4 = subscribed s j session) as ->.
  { subst s4 s3. destruct s; cbn.
    unfold subscribed, opened, testament_calls; cbn.
    now rewrite <- !app_assoc. }
  exact Hrest.
Qed.

Lemma subscribed_fields s j session :
  online (subscribed s j session) = Session.isOpen session && Session.socket_open session
  /\ _pendingPublicationItems (subscribed s j session) = _pendingPublicationItems s
  /\ _isPublishingDeferred (subscribed s j session) = _isPublishingDeferred s
  /\ options (subscribed s j session) = options s.
Proof. destruct s. repeat split. Qed.

End Handlers.

Section Registry_more.

(** [_removeSubscriptionItem] in terms of the key of the event. *)
Lemma removeSubscriptionItem_eq e s :
  _removeSubscriptionItem e s
  = match list_find (fun r => key_of <$> store s !! r = Some (event_key s e))
            (_issuedSubscriptionItems s) with
    | None => (Normal tt, s)
    | Some (index, _) =>
        _unsubscribeItems (take 1 (drop index (_issuedSubscriptionItems s)))
          (set_issuedSubscriptionItems
             (delete index (_issuedSubscriptionItems s)) s)
    end.
Proof.
  unfold _removeSubscriptionItem, event_key.
  unfold bind at 1, get at 1.
  destruct (_getTopicFilterFor s e) as [tf m]. cbn [fst snd].
  unfold findIndex.
  rewrite (list_find_ext _
             (fun r => key_of <$> store s !! r
                       = Some (EventLike.eventType e, tf, m)))
    by (intros r; apply predicate_key).
  destruct (list_find _ _) as [[index r] |]; reflexivity.
Qed.

Lemma find_key_fresh s k :
  Some k ∉ keys s ->
  list_find (fun r => key_of <$> store s !! r = Some k)
    (_issuedSubscriptionItems s) = None.
Proof.
  intros Hfresh. apply list_find_None, Forall_forall.
  intros r Hr Hk. apply Hfresh. unfold keys, keys_in.
  apply list_elem_of_fmap. exists r. split; [symmetry; exact Hk | exact Hr].
Qed.

Lemma find_key_at st l index r k :
  NoDup (keys_in st l) ->
  l !! index = Some r ->
  key_of <$> st !! r = Some k ->
  list_find (fun r => key_of <$> st !! r = Some k) l = Some (index, r).
Proof.
  intros Hnd Hr Hk. apply list_find_Some.
  split; [exact Hr |]. split; [exact Hk |].
  intros j y Hj Hlt Hy.
  assert (j = index); [| lia].
  apply (NoDup_lookup (keys_in st l) j index (Some k) Hnd).
  - unfold keys_in. rewrite list_lookup_fmap, Hj. cbn. now f_equal.
  - unfold keys_in. rewrite list_lookup_fmap, Hr. cbn. now f_equal.
Qed.

Lemma take_drop_lookup {A} (l : list A) i x :
  l !! i = Some x -> take 1 (drop i l) = [x].
Proof.
  revert i. induction l as [| y l IH]; intros [| i] H; try discriminate H.
  - injection H as ->. reflexivity.
  - now apply IH.
Qed.

(** No key remains twice, so deleting the item of a key leaves no item
    of that key. *)
Lemma filter_key_delete st l index r k :
  NoDup (keys_in st l) ->
  l !! index = Some r ->
  key_of <$> st !! r = Some k ->
  filter (fun r => key_of <$> st !! r = Some k) (delete index l) = [].
Proof.
  intros Hnd Hr Hk. apply filter_none. intros y Hy Hyk.
  apply list_elem_of_lookup in Hy as [j Hj].
  assert (exists j', j' <> index /\ l !! j' = Some y) as (j' & Hne & Hj').
  { destruct (decide (j < index)%nat) as [Hlt | Hge].
    - exists j. split; [lia |].
      now rewrite list_lookup_delete_lt in Hj by exact Hlt.
    - exists (S j). split; [lia |].
      now rewrite list_lookup_delete_ge in Hj by lia. }
  apply Hne.
  apply (NoDup_lookup (keys_in st l) j' index (Some k) Hnd).
  - unfold keys_in. rewrite list_lookup_fmap, Hj'. cbn. now f_equal.
  - unfold keys_in. rewrite list_lookup_fmap, Hr. cbn. now f_equal.
Qed.

Lemma subscribe_offline r s :
  connection_isOpen s = false -> subscribe r s = (Normal tt, s).
Proof.
  intros H. unfold subscribe, bind, get. now rewrite H.
Qed.

(** [_addSubscriptionItem] for a key that the registry does not hold,
    while no session is open. *)
Lemma addSubscriptionItem_offline e s :
  refs_valid s ->
  connection_isOpen s = false ->
  Some (event_key s e) ∉ keys s ->
  _addSubscriptionItem e s
  = (Normal tt,
     set_issuedSubscriptionItems
       (_issuedSubscriptionItems s ++ [length (store s)])
       (set_store
          (store s ++ [SubscriptionItem.mk (event_key s e).1.1
                         (event_key s e).1.2 (event_key s e).2
                         (isKwargsPayload_of e) None]) s)).
Proof.
  intros Hv Hoff Hfresh.
  unfold _addSubscriptionItem. unfold bind at 1, get at 1.
  unfold event_key in *.
  destruct (_getTopicFilterFor s e) as [tf m]. cbn [fst snd] in *.
  unfold bind at 1, new_item at 1, bind at 1, get at 1, bind at 1,
    modify at 1, ret at 1.
  set (item := SubscriptionItem.mk _ _ _ _ _).
  set (s1 := set_store (store s ++ [item]) s).
  unfold bind at 1, get at 1.
  replace (_issuedSubscriptionItems s1) with (_issuedSubscriptionItems s)
    by (destruct s; reflexivity).
  assert (list_find (_subscriptionItemPredicate s1 (EventLike.eventType e) tf m)
            (_issuedSubscriptionItems s) = None) as Hfind.
  { apply list_find_None, Forall_forall. intros r Hr HP.
    apply predicate_key in HP.
    replace (store s1) with (store s ++ [item]) in HP
      by (destruct s; reflexivity).
    rewrite lookup_app_l in HP by (now apply Hv).
    apply Hfresh. unfold keys, keys_in. apply list_elem_of_fmap.
    exists r. split; [symmetry; exact HP | exact Hr]. }
  unfold findIndex. rewrite Hfind. cbn [fmap option_fmap option_map].
  unfold bind at 1, modify at 1.
  unfold _subscribeItems. cbn [forEach]. unfold bind at 1.
  rewrite subscribe_offline by (destruct s; exact Hoff).
  reflexivity.
Qed.

End Registry_more.

Section Registry_views.

Lemma registry_unsubscribeItems_run items s :
  registry_view (_unsubscribeItems items s).2 = registry_view s.
Proof. apply registry_unsubscribeItems. Qed.

Lemma registry_view_eq_parts s issued st o c :
  registry_view s = (issued, st, o, c) ->
  _issuedSubscriptionItems s = issued /\ store s = st.
Proof. unfold registry_view. intros [= -> -> _ _]. auto. Qed.

End Registry_views.

Section Subscribe_checks.

(** [onSubscribe] for an IO route, internal and external. *)
Lemma onSubscribe_io e s route :
  EventLike.eventTypeFilter e = Some route ->
  EventLike.eventType e = IoValue ->
  onSubscribe e false s
  = (if negb (isValidTopic (Some route) false)
     then (Normal tt, s) else _addSubscriptionItem e s)
  /\ onSubscribe e true s
     = (if isCoatyTopicLike route || negb (isValidTopic (Some route) false)
        then (Normal tt, s) else _addSubscriptionItem e s).
Proof.
  intros Hf Hty. unfold onSubscribe, filter_isCoatyTopicLike. rewrite Hf, Hty.
  destruct (decide (IoValue = Raw)) as [H | _]; [discriminate H |].
  destruct (decide (IoValue = IoValue)) as [_ | H]; [| contradiction].
  split.
  - unfold bind at 1, ret at 1. unfold bind at 1, bind at 1, ret at 1, ret at 1.
    cbn [orb]. now destruct (negb (isValidTopic (Some route) false)).
  - unfold bind at 1, ret at 1. unfold bind at 1, bind at 1, ret at 1, ret at 1.
    now destruct (isCoatyTopicLike route || negb (isValidTopic (Some route) false)).
Qed.

End Subscribe_checks.

Section Dispatch.

Lemma createByName_other t :
  isCoatyTopicLike t = false -> createByName t = Normal None.
Proof. intros H. unfold createByName. now rewrite H. Qed.

Lemma createByName_short t :
  isCoatyTopicLike t = true ->
  (length (split DOT t) < 4)%nat ->
  createByName t = Throw TypeError.
Proof.
  intros Hl Hlen. unfold createByName. rewrite Hl. cbn [negb].
  destruct (split DOT t) as [| p0 [| v [| ns [| ev rest]]]];
    cbn [lookup list_lookup]; try reflexivity.
  cbn [length] in Hlen. lia.
Qed.

Lemma createByName_sourceId t :
  isCoatyTopicLike t = true ->
  (4 <= length (split DOT t))%nat ->
  exists topic,
    createByName t = Normal (Some topic)
    /\ _sourceId topic = split DOT t !! 4%nat.
Proof.
  intros Hl Hlen.
  destruct (split DOT t) as [| p0 [| v [| ns [| ev rest]]]] eqn:Hs;
    cbn [length] in Hlen; try lia.
  rewrite (createByName_components _ _ _ _ _ _ Hl Hs).
  eexists. split; reflexivity.
Qed.

Lemma composed_kind_neither e :
  is_composed_kind e = true -> e <> Raw /\ e <> IoValue.
Proof.
  intros H. destruct e; vm_compute in H; split; congruence.
Qed.

End Dispatch.

Section Frames_more.

Lemma registry_session_call c : preserves registry_view (session_call c).
Proof. unfold session_call, send_on. frame. Qed.

Lemma registry_addPublicationItem e first once :
  preserves registry_view (_addPublicationItem e first once).
Proof. unfold _addPublicationItem. frame. Qed.

Lemma registry_doDrain_rec fuel :
  preserves registry_view (_doDrainPublications_rec fuel).
Proof.
  induction fuel as [| fuel IH]; cbn [_doDrainPublications_rec].
  - apply preserves_ret.
  - unfold _doDrainPublications_body, await. frame;
      try apply registry_session_call. exact IH.
Qed.

Lemma registry_drainPublications : preserves registry_view _drainPublications.
Proof.
  unfold _drainPublications, _doDrainPublications. frame.
  apply registry_doDrain_rec.
Qed.

Lemma registry_onPublish e : preserves registry_view (onPublish e).
Proof.
  unfold onPublish, filter_isCoatyTopicLike. frame;
    first [apply registry_addPublicationItem
          | apply registry_drainPublications].
Qed.

Lemma queue_session_call c : preserves queue_view (session_call c).
Proof. unfold session_call, send_on. frame. Qed.

Lemma queue_subscribe item : preserves queue_view (subscribe item).
Proof. unfold subscribe, await. frame; apply queue_session_call. Qed.

Lemma queue_unsubscribe item : preserves queue_view (unsubscribe item).
Proof. unfold unsubscribe, await. frame; apply queue_session_call. Qed.

Lemma queue_addSubscriptionItem e :
  preserves queue_view (_addSubscriptionItem e).
Proof.
  unfold _addSubscriptionItem, new_item, _subscribeItems, _unsubscribeItems.
  apply preserves_bind; [apply preserves_get | intros s].
  destruct (_getTopicFilterFor s e) as [topicFilter match_].
  frame; first [apply queue_subscribe | apply queue_unsubscribe].
Qed.

Lemma queue_removeSubscriptionItem e :
  preserves queue_view (_removeSubscriptionItem e).
Proof.
  unfold _removeSubscriptionItem, _unsubscribeItems.
  apply preserves_bind; [apply preserves_get | intros s].
  destruct (_getTopicFilterFor s e) as [topicFilter match_].
  frame. apply queue_unsubscribe.
Qed.

Lemma queue_onSubscribe e ext : preserves queue_view (onSubscribe e ext).
Proof.
  unfold onSubscribe, filter_isCoatyTopicLike. frame;
    apply queue_addSubscriptionItem.
Qed.

Lemma settled_session_call c : preserves settled_view (session_call c).
Proof. unfold session_call, send_on. frame. Qed.

Lemma settled_doDrain_rec fuel :
  preserves settled_view (_doDrainPublications_rec fuel).
Proof.
  induction fuel as [| fuel IH]; cbn [_doDrainPublications_rec].
  - apply preserves_ret.
  - unfold _doDrainPublications_body, await. frame;
      try apply settled_session_call. exact IH.
Qed.

Lemma settled_settle i o : preserves settled_view (settle i o).
Proof.
  unfold settle, publish_then, publish_catch, subscribe_then,
    subscribe_catch, unsubscribe_settled, assign_subscription,
    _doDrainPublications.
  frame. apply settled_doDrain_rec.
Qed.

End Frames_more.

Section Handles.

Lemma removeSubscriptionItem_at e s index r i :
  NoDup (keys s) ->
  _issuedSubscriptionItems s !! index = Some r ->
  store s !! r = Some i ->
  key_of i = event_key s e ->
  _removeSubscriptionItem e s
  = _unsubscribeItems [r]
      (set_issuedSubscriptionItems
         (delete index (_issuedSubscriptionItems s)) s).
Proof.
  intros Hnd Hr Hi Hk. rewrite removeSubscriptionItem_eq.
  rewrite (find_key_at (store s) (_issuedSubscriptionItems s) index r
             (event_key s e) Hnd Hr)
    by (rewrite Hi; cbn; now f_equal).
  now rewrite (take_drop_lookup _ index r Hr).
Qed.

Lemma unsubscribeItems_live r i h s :
  deref s r = Some i ->
  SubscriptionItem.subscription i = Some h ->
  online s = true ->
  _unsubscribeItems [r] s
  = (Normal tt,
     set_promises (promises s ++ [UnsubscribePromise r])
       (set_calls (calls s ++ [Unsubscribe h]) s)).
Proof.
  intros Hd Hh Ho. unfold _unsubscribeItems. cbn [forEach].
  unfold bind at 1, unsubscribe at 1, bind at 1, get at 1. rewrite Hd, Hh.
  assert (exists c, _connection s = Some c) as [c ->].
  { unfold online in Ho. destruct (_connection s); [eauto | discriminate]. }
  unfold bind at 1. rewrite (session_call_online _ s Ho).
  unfold await, modify, ret. destruct s; reflexivity.
Qed.

Lemma unsubscribeItems_idle r i s :
  deref s r = Some i ->
  SubscriptionItem.subscription i = None \/ _connection s = None ->
  _unsubscribeItems [r] s = (Normal tt, s).
Proof.
  intros Hd Hnone. unfold _unsubscribeItems. cbn [forEach].
  unfold bind at 1, unsubscribe at 1, bind at 1, get at 1. rewrite Hd.
  destruct Hnone as [-> | ->]; [reflexivity |].
  now destruct (SubscriptionItem.subscription i).
Qed.

(** [_addSubscriptionItem] for a key that the registry does not hold,
    on an open session. *)
Lemma addSubscriptionItem_online e s :
  refs_valid s ->
  online s = true ->
  Some (event_key s e) ∉ keys s ->
  _addSubscriptionItem e s
  = (Normal tt,
     set_promises (promises s ++ [SubscribePromise (length (store s))])
       (set_calls
          (calls s ++ [Subscribe (length (store s)) (event_key s e).1.2
                         (event_key s e).2])
          (set_issuedSubscriptionItems
             (_issuedSubscriptionItems s ++ [length (store s)])
             (set_store
                (store s ++ [SubscriptionItem.mk (event_key s e).1.1
                               (event_key s e).1.2 (event_key s e).2
                               (isKwargsPayload_of e) None]) s)))).
Proof.
  intros Hv Ho Hfresh.
  unfold _addSubscriptionItem. unfold bind at 1, get at 1.
  unfold event_key in *.
  destruct (_getTopicFilterFor s e) as [tf m]. cbn [fst snd] in *.
  unfold bind at 1, new_item at 1, bind at 1, get at 1, bind at 1,
    modify at 1, ret at 1.
  set (item := SubscriptionItem.mk _ _ _ _ _).
  set (s1 := set_store (store s ++ [item]) s).
  unfold bind at 1, get at 1.
  change (_issuedSubscriptionItems s1) with (_issuedSubscriptionItems s).
  assert (list_find (_subscriptionItemPredicate s1 (EventLike.eventType e) tf m)
            (_issuedSubscriptionItems s) = None) as Hfind.
  { apply list_find_None, Forall_forall. intros r Hr HP.
    apply predicate_key in HP.
    change (store s1) with (store s ++ [item]) in HP.
    rewrite lookup_app_l in HP by (now apply Hv).
    apply Hfresh. unfold keys, keys_in. apply list_elem_of_fmap.
    exists r. split; [symmetry; exact HP | exact Hr]. }
  unfold findIndex. rewrite Hfind. cbn [fmap option_fmap option_map].
  unfold bind at 1, modify at 1.
  set (s2 := set_issuedSubscriptionItems _ s1).
  assert (online s2 = true) as Ho2 by exact Ho.
  rewrite (subscribeItems_online [length (store s)] s2 Ho2).
  2:{ intros r Hr. apply list_elem_of_singleton in Hr. subst r.
      change (store s2) with (store s ++ [item]).
      rewrite length_app. cbn. lia. }
  f_equal. cbn [map]. unfold subscribe_call.
  change (store s2) with (store s ++ [item]).
  rewrite lookup_app_r, Nat.sub_diag by lia. reflexivity.
Qed.

Lemma settle_subscribe_fulfilled i r h s :
  promises s !! i = Some (SubscribePromise r) ->
  settle i (Fulfilled h) s
  = (Normal tt,
     set_store (alter (SubscriptionItem.set_subscription (Some h)) r (store s))
       (set_promises (delete i (promises s)) s)).
Proof.
  intros Hp. unfold settle. unfold bind at 1, get at 1. rewrite Hp.
  reflexivity.
Qed.

Lemma keys_in_alter v r st l :
  keys_in (alter (SubscriptionItem.set_subscription v) r st) l = keys_in st l.
Proof.
  unfold keys_in. apply list_fmap_ext. intros j x _.
  destruct (decide (x = r)) as [-> | Hne].
  - rewrite list_lookup_alter_eq. now destruct (st !! r).
  - now rewrite list_lookup_alter_ne by congruence.
Qed.

End Handles.

(** ** Further facts about the session lifecycle *)

Section Lifecycle_more.

Lemma getTopicFor_options s s' e :
  options s' = options s -> _getTopicFor s' e = _getTopicFor s e.
Proof. intros H. unfold _getTopicFor. now rewrite H. Qed.

Lemma item_of_options s s' e :
  options s' = options s -> item_of s' e = item_of s e.
Proof. intros H. unfold item_of. now rewrite (getTopicFor_options s s' e H). Qed.



(** A session that opens after the binding has dropped its connection:
    [onopen] is abandoned before it emits [Online]. *)
Lemma transport_open_dropped session s :
  _connection s = None ->
  transport_open session s = (Normal tt, reset_state s).
Proof.
  intros Hc. unfold transport_open, transport_session.
  unfold bind at 1, modify at 1. rewrite Hc.
  unfold connection_onopen, try_catch.
  unfold bind at 1, modify at 1. unfold bind at 1, get at 1.
  change (_connection (set_sessionIdLogItem _ s)) with (_connection s).
  rewrite Hc. unfold bind at 1, throw at 1. now rewrite reset_eq.
Qed.

Lemma onUnjoin_eq s :
  onUnjoin s = if connected s then (Normal tt, s) else (Normal tt, reset_state s).
Proof.
  unfold onUnjoin, connected, bind, get.
  destruct (_connection s) as [c |];
    [destruct (Connection.isConnected c) |]; try reflexivity;
    apply reset_eq.
Qed.

Lemma onJoin_created j s :
  onJoin j true s
  = (Normal tt,
     set_connection (Some (Connection.mk (Some Session.fresh) true))
       (set_joinOptions (Some j) s)).
Proof. reflexivity. Qed.

Lemma onJoin_unsupported j s :
  onJoin j false s = (Normal tt, reset_state s).
Proof.
  unfold onJoin, connection_open, bind, modify. cbn [connection_onclose].
  now rewrite reset_eq.
Qed.

Lemma quiet_onPublish e : preserves emitted (onPublish e).
Proof.
  unfold onPublish, filter_isCoatyTopicLike. frame; auto with quiet.
Qed.

Lemma quiet_onSubscribe e ext : preserves emitted (onSubscribe e ext).
Proof.
  unfold onSubscribe, filter_isCoatyTopicLike. frame; auto with quiet.
Qed.





End Lifecycle_more.

(** ** Further properties of [WampTopic] *)

Section Topic_validity.

Lemma isValidTopic_nonempty name forSubscription :
  name <> [] ->
  isValidTopic (Some name) forSubscription
  = if forSubscription
    then RegExp.test REGEX_URI_LOOSE_EMPTY name
    else RegExp.test REGEX_URI_LOOSE_NON_EMPTY name.
Proof. destruct name; [congruence | reflexivity]. Qed.

Lemma getTopicName_nonempty v ns ty f src corr :
  getTopicName v ns ty f src corr <> [].
Proof. rewrite getTopicName_eq. discriminate. Qed.

Lemma getTopicFilter_nonempty v nsf ty f corrf :
  getTopicFilter v nsf ty f corrf <> [].
Proof. rewrite getTopicFilter_eq. discriminate. Qed.

Lemma Forall_uri_dot : Forall uri_unit [DOT].
Proof. constructor; [split; [reflexivity | discriminate] | constructor]. Qed.

Lemma filter_text_uri o :
  Forall uri_unit (if truthy o then _encodeTopicComponent (tpl o) else [])
  <-> HASH ∉ filter_text o.
Proof. rewrite encode_filter_text. apply encode_uri. Qed.

End Topic_validity.

(** X1: [isValidTopic] for a publication accepts exactly the names whose
    dot-separated components are all non-empty and free of white space
    and [#]; in particular it rejects the empty name. *)
Theorem isValidTopic_publication (name : jsstring) :
  isValidTopic (Some name) false = true
  <-> Forall (fun seg => seg <> [] /\ Forall uri_unit seg) (split DOT name).
Proof.
  destruct name as [| c name].
  - split; [discriminate |]. intros H. now apply split_nil_components in H.
  - rewrite isValidTopic_nonempty by discriminate. apply test_loose_non_empty.
Qed.

(** X2: [isValidTopic] for a subscription accepts exactly the non-empty
    names without white space and [#]; components may be empty, so every
    name that is valid for a publication is valid for a subscription. *)
Theorem isValidTopic_subscription (name : jsstring) :
  (isValidTopic (Some name) true = true
   <-> name <> [] /\ Forall uri_unit name)
  /\ (isValidTopic (Some name) false = true ->
      isValidTopic (Some name) true = true)
  /\ isValidTopic None true = false
  /\ isValidTopic None false = false.
Proof.
  assert (isValidTopic (Some name) true = true
          <-> name <> [] /\ Forall uri_unit name) as Hsub.
  { destruct name as [| c name].
    - split; [discriminate | intros [H _]; congruence].
    - rewrite isValidTopic_nonempty by discriminate.
      rewrite test_loose_empty. split; [| tauto].
      intros H. split; [discriminate | exact H]. }
  split; [exact Hsub |]. split; [| split; reflexivity].
  intros Hpub. apply Hsub.
  destruct name as [| c name]; [discriminate Hpub |].
  split; [discriminate |].
  rewrite isValidTopic_nonempty in Hpub by discriminate.
  apply test_loose_empty, test_matches, matches_loose_empty.
  apply test_matches, matches_loose_non_empty in Hpub
    as (segs & last & Hs & Hall).
  exists segs, last. split; [exact Hs |].
  eapply Forall_impl; [exact Hall |]. now intros seg [_ Hseg].
Qed.

(** X3: the three outcomes of [createByName].  It returns [undefined]
    exactly for names that do not start with ["coaty."], throws a
    [TypeError] exactly for such names with fewer than four components,
    and returns a topic in every other case. *)
Theorem createByName_outcome (topicName : jsstring) :
  (createByName topicName = Normal None
   <-> isCoatyTopicLike topicName = false)
  /\ (createByName topicName = Throw TypeError
      <-> isCoatyTopicLike topicName = true
          /\ (length (split DOT topicName) < 4)%nat)
  /\ ((exists topic, createByName topicName = Normal (Some topic))
      <-> isCoatyTopicLike topicName = true
          /\ (4 <= length (split DOT topicName))%nat)
  /\ createByName topicName <> Throw NotOpened.
Proof.
  destruct (isCoatyTopicLike topicName) eqn:Hl.
  - destruct (split DOT topicName) as [| p0 [| v [| ns [| ev rest]]]] eqn:Hs.
    1-4: unfold createByName; rewrite Hl, Hs;
      cbn [negb lookup list_lookup length];
      (split; [split; discriminate |]);
      (split; [split; [intros _; split; [reflexivity | lia] | reflexivity] |]);
      (split; [split; [intros [? H]; discriminate H | intros [_ H]; lia] |]);
      discriminate.
    rewrite (createByName_components _ _ _ _ _ _ Hl Hs). cbn [length].
    split; [split; discriminate |].
    split; [split; [discriminate | intros [_ H]; lia] |].
    split; [split; [intros _; split; [reflexivity | lia] | eauto] |].
    discriminate.
  - unfold createByName. rewrite Hl. cbn [negb].
    split; [split; reflexivity |].
    split; [split; [discriminate | intros [H _]; discriminate H] |].
    split; [split; [intros [? H]; discriminate H | intros [H _]; discriminate H] |].
    discriminate.
Qed.

(** X4: the two tables of event type codes are inverse to each other:
    a three-letter code is looked up to an event type exactly when that
    event type is looked up to the code; the members [Raw], [OneWay] and
    [TwoWay] have no code. *)
Theorem event_type_codes_inverse (p : jsstring) (e : CommunicationEventType) :
  (_getEventType p = Some e <-> _getEventTopicComponentPrefix e = Some p)
  /\ (_getEventTopicComponentPrefix e = None <-> is_event_kind e = false)
  /\ (_getEventType p = Some e -> length p = 3%nat).
Proof.
  split; [split; [apply getEventType_prefix | apply prefix_getEventType] |].
  split.
  - destruct e; vm_compute; split; congruence.
  - intros H. apply getEventType_prefix in H.
    destruct e; vm_compute in H; try discriminate H;
      injection H as <-; reflexivity.
Qed.

(** X5: when the source id and the correlation id are single components,
    the name composed by [getTopicName] is a valid publication topic
    exactly when the namespace is non-empty, neither the namespace nor
    the event filter contains [#], and the source id (and, for a two-way
    event, the correlation id) is a non-empty component without white
    space and [#]. *)
Theorem getTopicName_isValidTopic version namespace eventType
    eventTypeFilter sourceId correlationId :
  is_event_kind eventType = true ->
  DOT ∉ sourceId ->
  (_isOneWayEvent eventType = false -> DOT ∉ tpl correlationId) ->
  isValidTopic
    (Some (getTopicName version namespace eventType eventTypeFilter
             sourceId correlationId)) false = true
  <-> (namespace <> [] /\ (HASH ∉ namespace)
       /\ (HASH ∉ filter_text eventTypeFilter)
       /\ sourceId <> [] /\ Forall uri_unit sourceId
       /\ (_isOneWayEvent eventType = false ->
           tpl correlationId <> [] /\ Forall uri_unit (tpl correlationId))).
Proof.
  intros Hk Hsrc Hcorr.
  rewrite isValidTopic_nonempty by apply getTopicName_nonempty.
  rewrite test_loose_non_empty, getTopicName_split by assumption.
  pose proof PROTOCOL_NAME_uri as (Hp1 & Hp2 & _).
  pose proof (Number_toString_uri version) as (Hv1 & Hv2 & _).
  pose proof (event_component_uri eventType eventTypeFilter Hk) as [He1 He2].
  rewrite Forall_app, !Forall_cons, encode_nil_iff, encode_uri, He2.
  destruct (_isOneWayEvent eventType).
  - rewrite Forall_nil. split; [| tauto].
    intros H. repeat split; try tauto; discriminate.
  - rewrite Forall_cons, Forall_nil. split; [| tauto].
    intros H. repeat split; tauto.
Qed.

Lemma getTopicName_isValidTopic_witness :
  isValidTopic
    (Some (getTopicName 1 (str "my ns") Call (Some (str "op.x")) (str "abc")
             (Some (str "def")))) false = true
  <-> (str "my ns" <> [] /\ (HASH ∉ str "my ns")
       /\ (HASH ∉ filter_text (Some (str "op.x")))
       /\ str "abc" <> [] /\ Forall uri_unit (str "abc")
       /\ (_isOneWayEvent Call = false ->
           tpl (Some (str "def")) <> []
           /\ Forall uri_unit (tpl (Some (str "def"))))).
Proof.
  apply (getTopicName_isValidTopic 1 (str "my ns") Call (Some (str "op.x"))
           (str "abc") (Some (str "def"))).
  - reflexivity.
  - intros H. vm_compute in H.
    repeat (apply elem_of_cons in H as [H | H]; [discriminate H |]).
    now apply elem_of_nil in H.
  - intros _ H. vm_compute in H.
    repeat (apply elem_of_cons in H as [H | H]; [discriminate H |]).
    now apply elem_of_nil in H.
Defined.

(** X6: the pattern composed by [getTopicFilter] is a valid subscription
    topic exactly when neither the namespace nor the event filter
    contains [#] and, for a two-way event, the correlation id contains
    neither white space nor [#]; when the correlation id is a single
    component the pattern is never a valid publication topic, as its
    component for the source id is empty. *)
Theorem getTopicFilter_isValidTopic version namespace eventType
    eventTypeFilter correlationId :
  is_event_kind eventType = true ->
  (isValidTopic
     (Some (getTopicFilter version namespace eventType eventTypeFilter
              correlationId)) true = true
   <-> ((HASH ∉ filter_text namespace)
        /\ (HASH ∉ filter_text eventTypeFilter)
        /\ (_isOneWayEvent eventType = false ->
            Forall uri_unit (filter_text correlationId))))
  /\ ((truthy correlationId = true -> DOT ∉ tpl correlationId) ->
      isValidTopic
        (Some (getTopicFilter version namespace eventType eventTypeFilter
                 correlationId)) false = false).
Proof.
  intros Hk. split.
  - rewrite isValidTopic_nonempty by apply getTopicFilter_nonempty.
    rewrite test_loose_empty, getTopicFilter_eq.
    pose proof PROTOCOL_NAME_uri as (_ & Hp & _).
    pose proof (Number_toString_uri version) as (_ & Hv & _).
    pose proof (event_component_uri eventType eventTypeFilter Hk) as [_ He].
    pose proof Forall_uri_dot as Hd.
    rewrite !Forall_app, filter_text_uri, He.
    destruct (_isOneWayEvent eventType).
    + split.
      * intros (_ & _ & _ & _ & Hn & _ & Hf & _).
        repeat split; try assumption. discriminate.
      * intros (Hn & Hf & _). repeat split; try assumption. constructor.
    + change (if truthy correlationId then tpl correlationId else [])
        with (filter_text correlationId).
      rewrite Forall_app. split.
      * intros (_ & _ & _ & _ & Hn & _ & Hf & _ & _ & Hc).
        repeat split; try assumption. intros _. exact Hc.
      * intros (Hn & Hf & Hc). repeat split; try assumption. now apply Hc.
  - intros Hc.
    destruct (isValidTopic _ false) eqn:Hvalid; [| reflexivity].
    rewrite isValidTopic_nonempty in Hvalid by apply getTopicFilter_nonempty.
    rewrite test_loose_non_empty, getTopicFilter_split in Hvalid by assumption.
    apply Forall_app in Hvalid as [Hvalid _].
    do 4 apply Forall_cons in Hvalid as [_ Hvalid].
    apply Forall_cons in Hvalid as [[Hne _] _]. congruence.
Qed.

Lemma getTopicFilter_isValidTopic_witness :
  isValidTopic
    (Some (getTopicFilter 1 (Some (str "my ns")) Retrieve None
             (Some (str "corr")))) true = true
  /\ isValidTopic
       (Some (getTopicFilter 1 (Some (str "my ns")) Retrieve None
                (Some (str "corr")))) false = false.
Proof.
  pose proof (getTopicFilter_isValidTopic 1 (Some (str "my ns")) Retrieve None
                (Some (str "corr")) eq_refl) as [Hsub Hpub].
  split.
  - apply Hsub. split; [| split].
    + intros H. vm_compute in H.
      repeat (apply elem_of_cons in H as [H | H]; [discriminate H |]).
      now apply elem_of_nil in H.
    + apply not_elem_of_nil.
    + intros _.
      repeat (apply Forall_cons_2; [split; [reflexivity | discriminate] |]).
      apply Forall_nil_2.
  - apply Hpub. intros _ H. vm_compute in H.
    repeat (apply elem_of_cons in H as [H | H]; [discriminate H |]).
    now apply elem_of_nil in H.
Defined.

(** X7: [_encodeTopicComponent] replaces each dot and each white space
    character by three code units and copies every other code unit, so
    the output is longer than the input by twice the number of dots and
    white space characters, and equals the input exactly when there are
    none. *)
Theorem encodeTopicComponent_length (component : jsstring) :
  length (_encodeTopicComponent component)
  = (length component
     + 2 * length (filter (fun c => ((c =? DOT) || regex_s c)%N = true)
                     component))%nat
  /\ (_encodeTopicComponent component = component
      <-> Forall (fun c => c <> DOT /\ regex_s c = false) component).
Proof.
  assert (length (_encodeTopicComponent component)
          = (length component
             + 2 * length (filter (fun c => ((c =? DOT) || regex_s c)%N = true)
                             component))%nat) as Hlen.
  { induction component as [| c s IH]; [reflexivity |].
    rewrite encode_cons, length_app, IH, filter_cons.
    destruct ((c =? DOT) || regex_s c) eqn:Hc.
    - rewrite decide_True by reflexivity.
      assert (length (encode_replacer [c]) = 3%nat) as ->.
      { destruct (N.eqb_spec c DOT) as [-> | Hd]; [reflexivity |].
        simpl in Hc. now destruct (escape_spec c Hc) as (a & b & -> & _). }
      simpl. lia.
    - rewrite decide_False by discriminate. simpl. lia. }
  split; [exact Hlen |]. split.
  - intros Heq. rewrite Heq in Hlen.
    assert (filter (fun c => (c =? DOT) || regex_s c = true) component = [])
      as Hnone by (apply length_zero_iff_nil; lia).
    apply Forall_forall. intros c Hc.
    destruct ((c =? DOT) || regex_s c) eqn:Hesc.
    + assert (c ∈ filter (fun c => (c =? DOT) || regex_s c = true) component)
        as Hin by (apply list_elem_of_filter; auto).
      rewrite Hnone in Hin. now apply elem_of_nil in Hin.
    + apply orb_false_iff in Hesc as [Hd Hs]. apply N.eqb_neq in Hd. auto.
  - clear Hlen. induction 1 as [| c s [Hd Hs] _ IH]; [reflexivity |].
    rewrite encode_cons, IH, Hs.
    apply N.eqb_neq in Hd. now rewrite Hd.
Qed.

(** X8: what the encoding is for: the encoded form of a namespace or
    event filter is a valid topic of one component exactly when the
    input is non-empty and contains no [#]; dots and white space in the
    input never make it invalid. *)
Theorem encodeTopicComponent_isValidTopic (component : jsstring) :
  (isValidTopic (Some (_encodeTopicComponent component)) false = true
   <-> component <> [] /\ (HASH ∉ component))
  /\ split DOT (_encodeTopicComponent component)
     = [_encodeTopicComponent component].
Proof.
  assert (split DOT (_encodeTopicComponent component)
          = [_encodeTopicComponent component]) as Hsplit
    by apply split_no_sep, encode_no_dot.
  split; [| exact Hsplit].
  destruct (_encodeTopicComponent component) as [| c enc] eqn:Henc.
  - apply (proj1 (encode_nil_iff _)) in Henc. subst component.
    split; [discriminate | intros [H _]; congruence].
  - rewrite isValidTopic_nonempty by discriminate.
    rewrite test_loose_non_empty, Hsplit, Forall_singleton, <- Henc.
    rewrite encode_uri. split.
    + intros [_ Hh]. split; [| exact Hh]. intros ->. discriminate Henc.
    + intros [_ Hh]. split; [| exact Hh]. rewrite Henc. discriminate.
Qed.

(** ** Further properties of [WampBinding] *)

Section Binding_helpers.

Lemma isValidTopic_components name :
  isValidTopic (Some name) false = true <-> uri_components name.
Proof.
  unfold uri_components. destruct name as [| c name].
  - split; [discriminate |]. intros H. now apply split_nil_components in H.
  - rewrite isValidTopic_nonempty by discriminate. apply test_loose_non_empty.
Qed.

Lemma isValidTopic_units name :
  isValidTopic (Some name) true = true <-> name <> [] /\ Forall uri_unit name.
Proof.
  destruct name as [| c name].
  - split; [discriminate | intros [H _]; congruence].
  - rewrite isValidTopic_nonempty by discriminate.
    rewrite test_loose_empty. split; [| tauto].
    intros H. split; [discriminate | exact H].
Qed.

Lemma not_elem_of_str (c : N) (s : string) :
  forallb (fun x => negb (x =? c)) (str s) = true -> c ∉ str s.
Proof.
  intros H Hin. rewrite forallb_forall in H.
  apply list_elem_of_In, H in Hin.
  now rewrite N.eqb_refl in Hin.
Qed.

End Binding_helpers.

(** X9: [onPublish] turns down a Raw event whose topic starts with
    ["coaty."] or has a component that is empty or contains white space
    or [#]: the state of the binding stays as it was, nothing is queued
    or sent.  Every other Raw topic is queued verbatim and the queue is
    drained; a Raw event without topic makes the handler throw. *)
Theorem onPublish_raw (eventLike : EventLike.t) (s : WampBinding.t) :
  EventLike.eventType eventLike = Raw ->
  (EventLike.eventTypeFilter eventLike = None ->
   onPublish eventLike s = (Throw TypeError, s))
  /\ (forall topic,
        EventLike.eventTypeFilter eventLike = Some topic ->
        (isCoatyTopicLike topic = true \/ ~ uri_components topic ->
         onPublish eventLike s = (Normal tt, s))
        /\ (isCoatyTopicLike topic = false -> uri_components topic ->
            onPublish eventLike s
            = (_addPublicationItem eventLike false false ;;
               _drainPublications) s
            /\ PublicationItem.topic (item_of s eventLike) = Some topic)).
Proof.
  intros Hty. split.
  - intros Hf. unfold onPublish, filter_isCoatyTopicLike.
    destruct (decide (EventLike.eventType eventLike = Raw)); [| contradiction].
    now rewrite Hf.
  - intros topic Hf. rewrite (onPublish_raw_eq eventLike topic s Hty Hf).
    split.
    + intros [-> | Hinvalid]; [reflexivity |].
      destruct (isValidTopic (Some topic) false) eqn:Hvalid.
      * now apply isValidTopic_components in Hvalid.
      * now rewrite orb_true_r.
    + intros -> Hvalid. apply isValidTopic_components in Hvalid.
      rewrite Hvalid. split; [reflexivity |].
      unfold item_of, _getTopicFor. cbn.
      destruct (decide (EventLike.eventType eventLike = Raw)); [| contradiction].
      exact Hf.
Qed.

Lemma onPublish_raw_witness :
  onPublish Examples.raw_empty_component Examples.opened_idle
  = (Normal tt, Examples.opened_idle)
  /\ onPublish Examples.raw_coaty Examples.opened_idle
     = (Normal tt, Examples.opened_idle).
Proof.
  split.
  - apply (proj2 (onPublish_raw Examples.raw_empty_component
                    Examples.opened_idle eq_refl)
             (str "sensors..temperature") eq_refl).
    right. unfold uri_components. intros H.
    change (split DOT (str "sensors..temperature"))
      with [str "sensors"; []; str "temperature"] in H.
    apply Forall_cons in H as [_ H].
    apply Forall_cons in H as [[H _] _]. now apply H.
  - apply (proj2 (onPublish_raw Examples.raw_coaty
                    Examples.opened_idle eq_refl)
             (str "coaty.1.ns.ADVx.agent") eq_refl).
    left. reflexivity.
Defined.

(** X10: while no session is open, or while the acknowledgment of an
    earlier publication is outstanding, [onPublish] only appends the
    event to the publication queue: nothing is sent and the order of the
    queue is kept. *)
Theorem onPublish_deferred (eventLike : EventLike.t) (s : WampBinding.t) :
  EventLike.eventType eventLike <> Raw ->
  connection_isOpen s = false \/ _isPublishingDeferred s = false ->
  onPublish eventLike s
  = (Normal tt,
     set_pendingPublicationItems
       (_pendingPublicationItems s ++ [item_of s eventLike]) s).
Proof.
  intros Hty Hcase. rewrite onPublish_not_raw by exact Hty.
  unfold bind at 1. rewrite addPublicationItem_back.
  set (s1 := set_pendingPublicationItems _ s).
  destruct (_isPublishingDeferred s) eqn:Hflag.
  - destruct Hcase as [Hoff | Hcase]; [| discriminate Hcase].
    rewrite drainPublications_armed by (destruct s; exact Hflag).
    rewrite doDrain_offline by (destruct s; exact Hoff).
    f_equal. subst s1. destruct s; cbn in *. now subst.
  - apply drainPublications_disarmed. destruct s; exact Hflag.
Qed.

Lemma onPublish_deferred_witness :
  onPublish Examples.T1 Examples.joined
  = (Normal tt,
     set_pendingPublicationItems
       (_pendingPublicationItems Examples.joined
        ++ [item_of Examples.joined Examples.T1]) Examples.joined).
Proof.
  apply (onPublish_deferred Examples.T1 Examples.joined).
  - discriminate.
  - left. reflexivity.
Defined.

(** X11: when the session counts as open but its socket does not accept
    frames any more, [onPublish] throws the error of the socket; the
    event stays in the queue behind the earlier ones, nothing is recorded
    as sent, and [_isPublishingDeferred] is left false, so that later
    publications are only queued. *)
Theorem onPublish_socket_closed (eventLike : EventLike.t) (s : WampBinding.t) :
  EventLike.eventType eventLike <> Raw ->
  socket_closed s = true ->
  _isPublishingDeferred s = true ->
  onPublish eventLike s
  = (Throw NotOpened,
     set_isPublishingDeferred false
       (set_pendingPublicationItems
          (_pendingPublicationItems s ++ [item_of s eventLike]) s)).
Proof.
  intros Hty Hsock Hflag. rewrite onPublish_not_raw by exact Hty.
  unfold bind at 1. rewrite addPublicationItem_back.
  set (s1 := set_pendingPublicationItems _ s).
  rewrite drainPublications_armed by (destruct s; exact Hflag).
  set (s2 := set_isPublishingDeferred false s1).
  rewrite doDrain_unfold. unfold _doDrainPublications_body.
  unfold bind at 1, get at 1.
  assert (connection_isOpen s2 = true) as Hopen.
  { subst s2 s1. destruct s as [? ? ? ? ? [[[session |] ?] |] ? ? ? ? ?];
      cbn in *; try discriminate Hsock.
    now apply andb_prop in Hsock as [-> _]. }
  assert (exists item rest, _pendingPublicationItems s2 = item :: rest)
    as (item & rest & Hq).
  { subst s2 s1. destruct s as [? ? [| i q] ? ? ? ? ? ? ? ?]; cbn; eauto. }
  rewrite Hopen, Hq. cbn [negb orb length bool_decide decide_rel lookup list_lookup].
  rewrite bool_decide_eq_false_2 by discriminate.
  unfold bind at 1, session_call at 1, bind at 1, get at 1.
  subst s2 s1. destruct s as [? ? ? ? ? [[[session |] ?] |] ? ? ? ? ?];
    cbn in *; try discriminate Hsock.
  apply andb_prop in Hsock as [Hopen' Hsock].
  apply negb_true_iff in Hsock.
  unfold send_on. now rewrite Hopen', Hsock.
Qed.

Lemma onPublish_socket_closed_witness :
  onPublish Examples.T1 Examples.socket_gone
  = (Throw NotOpened,
     set_isPublishingDeferred false
       (set_pendingPublicationItems
          (_pendingPublicationItems Examples.socket_gone
           ++ [item_of Examples.socket_gone Examples.T1])
          Examples.socket_gone)).
Proof.
  apply (onPublish_socket_closed Examples.T1 Examples.socket_gone).
  - discriminate.
  - reflexivity.
  - reflexivity.
Defined.

(** X12: the calls of a successful [onopen], in order: the two testament
    calls, one subscribe call for every item of the registry in the
    order of the registry, then one publish call for every join event in
    the given order, then one for every publication that was queued
    before, in the order of the queue (for publications that are not
    acknowledged, and join events on topics of their own).  The queue is
    empty afterwards. *)
Theorem onopen_call_order s c j session :
  _connection s = Some c ->
  _joinOptions s = Some j ->
  Session.isOpen session = true ->
  Session.socket_open session = true ->
  refs_valid s ->
  _isPublishingDeferred s = true ->
  NoDup (map (_getTopicFor s) (JoinOptions.joinEvents j)) ->
  (forall e, e ∈ JoinOptions.joinEvents j ->
     _getTopicFor s e ∉ map PublicationItem.topic (_pendingPublicationItems s)) ->
  Forall (fun i => acknowledged i = false)
    (map (item_of s) (JoinOptions.joinEvents j) ++ _pendingPublicationItems s) ->
  transport_open session s
  = (Normal tt,
     drained (opened s session) []
       (calls s ++ testament_calls s j
        ++ map (subscribe_call (store s)) (_issuedSubscriptionItems s)
        ++ map publish_call
             (map (item_of s) (JoinOptions.joinEvents j)
              ++ _pendingPublicationItems s))
       true
       (promises s ++ map SubscribePromise (_issuedSubscriptionItems s))).
Proof.
  intros Hc Hj Ho Hso Hv Hflag Hnd Hfresh Hack.
  apply (transport_open_steps s c j session _ Hc Hj Ho Hso Hv).
  pose proof (subscribed_fields s j session) as (Hon & Hq & Hd & Hopt).
  rewrite Ho, Hso in Hon. change (true && true) with true in Hon.
  rewrite Hflag in Hd.
  remember (subscribed s j session) as s4 eqn:Hs4.
  assert (forall e, _getTopicFor s4 e = _getTopicFor s e) as Htopic
    by (intros e; now apply getTopicFor_options).
  assert (forall l, map (item_of s4) l = map (item_of s) l) as Hitems.
  { intros l. apply map_ext. intros e. now apply item_of_options. }
  unfold bind at 1. rewrite addJoinEvents_fresh.
  2:{ erewrite map_ext; [exact Hnd | exact Htopic]. }
  2:{ intros e He. rewrite Htopic, Hq. now apply Hfresh. }
  rewrite Hitems, Hq.
  set (q := map (item_of s) (JoinOptions.joinEvents j)
            ++ _pendingPublicationItems s) in *.
  rewrite drainPublications_armed by (destruct s4; exact Hd).
  rewrite (doDrain_unacknowledged q).
  - f_equal. subst s4. destruct s; cbn.
    unfold drained, subscribed, opened; cbn. now rewrite <- !app_assoc.
  - destruct s4; exact Hon.
  - destruct s4; reflexivity.
  - exact Hack.
Qed.

Lemma onopen_call_order_witness :
  transport_open Examples.session1 Examples.joined
  = (Normal tt,
     drained (opened Examples.joined Examples.session1) []
       (calls Examples.joined
        ++ testament_calls Examples.joined Examples.join_options
        ++ map (subscribe_call (store Examples.joined))
             (_issuedSubscriptionItems Examples.joined)
        ++ map publish_call
             (map (item_of Examples.joined)
                (JoinOptions.joinEvents Examples.join_options)
              ++ _pendingPublicationItems Examples.joined))
       true
       (promises Examples.joined
        ++ map SubscribePromise (_issuedSubscriptionItems Examples.joined))).
Proof.
  apply (onopen_call_order Examples.joined
           (Connection.mk (Some Session.fresh) true)
           Examples.join_options Examples.session1);
    try reflexivity.
  - intros r Hr. now apply elem_of_nil in Hr.
  - vm_compute. repeat (constructor; [rewrite ?elem_of_cons, ?elem_of_nil;
                                     intuition discriminate |]).
    constructor.
  - intros e _. apply not_elem_of_nil.
  - repeat (constructor; [reflexivity |]). constructor.
Defined.



Ltac uri_units :=
  repeat (apply Forall_cons_2; [split; [reflexivity | discriminate] |]);
  apply Forall_nil_2.

(** X14: [onSubscribe] turns down a Raw subscription whose topic starts
    with ["coaty."], is empty or contains white space or [#], and an IO
    route that is not a valid publication topic or that is external and
    starts with ["coaty."]: the registry and the rest of the state stay
    as they were.  Everything else is handed to the registry
    unchanged. *)
Theorem onSubscribe_validation (eventLike : EventLike.t)
    (isExternalIoRoute : bool) (s : WampBinding.t) (topic : jsstring) :
  EventLike.eventTypeFilter eventLike = Some topic ->
  (EventLike.eventType eventLike = Raw ->
   (isCoatyTopicLike topic = true \/ topic = [] \/ ~ Forall uri_unit topic ->
    onSubscribe eventLike isExternalIoRoute s = (Normal tt, s))
   /\ (isCoatyTopicLike topic = false -> topic <> [] -> Forall uri_unit topic ->
       onSubscribe eventLike isExternalIoRoute s
       = _addSubscriptionItem eventLike s))
  /\ (EventLike.eventType eventLike = IoValue ->
      ((isExternalIoRoute = true /\ isCoatyTopicLike topic = true)
       \/ ~ uri_components topic ->
       onSubscribe eventLike isExternalIoRoute s = (Normal tt, s))
      /\ (isExternalIoRoute = false \/ isCoatyTopicLike topic = false ->
          uri_components topic ->
          onSubscribe eventLike isExternalIoRoute s
          = _addSubscriptionItem eventLike s))
  /\ (EventLike.eventType eventLike <> Raw ->
      EventLike.eventType eventLike <> IoValue ->
      onSubscribe eventLike isExternalIoRoute s
      = _addSubscriptionItem eventLike s).
Proof.
  intros Hf. split; [| split].
  - intros Hty.
    assert (onSubscribe eventLike isExternalIoRoute s
            = if isCoatyTopicLike topic || negb (isValidTopic (Some topic) true)
              then (Normal tt, s) else _addSubscriptionItem eventLike s) as ->.
    { unfold onSubscribe, filter_isCoatyTopicLike. rewrite Hf, Hty.
      destruct (decide (Raw = Raw)) as [_ | H]; [| contradiction].
      unfold bind at 1, bind at 1, ret at 1, ret at 1.
      destruct (isCoatyTopicLike topic || negb (isValidTopic (Some topic) true));
        reflexivity. }
    split.
    + intros [-> | Hinvalid]; [reflexivity |].
      destruct (isValidTopic (Some topic) true) eqn:Hvalid;
        [| now rewrite orb_true_r].
      apply isValidTopic_units in Hvalid. tauto.
    + intros -> Hne Hall.
      now rewrite (proj2 (isValidTopic_units topic) (conj Hne Hall)).
  - intros Hty.
    assert (onSubscribe eventLike isExternalIoRoute s
            = if (isExternalIoRoute && isCoatyTopicLike topic)
                 || negb (isValidTopic (Some topic) false)
              then (Normal tt, s) else _addSubscriptionItem eventLike s) as ->.
    { unfold onSubscribe, filter_isCoatyTopicLike. rewrite Hf, Hty.
      destruct (decide (IoValue = Raw)) as [H | _]; [discriminate H |].
      destruct (decide (IoValue = IoValue)) as [_ | H]; [| contradiction].
      unfold bind at 1, ret at 1.
      destruct isExternalIoRoute; cbn [andb];
        unfold bind at 1, bind at 1, ret at 1, ret at 1;
        destruct (_ || negb (isValidTopic (Some topic) false)); reflexivity. }
    split.
    + intros [[-> ->] | Hinvalid]; [reflexivity |].
      destruct (isValidTopic (Some topic) false) eqn:Hvalid;
        [| now rewrite orb_true_r].
      now apply isValidTopic_components in Hvalid.
    + intros Hext Hvalid. apply isValidTopic_components in Hvalid.
      rewrite Hvalid. now destruct Hext as [-> | ->]; rewrite ?andb_false_r.
  - intros Hraw Hio. unfold onSubscribe.
    destruct (decide (EventLike.eventType eventLike = Raw)); [contradiction |].
    destruct (decide (EventLike.eventType eventLike = IoValue)); [contradiction |].
    reflexivity.
Qed.

Lemma onSubscribe_validation_witness :
  onSubscribe Examples.raw_sensor false Examples.opened_idle
  = _addSubscriptionItem Examples.raw_sensor Examples.opened_idle
  /\ onSubscribe Examples.raw_coaty false Examples.opened_idle
     = (Normal tt, Examples.opened_idle).
Proof.
  split.
  - apply (proj1 (onSubscribe_validation Examples.raw_sensor false
                    Examples.opened_idle (str "sensors.temperature") eq_refl)
             eq_refl);
      [reflexivity | discriminate | uri_units].
  - apply (proj1 (onSubscribe_validation Examples.raw_coaty false
                    Examples.opened_idle (str "coaty.1.ns.ADVx.agent") eq_refl)
             eq_refl).
    left. reflexivity.
Defined.

(** X15: unsubscribing an event that is not subscribed leaves the
    binding as it was and issues no call. *)
Theorem onUnsubscribe_not_subscribed (eventLike : EventLike.t)
    (s : WampBinding.t) :
  Some (event_key s eventLike) ∉ keys s ->
  onUnsubscribe eventLike s = (Normal tt, s).
Proof.
  intros Hfresh. unfold onUnsubscribe.
  rewrite removeSubscriptionItem_eq. now rewrite find_key_fresh.
Qed.

Lemma onUnsubscribe_not_subscribed_witness :
  onUnsubscribe Examples.retrieve Examples.working
  = (Normal tt, Examples.working).
Proof.
  apply (onUnsubscribe_not_subscribed Examples.retrieve Examples.working).
  intros H.
  let ks := eval vm_compute in (keys Examples.working) in
  change (keys Examples.working) with ks in H.
  apply list_elem_of_singleton in H. vm_compute in H. discriminate H.
Defined.

(** X16: unsubscribing a subscribed event takes its item out of the
    registry.  When the item holds a live subscription handle and the
    session is open, exactly one unsubscribe call is issued, with that
    handle; when it holds no handle, or the binding has no connection,
    no call is issued. *)
Theorem onUnsubscribe_releases_handle (eventLike : EventLike.t)
    (s : WampBinding.t) (index : nat) (r : ref) (i : SubscriptionItem.t) :
  registry_inv s ->
  _issuedSubscriptionItems s !! index = Some r ->
  store s !! r = Some i ->
  key_of i = event_key s eventLike ->
  let s1 :=
    set_issuedSubscriptionItems (delete index (_issuedSubscriptionItems s)) s in
  (SubscriptionItem.subscription i = None \/ _connection s = None ->
   onUnsubscribe eventLike s = (Normal tt, s1))
  /\ (forall h,
        SubscriptionItem.subscription i = Some h ->
        online s = true ->
        onUnsubscribe eventLike s
        = (Normal tt,
           set_promises (promises s ++ [UnsubscribePromise r])
             (set_calls (calls s ++ [Unsubscribe h]) s1))).
Proof.
  intros [Hv Hnd] Hr Hi Hk s1.
  assert (onUnsubscribe eventLike s = _unsubscribeItems [r] s1) as ->
    by (now apply (removeSubscriptionItem_at eventLike s index r i)).
  split.
  - intros Hnone. now apply (unsubscribeItems_idle r i s1).
  - intros h Hh Ho. now rewrite (unsubscribeItems_live r i h s1).
Qed.

Lemma onUnsubscribe_releases_handle_witness :
  let s := Examples.working in
  onUnsubscribe Examples.channel s
  = (Normal tt,
     set_promises (promises s ++ [UnsubscribePromise 0%nat])
       (set_calls (calls s ++ [Unsubscribe 77])
          (set_issuedSubscriptionItems
             (delete 0%nat (_issuedSubscriptionItems s)) s))).
Proof.
  refine (proj2 (onUnsubscribe_releases_handle Examples.channel Examples.working
                   0%nat 0%nat
                   (SubscriptionItem.mk Channel
                      (Some (str "coaty.1.my" ++ [0; 48; 48]
                             ++ str "ns.CHNch" ++ [0; 0; 0] ++ str "1."))
                      (str "wildcard") true (Some 77))
                   _ _ _ _) 77 eq_refl _).
  - apply registry_inv_check. vm_compute. reflexivity.
  - vm_compute. reflexivity.
  - vm_compute. reflexivity.
  - vm_compute. reflexivity.
  - vm_compute. reflexivity.
Defined.

(** X17: a subscription made while no session is open is recorded in the
    registry without any call, and the next session that opens issues
    the subscribe call for it, after those of the items that were in the
    registry before. *)
Theorem subscribe_offline_issued_on_open (eventLike : EventLike.t)
    (s : WampBinding.t) c j session :
  refs_valid s ->
  connection_isOpen s = false ->
  Some (event_key s eventLike) ∉ keys s ->
  _connection s = Some c ->
  _joinOptions s = Some j ->
  Session.isOpen session = true ->
  Session.socket_open session = true ->
  let new := length (store s) in
  let s1 := exec (_addSubscriptionItem eventLike) s in
  (_addSubscriptionItem eventLike s).1 = Normal tt
  /\ _issuedSubscriptionItems s1 = _issuedSubscriptionItems s ++ [new]
  /\ calls s1 = calls s
  /\ promises s1 = promises s
  /\ exists q sent d p,
       transport_open session s1
       = (Normal tt,
          drained (opened s1 session) q
            (calls s ++ testament_calls s j
             ++ map (subscribe_call (store s)) (_issuedSubscriptionItems s)
             ++ [Subscribe new (event_key s eventLike).1.2
                   (event_key s eventLike).2]
             ++ map publish_call sent)
            d p).
Proof.
  intros Hv Hoff Hfresh Hc Hj Ho Hso new s1.
  pose proof (addSubscriptionItem_offline eventLike s Hv Hoff Hfresh) as Hadd.
  set (item := SubscriptionItem.mk _ _ _ _ _) in Hadd.
  assert (s1 = set_issuedSubscriptionItems
                 (_issuedSubscriptionItems s ++ [new])
                 (set_store (store s ++ [item]) s)) as Hs1
    by (subst s1; unfold exec; now rewrite Hadd).
  rewrite Hadd. clearbody s1. subst s1.
  split; [reflexivity |]. split; [reflexivity |].
  split; [reflexivity |]. split; [reflexivity |].
  set (s1 := set_issuedSubscriptionItems _ _).
  destruct (transport_open_success s1 c j session)
    as (q & sent & d & p & Hopen); try assumption.
  - intros r Hr.
    change (r ∈ _issuedSubscriptionItems s ++ [new]) in Hr.
    change (r < length (store s ++ [item]))%nat.
    rewrite length_app. cbn [length].
    apply elem_of_app in Hr as [Hr | Hr].
    + specialize (Hv r Hr). lia.
    + apply list_elem_of_singleton in Hr. subst r new. lia.
  - exists q, sent, d, p. rewrite Hopen. f_equal. f_equal.
    change (calls s1) with (calls s).
    change (testament_calls s1 j) with (testament_calls s j).
    change (_issuedSubscriptionItems s1)
      with (_issuedSubscriptionItems s ++ [new]).
    change (store s1) with (store s ++ [item]).
    rewrite map_app. cbn [map]. rewrite <- !app_assoc.
    f_equal. f_equal. f_equal.
    + apply map_ext_in. intros r Hr. apply list_elem_of_In in Hr.
      unfold subscribe_call. rewrite lookup_app_l by (now apply Hv).
      reflexivity.
    + unfold subscribe_call. subst new.
      rewrite lookup_app_r, Nat.sub_diag by lia. reflexivity.
Qed.

Lemma subscribe_offline_issued_on_open_witness :
  let s := Examples.joined in
  let s1 := exec (_addSubscriptionItem Examples.channel) s in
  _issuedSubscriptionItems s1 = _issuedSubscriptionItems s ++ [length (store s)]
  /\ calls s1 = calls s
  /\ exists q sent d p,
       transport_open Examples.session1 s1
       = (Normal tt,
          drained (opened s1 Examples.session1) q
            (calls s ++ testament_calls s Examples.join_options
             ++ map (subscribe_call (store s)) (_issuedSubscriptionItems s)
             ++ [Subscribe (length (store s))
                   (event_key s Examples.channel).1.2
                   (event_key s Examples.channel).2]
             ++ map publish_call sent)
            d p).
Proof.
  pose proof (subscribe_offline_issued_on_open Examples.channel Examples.joined
                (Connection.mk (Some Session.fresh) true) Examples.join_options
                Examples.session1) as H.
  destruct H as (_ & Hi & Hcalls & _ & Hopen); try reflexivity.
  - intros r Hr. now apply elem_of_nil in Hr.
  - apply not_elem_of_nil.
  - split; [exact Hi |]. split; [exact Hcalls | exact Hopen].
Defined.

(** X18: subscribing an event and then unsubscribing it leaves no item
    with its key in the registry, keeps the invariant of the registry,
    and, when the key was not subscribed before, gives back the registry
    as it was. *)
Theorem subscribe_then_unsubscribe (eventLike : EventLike.t)
    (s : WampBinding.t) :
  registry_inv s ->
  let k := event_key s eventLike in
  let s1 := exec (_addSubscriptionItem eventLike) s in
  let s2 := exec (onUnsubscribe eventLike) s1 in
  desired_for s2 k = []
  /\ registry_inv s2
  /\ (Some k ∉ keys s ->
      _issuedSubscriptionItems s2 = _issuedSubscriptionItems s).
Proof.
  intros Hinv k s1 s2.
  destruct (addSubscriptionItem_inv eventLike s Hinv) as (Hinv1 & Hd1 & Hopt1).
  fold s1 in Hinv1, Hd1, Hopt1. fold k in Hd1.
  assert (event_key s1 eventLike = k) as Hk1 by now apply event_key_options.
  set (new := length (store s)) in *.
  assert (new ∈ _issuedSubscriptionItems s1
          /\ key_of <$> store s1 !! new = Some k) as [Hin Hknew].
  { assert (new ∈ desired_for s1 k) as H
      by (rewrite Hd1; apply list_elem_of_here).
    unfold desired_for in H. now apply list_elem_of_filter in H. }
  apply list_elem_of_lookup in Hin as [index Hindex].
  destruct Hinv1 as [Hv1 Hnd1].
  assert (registry_view s2
          = (delete index (_issuedSubscriptionItems s1), store s1,
             options s1, _connection s1)) as Hview.
  { subst s2. unfold onUnsubscribe, exec.
    rewrite removeSubscriptionItem_eq, Hk1.
    rewrite (find_key_at (store s1) (_issuedSubscriptionItems s1) index new k
               Hnd1 Hindex Hknew).
    rewrite (registry_unsubscribeItems_run _ _). now destruct s1. }
  apply registry_view_eq_parts in Hview as (Hi2 & Hst2).
  split; [| split].
  - unfold desired_for. rewrite Hi2, Hst2.
    now apply (filter_key_delete (store s1) _ index new k).
  - subst s2. unfold onUnsubscribe.
    apply removeSubscriptionItem_inv. now split.
  - intros Hfresh. rewrite Hi2.
    destruct Hinv as [Hv _].
    destruct (addSubscriptionItem_effect eventLike s Hv)
      as (issued' & Hview1 & Hcase).
    fold s1 in Hview1.
    assert (_issuedSubscriptionItems s1 = issued') as Hi1
      by (unfold registry_view in Hview1; congruence).
    destruct Hcase as [(_ & ->) | (i & old & Hio & Hko & _)].
    + rewrite Hi1 in Hindex |- *.
      assert (index = length (_issuedSubscriptionItems s)) as ->.
      { destruct (decide (index < length (_issuedSubscriptionItems s))%nat)
          as [Hlt | Hge].
        - rewrite lookup_app_l in Hindex by exact Hlt.
          apply list_elem_of_lookup_2, Hv in Hindex. subst new. lia.
        - apply lookup_lt_Some in Hindex. rewrite length_app in Hindex.
          cbn [length] in Hindex. lia. }
      apply delete_snoc.
    + exfalso. apply Hfresh. unfold keys, keys_in.
      apply list_elem_of_fmap. exists old.
      split; [symmetry; exact Hko |].
      eapply list_elem_of_lookup_2. exact Hio.
Qed.

Lemma subscribe_then_unsubscribe_witness :
  let s := Examples.working in
  let k := event_key s Examples.retrieve in
  let s1 := exec (_addSubscriptionItem Examples.retrieve) s in
  let s2 := exec (onUnsubscribe Examples.retrieve) s1 in
  desired_for s2 k = []
  /\ registry_inv s2
  /\ (Some k ∉ keys s ->
      _issuedSubscriptionItems s2 = _issuedSubscriptionItems s).
Proof.
  apply (subscribe_then_unsubscribe Examples.retrieve Examples.working).
  apply registry_inv_check. vm_compute. reflexivity.
Defined.

(** X19: unjoining brings the private fields of the binding back to
    those of a binding that has just been initialised, with one
    [Offline] notification and no session call: at once when the
    connection is not connected, and otherwise when the transport
    reports the close that [onUnjoin] asked for; until then [onUnjoin]
    leaves the state as it is.  Queued publications and subscriptions
    do not survive an unjoin. *)
Theorem onUnjoin_resets (s : WampBinding.t) :
  let s' :=
    if connected s
    then exec (transport_close closed) (exec onUnjoin s)
    else exec onUnjoin s in
  fields s' = fields (initialized (options s))
  /\ emitted s' = emitted s ++ [Offline]
  /\ calls s' = calls s
  /\ options s' = options s
  /\ (connected s = true -> onUnjoin s = (Normal tt, s)).
Proof.
  assert (forall s0, exec _reset s0
                     = WampBinding.mk (options s0) None [] [] true None
                         (str "[---] ") (store s0) (promises s0)
                         (emitted s0 ++ [Offline]) (calls s0)) as Hreset
    by (intros s0; unfold exec; now rewrite reset_eq).
  assert (fields (initialized (options s))
          = (None, [], [], true, None, str "[---] ")) as ->
    by (unfold initialized, onInit; now rewrite Hreset).
  unfold connected, onUnjoin, transport_close, connection_onclose.
  destruct (_connection s) as [c |] eqn:Hc.
  - destruct (Connection.isConnected c) eqn:Hconn.
    + assert (exec (s0 <- get ;;
                    match _connection s0 with
                    | Some c0 => if Connection.isConnected c0 then ret tt else _reset
                    | None => _reset
                    end) s = s) as ->
        by (unfold exec, bind, get; now rewrite Hc, Hconn).
      unfold exec at 1 2 3 4. unfold bind at 1 2 3 4.
      rewrite reset_eq. cbn.
      repeat split. unfold bind, get. now rewrite Hc, Hconn.
    + assert (exec (s0 <- get ;;
                    match _connection s0 with
                    | Some c0 => if Connection.isConnected c0 then ret tt else _reset
                    | None => _reset
                    end) s = exec _reset s) as ->
        by (unfold exec, bind, get; now rewrite Hc, Hconn).
      rewrite Hreset. repeat split. discriminate.
  - assert (exec (s0 <- get ;;
                  match _connection s0 with
                  | Some c0 => if Connection.isConnected c0 then ret tt else _reset
                  | None => _reset
                  end) s = exec _reset s) as ->
      by (unfold exec, bind, get; now rewrite Hc).
    rewrite Hreset. repeat split. discriminate.
Qed.

(** X20: the pattern under which an event type is subscribed agrees with
    the topic under which an event of that type is published: both have
    the same number of components, and every component of the pattern is
    either empty (a wildcard) or equal to the component of the topic.
    This holds when event type and event filter are the same, the
    subscriber is in the namespace of the publisher or has cross
    namespacing enabled, and the subscription names no correlation id or
    that of the event. *)
Theorem topic_filter_agrees_with_topic (publisher subscriber : WampBinding.t)
    (published subscribed : EventLike.t) :
  is_composed_kind (EventLike.eventType published) = true ->
  EventLike.eventType subscribed = EventLike.eventType published ->
  filter_text (EventLike.eventTypeFilter subscribed)
  = filter_text (EventLike.eventTypeFilter published) ->
  (BindingOptions.shouldEnableCrossNamespacing (options subscriber) = true
   \/ BindingOptions.namespace (options subscriber)
      = BindingOptions.namespace (options publisher)) ->
  (truthy (EventLike.correlationId subscribed) = false
   \/ EventLike.correlationId subscribed = EventLike.correlationId published) ->
  DOT ∉ EventLike.sourceId published ->
  DOT ∉ tpl (EventLike.correlationId published) ->
  exists pattern topic,
    _getTopicFilterFor subscriber subscribed = (Some pattern, str "wildcard")
    /\ _getTopicFor publisher published = Some topic
    /\ agrees pattern topic.
Proof.
  intros Hkind Hty Hf Hns Hcorr Hsrc Hcd.
  unfold is_composed_kind in Hkind. apply andb_prop in Hkind as [Hk Hio].
  apply negb_true_iff, bool_decide_eq_false in Hio.
  assert (EventLike.eventType published <> Raw) as Hraw
    by (intros E; rewrite E in Hk; discriminate Hk).
  unfold _getTopicFilterFor, _getTopicFor. rewrite Hty.
  destruct (decide (EventLike.eventType published = Raw)); [contradiction |].
  destruct (decide (EventLike.eventType published = IoValue)); [contradiction |].
  eexists _, _. split; [reflexivity |]. split; [reflexivity |].
  unfold agrees.
  rewrite getTopicName_split by (assumption || auto).
  rewrite getTopicFilter_split.
  2: exact Hk.
  2:{ intros Ht. destruct Hcorr as [Hc | ->]; [congruence | exact Hcd]. }
  repeat (apply Forall2_cons; split).
  - now right.
  - now right.
  - destruct Hns as [-> | Hns]; [now left |]. rewrite Hns. cbn [tpl truthy].
    destruct (BindingOptions.shouldEnableCrossNamespacing _); [now left |].
    destruct (BindingOptions.namespace (options publisher)); [now left | now right].
  - right. now rewrite !event_component_eq, Hf.
  - now left.
  - destruct (_isOneWayEvent (EventLike.eventType published)); [constructor |].
    apply Forall2_cons. split; [| constructor].
    destruct Hcorr as [-> | ->]; [now left |].
    destruct (truthy (EventLike.correlationId published)); [now right | now left].
Qed.

Lemma topic_filter_agrees_with_topic_witness :
  exists pattern topic,
    _getTopicFilterFor Examples.opened_idle Examples.discover_all
    = (Some pattern, str "wildcard")
    /\ _getTopicFor Examples.working Examples.discover = Some topic
    /\ agrees pattern topic.
Proof.
  apply (topic_filter_agrees_with_topic Examples.working Examples.opened_idle
           Examples.discover Examples.discover_all);
    try reflexivity.
  - right. reflexivity.
  - left. reflexivity.
  - apply (not_elem_of_str DOT "agent"). reflexivity.
  - apply (not_elem_of_str DOT "corr"). reflexivity.
Defined.

(** X21: conversely, a pattern agrees with a published topic only if it
    was composed for the same event type and the same event filter, by a
    subscriber that has cross namespacing enabled, has an empty
    namespace or is in the namespace of the publisher, and for the
    correlation id of the event if it names one.  So events of another
    type, filter, namespace or correlation are kept apart by the
    topics. *)
Theorem topic_filter_agrees_only_with_same_event
    (publisher subscriber : WampBinding.t)
    (published subscribed : EventLike.t) (pattern topic m : jsstring) :
  is_composed_kind (EventLike.eventType published) = true ->
  is_composed_kind (EventLike.eventType subscribed) = true ->
  NUL ∉ BindingOptions.namespace (options publisher) ->
  NUL ∉ BindingOptions.namespace (options subscriber) ->
  NUL ∉ filter_text (EventLike.eventTypeFilter published) ->
  NUL ∉ filter_text (EventLike.eventTypeFilter subscribed) ->
  DOT ∉ EventLike.sourceId published ->
  DOT ∉ tpl (EventLike.correlationId published) ->
  (truthy (EventLike.correlationId subscribed) = true ->
   DOT ∉ tpl (EventLike.correlationId subscribed)) ->
  _getTopicFilterFor subscriber subscribed = (Some pattern, m) ->
  _getTopicFor publisher published = Some topic ->
  agrees pattern topic ->
  EventLike.eventType subscribed = EventLike.eventType published
  /\ filter_text (EventLike.eventTypeFilter subscribed)
     = filter_text (EventLike.eventTypeFilter published)
  /\ (BindingOptions.shouldEnableCrossNamespacing (options subscriber) = true
      \/ BindingOptions.namespace (options subscriber) = []
      \/ BindingOptions.namespace (options subscriber)
         = BindingOptions.namespace (options publisher))
  /\ (_isOneWayEvent (EventLike.eventType published) = false ->
      truthy (EventLike.correlationId subscribed) = true ->
      tpl (EventLike.correlationId subscribed)
      = tpl (EventLike.correlationId published)).
Proof.
  intros Hkp Hks Hnp Hns Hfp Hfs Hsrc Hcd Hcs Hpat Htop Hagree.
  unfold is_composed_kind in Hkp, Hks.
  apply andb_prop in Hkp as [Hkp Hiop]. apply andb_prop in Hks as [Hks Hios].
  apply negb_true_iff, bool_decide_eq_false in Hiop, Hios.
  assert (EventLike.eventType published <> Raw) as Hrawp
    by (intros E; rewrite E in Hkp; discriminate Hkp).
  assert (EventLike.eventType subscribed <> Raw) as Hraws
    by (intros E; rewrite E in Hks; discriminate Hks).
  unfold _getTopicFilterFor in Hpat. unfold _getTopicFor in Htop.
  destruct (decide (EventLike.eventType published = Raw)); [contradiction |].
  destruct (decide (EventLike.eventType published = IoValue)); [contradiction |].
  destruct (decide (EventLike.eventType subscribed = Raw)); [contradiction |].
  destruct (decide (EventLike.eventType subscribed = IoValue)); [contradiction |].
  injection Hpat as <- _. injection Htop as <-.
  unfold agrees in Hagree.
  rewrite getTopicName_split in Hagree by (assumption || auto).
  rewrite getTopicFilter_split in Hagree by assumption.
  cbn [app] in Hagree.
  apply Forall2_cons in Hagree as [_ Hagree].
  apply Forall2_cons in Hagree as [_ Hagree].
  apply Forall2_cons in Hagree as [Hnsc Hagree].
  apply Forall2_cons in Hagree as [Hev Hagree].
  apply Forall2_cons in Hagree as [_ Hagree].
  assert (EventLike.eventType subscribed = EventLike.eventType published
          /\ filter_text (EventLike.eventTypeFilter subscribed)
             = filter_text (EventLike.eventTypeFilter published)) as [Hty Hf].
  { destruct Hev as [Hev | Hev].
    - destruct (event_component_uri _ (EventLike.eventTypeFilter subscribed) Hks)
        as [Hne _].
      contradiction.
    - rewrite !event_component_eq in Hev.
      destruct (prefix_spec _ Hkp) as (a & b & c & Hpp & _ & Htp).
      destruct (prefix_spec _ Hks) as (a' & b' & c' & Hps & _ & Hts).
      rewrite Hpp, Hps in Hev. cbn [tpl] in Hev.
      apply app_inj_1 in Hev as [Hpre Henc]; [| reflexivity].
      split.
      + rewrite Hpre in Hts. congruence.
      + now apply encode_injective. }
  split; [exact Hty |]. split; [exact Hf |]. split.
  - destruct (BindingOptions.shouldEnableCrossNamespacing (options subscriber));
      [now left | right].
    destruct (BindingOptions.namespace (options subscriber)) as [| x ns] eqn:Ens;
      [now left | right].
    cbn [tpl truthy] in Hnsc.
    destruct Hnsc as [Hnsc | Hnsc].
    + apply (proj1 (encode_nil_iff _)) in Hnsc. discriminate Hnsc.
    + now apply encode_injective.
  - intros Htwo Htruthy.
    assert (_isOneWayEvent (EventLike.eventType subscribed) = false) as Htwo'
      by (now rewrite Hty).
    rewrite Htwo', Htruthy in Hagree. rewrite Htwo in Hagree.
    apply Forall2_cons in Hagree as [[Hc | Hc] _]; [| exact Hc].
    destruct (EventLike.correlationId subscribed) as [[| ? ?] |];
      discriminate.
Qed.

Lemma topic_filter_agrees_only_with_same_event_witness :
  EventLike.eventType Examples.discover_all = EventLike.eventType Examples.discover
  /\ filter_text (EventLike.eventTypeFilter Examples.discover_all)
     = filter_text (EventLike.eventTypeFilter Examples.discover).
Proof.
  pose proof (topic_filter_agrees_only_with_same_event
                Examples.working Examples.opened_idle
                Examples.discover Examples.discover_all
                (str "coaty.1.my" ++ [0; 48; 48] ++ str "ns.DSC..")
                (str "coaty.1.my" ++ [0; 48; 48] ++ str "ns.DSC.agent.corr")
                (str "wildcard") eq_refl eq_refl) as H.
  destruct H as (Hty & Hf & _).
  - apply (not_elem_of_str NUL "my ns"). reflexivity.
  - apply (not_elem_of_str NUL "my ns"). reflexivity.
  - apply not_elem_of_nil.
  - apply not_elem_of_nil.
  - apply (not_elem_of_str DOT "agent"). reflexivity.
  - apply (not_elem_of_str DOT "corr"). reflexivity.
  - discriminate.
  - vm_compute. reflexivity.
  - vm_compute. reflexivity.
  - unfold agrees. vm_compute.
    repeat (apply Forall2_cons;
            split; [first [left; reflexivity | right; reflexivity] |]).
    constructor.
  - split; [exact Hty | exact Hf].
Defined.

(** X22: the route that [createIoRoute] composes for an IO source is a
    valid publication topic, parses back to the namespace of the binding,
    the event type [IoValue] and the id of the source, and is accepted by
    [onSubscribe] as an internal IO route, which subscribes it verbatim
    with an exact match; as an external route it is turned down, since it
    starts with ["coaty."]. *)
Theorem createIoRoute_route (self : WampBinding.t) (ioSourceId : jsstring) :
  let namespace := BindingOptions.namespace (options self) in
  namespace <> [] -> NUL ∉ namespace -> HASH ∉ namespace ->
  ioSourceId <> [] -> DOT ∉ ioSourceId -> Forall uri_unit ioSourceId ->
  let route := createIoRoute self ioSourceId in
  isValidTopic (Some route) false = true
  /\ createByName route
     = Normal (Some {| _version := Int 1;
                       _namespace := namespace;
                       _eventType := Some IoValue;
                       _eventTypeFilter := None;
                       _sourceId := Some ioSourceId;
                       _correlationId := None |})
  /\ forall (eventLike : EventLike.t) (s : WampBinding.t),
       EventLike.eventType eventLike = IoValue ->
       EventLike.eventTypeFilter eventLike = Some route ->
       onSubscribe eventLike false s = _addSubscriptionItem eventLike s
       /\ onSubscribe eventLike true s = (Normal tt, s)
       /\ _getTopicFilterFor s eventLike = (Some route, str "exact")
       /\ _getTopicFor s eventLike = Some route.
Proof.
  intros namespace Hne Hnul Hhash Hid Hdot Hunits route.
  assert (uri_components route) as Hvalid.
  { unfold uri_components. subst route. unfold createIoRoute.
    rewrite getTopicName_split by (reflexivity || assumption || discriminate).
    pose proof PROTOCOL_NAME_uri as (Hp1 & Hp2 & _).
    pose proof (Number_toString_uri apiVersion) as (Hv1 & Hv2 & _).
    pose proof (event_component_uri IoValue None eq_refl) as [He1 He2].
    cbn [_isOneWayEvent app].
    apply Forall_cons_2; [split; assumption |].
    apply Forall_cons_2; [split; assumption |].
    apply Forall_cons_2;
      [split; [now rewrite encode_nil_iff | now apply encode_uri] |].
    apply Forall_cons_2; [split; [exact He1 | apply He2, not_elem_of_nil] |].
    apply Forall_cons_2; [split; assumption |].
    constructor. }
  assert (isCoatyTopicLike route = true) as Hlike
    by (subst route; unfold createIoRoute;
        apply getTopicName_isCoatyTopicLike).
  split; [now apply isValidTopic_components |]. split.
  - subst route. unfold createIoRoute. apply topic_name_parsed.
    constructor; try assumption; try reflexivity.
    split; [reflexivity | unfold plain_decimal; cbn; lia].
  - intros eventLike s Hty Hf.
    assert (_getTopicFilterFor s eventLike = (Some route, str "exact")
            /\ _getTopicFor s eventLike = Some route) as [Hfilter Htopic].
    { unfold _getTopicFilterFor, _getTopicFor. rewrite Hty, Hf.
      destruct (decide (IoValue = Raw)) as [H | _]; [discriminate H |].
      destruct (decide (IoValue = IoValue)) as [_ | H]; [| contradiction].
      split; reflexivity. }
    destruct (onSubscribe_io eventLike s route Hf Hty) as [Hfalse Htrue].
    rewrite Hfalse, Htrue, Hlike.
    rewrite (proj2 (isValidTopic_components route) Hvalid).
    repeat split; assumption.
Qed.

Lemma createIoRoute_route_witness :
  let route := createIoRoute (created Examples.opts) (str "sensor1") in
  isValidTopic (Some route) false = true
  /\ createByName route
     = Normal (Some {| _version := Int 1;
                       _namespace := str "my ns";
                       _eventType := Some IoValue;
                       _eventTypeFilter := None;
                       _sourceId := Some (str "sensor1");
                       _correlationId := None |}).
Proof.
  pose proof (createIoRoute_route (created Examples.opts) (str "sensor1")) as H.
  destruct H as (Hvalid & Hparse & _).
  - discriminate.
  - apply (not_elem_of_str NUL "my ns"). reflexivity.
  - apply (not_elem_of_str HASH "my ns"). reflexivity.
  - discriminate.
  - apply (not_elem_of_str DOT "sensor1"). reflexivity.
  - uri_units.
  - split; [exact Hvalid | exact Hparse].
Defined.

(** X23: what is published is what is dispatched.  When a valid event of
    a Coaty event type is published, the handler of a subscription to a
    Coaty event type that is called with the topic and the arguments of
    that publication emits an inbound event with the event type, event
    filter, source id, correlation id and data of the published event. *)
Theorem publish_dispatch_round_trip (publisher : WampBinding.t)
    (eventLike : EventLike.t) (item : SubscriptionItem.t)
    (topic : jsstring) (args : list Payload) (kwargs : option Payload)
    (retain acknowledge : bool) :
  is_composed_kind (EventLike.eventType eventLike) = true ->
  valid_descriptor apiVersion (BindingOptions.namespace (options publisher))
    (EventLike.eventType eventLike) (EventLike.eventTypeFilter eventLike)
    (EventLike.sourceId eventLike) (EventLike.correlationId eventLike) ->
  is_composed_kind (SubscriptionItem.eventType item) = true ->
  SubscriptionItem.isKwargsPayload item = isKwargsPayload_of eventLike ->
  publish_call (item_of publisher eventLike)
  = Publish (Some topic) args kwargs retain acknowledge ->
  subscription_handler item args kwargs topic
  = Normal
      {| InboundEvent.eventType := Some (EventLike.eventType eventLike);
         InboundEvent.eventTypeFilter := EventLike.eventTypeFilter eventLike;
         InboundEvent.sourceId := Some (EventLike.sourceId eventLike);
         InboundEvent.correlationId := EventLike.correlationId eventLike;
         InboundEvent.data := Data (EventLike.data eventLike) |}.
Proof.
  intros Hkind Hvalid Hitem Hkw Hcall.
  destruct (composed_kind_neither _ Hkind) as [Hraw Hio].
  destruct (composed_kind_neither _ Hitem) as [Hiraw Hiio].
  unfold publish_call, item_of, _getTopicFor in Hcall.
  cbn [PublicationItem.topic PublicationItem.payload
       PublicationItem.isKwargsPayload PublicationItem.options] in Hcall.
  destruct (decide (EventLike.eventType eventLike = Raw)); [contradiction |].
  destruct (decide (EventLike.eventType eventLike = IoValue)); [contradiction |].
  injection Hcall as <- <- <- _ _.
  unfold subscription_handler, _dispatchMessage.
  rewrite (topic_name_parsed _ _ _ _ _ _ Hvalid).
  rewrite !bool_decide_eq_false_2 by assumption. cbn [orb].
  rewrite Hkw. f_equal. cbn. f_equal.
  now destruct (isKwargsPayload_of eventLike).
Qed.

Lemma publish_dispatch_round_trip_witness :
  subscription_handler Examples.discover_item [] (Some (str "d"))
    (str "coaty.1.my" ++ [0; 48; 48] ++ str "ns.DSC.agent.corr")
  = Normal
      {| InboundEvent.eventType := Some Discover;
         InboundEvent.eventTypeFilter := None;
         InboundEvent.sourceId := Some (str "agent");
         InboundEvent.correlationId := Some (str "corr");
         InboundEvent.data := Data (str "d") |}.
Proof.
  apply (publish_dispatch_round_trip (created Examples.opts) Examples.discover
           Examples.discover_item
           (str "coaty.1.my" ++ [0; 48; 48] ++ str "ns.DSC.agent.corr")
           [] (Some (str "d")) false false);
    try reflexivity.
  constructor; try reflexivity.
  - split; reflexivity.
  - apply (not_elem_of_str NUL "my ns"). reflexivity.
  - apply (not_elem_of_str DOT "agent"). reflexivity.
  - exists (str "corr"). split; [reflexivity |].
    split; [discriminate |].
    apply (not_elem_of_str DOT "corr"). reflexivity.
Defined.

(** X24: the handler of a Raw or IO value subscription emits the topic
    of the message as event filter and the topic of its own subscription
    as correlation id.  The source id is undefined for a topic that does
    not start with ["coaty."], and the fifth component of the topic
    otherwise (undefined when the topic has only four); for a topic that starts with ["coaty."] and has fewer than
    four components nothing is emitted and a [TypeError] is thrown. *)
Theorem dispatchMessage_raw (item : SubscriptionItem.t) (topicName : jsstring)
    (payload : Received) :
  SubscriptionItem.eventType item = Raw
  \/ SubscriptionItem.eventType item = IoValue ->
  let inbound sourceId :=
    {| InboundEvent.eventType := Some (SubscriptionItem.eventType item);
       InboundEvent.eventTypeFilter := Some topicName;
       InboundEvent.sourceId := sourceId;
       InboundEvent.correlationId := SubscriptionItem.topic item;
       InboundEvent.data := payload |} in
  (isCoatyTopicLike topicName = false ->
   _dispatchMessage item topicName payload = Normal (inbound None))
  /\ (isCoatyTopicLike topicName = true ->
      (length (split DOT topicName) < 4)%nat ->
      _dispatchMessage item topicName payload = Throw TypeError)
  /\ (isCoatyTopicLike topicName = true ->
      (4 <= length (split DOT topicName))%nat ->
      _dispatchMessage item topicName payload
      = Normal (inbound (split DOT topicName !! 4%nat))).
Proof.
  intros Hty inbound.
  assert (bool_decide (SubscriptionItem.eventType item = Raw)
          || bool_decide (SubscriptionItem.eventType item = IoValue) = true)
    as Hb.
  { destruct Hty as [-> | ->]; reflexivity. }
  unfold _dispatchMessage. split; [| split].
  - intros Hl. now rewrite (createByName_other _ Hl), Hb.
  - intros Hl Hlen. now rewrite (createByName_short _ Hl Hlen).
  - intros Hl Hlen.
    destruct (createByName_sourceId _ Hl Hlen) as (topic & -> & Hsrc).
    now rewrite Hb, Hsrc.
Qed.

Lemma dispatchMessage_raw_witness :
  _dispatchMessage Examples.raw_item (str "sensors.temperature") (Data (str "21"))
  = Normal
      {| InboundEvent.eventType := Some Raw;
         InboundEvent.eventTypeFilter := Some (str "sensors.temperature");
         InboundEvent.sourceId := None;
         InboundEvent.correlationId := Some (str "sensors");
         InboundEvent.data := Data (str "21") |}.
Proof.
  apply (proj1 (dispatchMessage_raw Examples.raw_item
                  (str "sensors.temperature") (Data (str "21"))
                  (or_introl eq_refl))).
  reflexivity.
Defined.

(** X25: the publication queue and the subscription registry do not
    interfere.  Publishing and draining never change the registry, the
    subscription items or the connection; subscribing and unsubscribing
    never change the publication queue or its flag; and no promise
    callback changes the registry, the connection or the join options,
    however the handler completes. *)
Theorem queue_and_registry_independent :
  (forall e, preserves registry_view (onPublish e))
  /\ preserves registry_view _drainPublications
  /\ (forall e isExternalIoRoute,
        preserves queue_view (onSubscribe e isExternalIoRoute))
  /\ (forall e, preserves queue_view (onUnsubscribe e))
  /\ (forall i o, preserves settled_view (settle i o)).
Proof.
  split; [exact registry_onPublish |].
  split; [exact registry_drainPublications |].
  split; [exact queue_onSubscribe |].
  split; [exact queue_removeSubscriptionItem | exact settled_settle].
Qed.

Ltac unfold_setters :=
  unfold set_joinOptions, set_pendingPublicationItems,
    set_issuedSubscriptionItems, set_isPublishingDeferred, set_connection,
    set_sessionIdLogItem, set_store, set_promises, set_emitted, set_calls;
  cbn [options _joinOptions _pendingPublicationItems _issuedSubscriptionItems
       _isPublishingDeferred _connection _sessionIdLogItem store promises
       emitted calls].

(** X26: the handle that the router returns for a subscription is the
    one that is released.  Subscribing a new key on an open session,
    receiving the acknowledgment with handle [h] and unsubscribing issues
    exactly one subscribe call and one unsubscribe call for [h]; the
    registry is back to what it was. *)
Theorem subscription_handle_round_trip (eventLike : EventLike.t)
    (s : WampBinding.t) (h : Handle) :
  registry_inv s ->
  online s = true ->
  Some (event_key s eventLike) ∉ keys s ->
  let new := length (store s) in
  let k := event_key s eventLike in
  let run :=
    (_addSubscriptionItem eventLike ;;
     settle (length (promises s)) (Fulfilled h) ;;
     onUnsubscribe eventLike) s in
  run.1 = Normal tt
  /\ calls run.2 = calls s ++ [Subscribe new k.1.2 k.2; Unsubscribe h]
  /\ _issuedSubscriptionItems run.2 = _issuedSubscriptionItems s
  /\ promises run.2 = promises s ++ [UnsubscribePromise new]
  /\ (SubscriptionItem.subscription <$> store run.2 !! new) = Some (Some h).
Proof.
  intros [Hv Hnd] Ho Hfresh new k run.
  set (item := SubscriptionItem.mk k.1.1 k.1.2 k.2
                 (isKwargsPayload_of eventLike) None).
  set (live := SubscriptionItem.set_subscription (Some h) item).
  set (s2 := set_store (store s ++ [live])
               (set_calls (calls s ++ [Subscribe new k.1.2 k.2])
                  (set_issuedSubscriptionItems
                     (_issuedSubscriptionItems s ++ [new]) s))).
  assert (run = onUnsubscribe eventLike s2) as Hrun.
  { subst run. unfold bind at 1.
    rewrite (addSubscriptionItem_online eventLike s Hv Ho Hfresh).
    fold new k item. unfold bind at 1.
    rewrite (settle_subscribe_fulfilled _ new h).
    2:{ cbn. now rewrite lookup_app_r, Nat.sub_diag by lia. }
    f_equal. subst s2. unfold_setters. f_equal.
    - subst new. rewrite (alter_app_r_alt _ _ _ (length (store s))) by lia.
      now rewrite Nat.sub_diag.
    - apply delete_snoc. }
  assert (onUnsubscribe eventLike s2
          = (Normal tt,
             set_promises (promises s2 ++ [UnsubscribePromise new])
               (set_calls (calls s2 ++ [Unsubscribe h])
                  (set_issuedSubscriptionItems
                     (delete (length (_issuedSubscriptionItems s))
                        (_issuedSubscriptionItems s2)) s2)))) as Hun.
  { unfold onUnsubscribe.
    rewrite (removeSubscriptionItem_at eventLike s2
               (length (_issuedSubscriptionItems s)) new live).
    - set (s3 := set_issuedSubscriptionItems _ s2).
      apply (unsubscribeItems_live new live h s3); [| reflexivity | exact Ho].
      unfold deref. change (store s3) with (store s ++ [live]). subst new.
      now rewrite lookup_app_r, Nat.sub_diag by lia.
    - unfold keys. change (store s2) with (store s ++ [live]).
      change (_issuedSubscriptionItems s2)
        with (_issuedSubscriptionItems s ++ [new]).
      unfold keys_in. rewrite fmap_app.
      fold (keys_in (store s ++ [live]) (_issuedSubscriptionItems s)).
      rewrite keys_in_app by exact Hv. fold (keys s).
      cbn [fmap list_fmap]. subst new.
      rewrite lookup_app_r, Nat.sub_diag by lia. cbn.
      apply NoDup_app. split; [exact Hnd |]. split.
      + intros x Hx Hx'. apply list_elem_of_singleton in Hx'. now subst x.
      + apply NoDup_singleton.
    - change (_issuedSubscriptionItems s2)
        with (_issuedSubscriptionItems s ++ [new]).
      now rewrite lookup_app_r, Nat.sub_diag by lia.
    - change (store s2) with (store s ++ [live]). subst new.
      now rewrite lookup_app_r, Nat.sub_diag by lia.
    - reflexivity. }
  rewrite Hrun, Hun. cbn [fst snd].
  split; [reflexivity |]. split.
  - cbn. now rewrite <- app_assoc.
  - split; [| split].
    + cbn. apply delete_snoc.
    + reflexivity.
    + cbn. subst new. now rewrite lookup_app_r, Nat.sub_diag by lia.
Qed.

Lemma subscription_handle_round_trip_witness :
  let s := Examples.working in
  let run :=
    (_addSubscriptionItem Examples.retrieve ;;
     settle (length (promises s)) (Fulfilled 88) ;;
     onUnsubscribe Examples.retrieve) s in
  run.1 = Normal tt
  /\ calls run.2
     = calls s ++ [Subscribe (length (store s))
                     (event_key s Examples.retrieve).1.2
                     (event_key s Examples.retrieve).2;
                   Unsubscribe 88]
  /\ _issuedSubscriptionItems run.2 = _issuedSubscriptionItems s
  /\ promises run.2 = promises s ++ [UnsubscribePromise (length (store s))]
  /\ (SubscriptionItem.subscription <$> store run.2 !! length (store s))
     = Some (Some 88).
Proof.
  apply (subscription_handle_round_trip Examples.retrieve Examples.working 88).
  - apply registry_inv_check. vm_compute. reflexivity.
  - vm_compute. reflexivity.
  - intros H.
    let ks := eval vm_compute in (keys Examples.working) in
    change (keys Examples.working) with ks in H.
    apply list_elem_of_singleton in H. vm_compute in H. discriminate H.
Defined.

(** X27: a Raw event that [onPublish] accepts reaches a Raw subscription
    as it was published: the handler called with the topic and the
    arguments of the publication emits an inbound Raw event whose event
    filter is the topic, whose correlation id is the topic of the
    subscription and whose data is the data of the event. *)
Theorem raw_publish_dispatch_round_trip (publisher : WampBinding.t)
    (eventLike : EventLike.t) (item : SubscriptionItem.t)
    (topic published : jsstring) (args : list Payload)
    (kwargs : option Payload) (retain acknowledge : bool) :
  EventLike.eventType eventLike = Raw ->
  EventLike.eventTypeFilter eventLike = Some topic ->
  isCoatyTopicLike topic = false ->
  SubscriptionItem.eventType item = Raw ->
  SubscriptionItem.isKwargsPayload item = isKwargsPayload_of eventLike ->
  publish_call (item_of publisher eventLike)
  = Publish (Some published) args kwargs retain acknowledge ->
  published = topic
  /\ subscription_handler item args kwargs published
     = Normal
         {| InboundEvent.eventType := Some Raw;
            InboundEvent.eventTypeFilter := Some topic;
            InboundEvent.sourceId := None;
            InboundEvent.correlationId := SubscriptionItem.topic item;
            InboundEvent.data := Data (EventLike.data eventLike) |}.
Proof.
  intros Hty Hf Hlike Hitem Hkw Hcall.
  unfold publish_call, item_of, _getTopicFor in Hcall.
  cbn [PublicationItem.topic PublicationItem.payload
       PublicationItem.isKwargsPayload PublicationItem.options] in Hcall.
  destruct (decide (EventLike.eventType eventLike = Raw)); [| contradiction].
  rewrite Hf in Hcall. injection Hcall as <- <- <- _ _.
  split; [reflexivity |].
  unfold subscription_handler, _dispatchMessage.
  rewrite (createByName_other _ Hlike), Hitem, Hkw.
  cbn [bool_decide orb]. rewrite bool_decide_eq_true_2 by reflexivity.
  cbn [orb]. f_equal. f_equal.
  now destruct (isKwargsPayload_of eventLike).
Qed.

Lemma raw_publish_dispatch_round_trip_witness :
  str "sensors.temperature" = str "sensors.temperature"
  /\ subscription_handler Examples.raw_item [str "r"] None
       (str "sensors.temperature")
     = Normal
         {| InboundEvent.eventType := Some Raw;
            InboundEvent.eventTypeFilter := Some (str "sensors.temperature");
            InboundEvent.sourceId := None;
            InboundEvent.correlationId := Some (str "sensors");
            InboundEvent.data := Data (str "r") |}.
Proof.
  apply (raw_publish_dispatch_round_trip (created Examples.opts)
           Examples.raw_sensor Examples.raw_item
           (str "sensors.temperature") (str "sensors.temperature")
           [str "r"] None false false);
    reflexivity.
Defined.

(** ** Connection state notifications *)

(** C9, as the code has it.  The binding does not keep track of the
    state it reported last; it emits one notification per callback.  A
    session open emits [Online] at most once, followed by one [Offline]
    when the open sequence is abandoned: exactly [Online] when the binding
    holds its connection and its join options and the session is open,
    and exactly [Offline] when the binding has dropped its connection.
    Every close reported by the transport emits exactly one [Offline],
    for every reason and in every state, also when the binding is offline
    already.  [onUnjoin] emits one [Offline] when the connection is not
    connected and nothing otherwise, [onInit] emits one [Offline], and
    [onJoin] emits one [Offline] when no transport can be created and
    nothing otherwise.  No other handler and no promise callback emits a
    communication state. *)
Theorem communicationState_once_per_callback :
  (forall session s,
     (emitted (exec (transport_open session) s) = emitted s ++ [Online]
      \/ emitted (exec (transport_open session) s) = emitted s ++ [Online; Offline]
      \/ emitted (exec (transport_open session) s) = emitted s ++ [Offline])
     /\ (forall c j,
           _connection s = Some c ->
           _joinOptions s = Some j ->
           Session.isOpen session = true ->
           Session.socket_open session = true ->
           refs_valid s ->
           (transport_open session s).1 = Normal tt
           /\ emitted (exec (transport_open session) s) = emitted s ++ [Online])
     /\ (_connection s = None ->
         emitted (exec (transport_open session) s) = emitted s ++ [Offline]))
  /\ (forall reason s,
        (transport_close reason s).1 = Normal tt
        /\ emitted (exec (transport_close reason) s) = emitted s ++ [Offline])
  /\ (forall s,
        emitted (exec onUnjoin s)
        = if connected s then emitted s else emitted s ++ [Offline])
  /\ (forall s, emitted (exec onInit s) = emitted s ++ [Offline])
  /\ (forall joinOptions transport_created s,
        emitted (exec (onJoin joinOptions transport_created) s)
        = if transport_created then emitted s else emitted s ++ [Offline])
  /\ (forall i o, preserves emitted (settle i o))
  /\ (forall e, preserves emitted (onPublish e))
  /\ (forall e isExternalIoRoute,
        preserves emitted (onSubscribe e isExternalIoRoute))
  /\ (forall e, preserves emitted (onUnsubscribe e)).
Proof.
  split.
  { intros session s.
    assert (forall s0, emitted (exec (transport_session (Some session)) s0)
                       = emitted s0) as Hts
      by (intros s0; apply quiet_transport_session).
    split; [| split].
    - pose proof (onopen_emitted_cases session
                    (exec (transport_session (Some session)) s)) as H.
      cbv zeta in H. rewrite Hts in H. exact H.
    - intros c j Hc Hj Ho Hso Hv.
      destruct (transport_open_success s c j session Hc Hj Ho Hso Hv)
        as (q & sent & d & p & Hrun).
      unfold exec. rewrite Hrun. split; reflexivity.
    - intros Hc. unfold exec. now rewrite transport_open_dropped. }
  split.
  { intros reason s. unfold transport_close, transport_session, exec, bind.
    destruct (onclose_emitted reason s) as [Hn He]. unfold exec in He.
    destruct (connection_onclose reason s) as [[[] | err] s1];
      [| discriminate Hn].
    unfold modify. cbn [fst snd] in *. split; [reflexivity |].
    destruct (_connection s1); exact He. }
  split.
  { intros s. unfold exec. rewrite onUnjoin_eq.
    destruct (connected s); reflexivity. }
  split.
  { intros s. unfold exec, onInit. now rewrite reset_eq. }
  split.
  { intros j [] s; unfold exec.
    - now rewrite onJoin_created.
    - now rewrite onJoin_unsupported. }
  split; [exact quiet_settle |].
  split; [exact quiet_onPublish |].
  split; [exact quiet_onSubscribe | exact quiet_removeSubscriptionItem].
Qed.

Lemma communicationState_once_per_callback_witness :
  emitted Examples.joined = [Offline]
  /\ (transport_open Examples.session1 Examples.joined).1 = Normal tt
  /\ emitted (exec (transport_open Examples.session1) Examples.joined)
     = emitted Examples.joined ++ [Online].
Proof.
  split; [reflexivity |].
  exact (proj1 (proj2 (proj1 communicationState_once_per_callback
                         Examples.session1 Examples.joined))
           (Connection.mk (Some Session.fresh) true) Examples.join_options
           eq_refl eq_refl eq_refl eq_refl
           ltac:(apply refs_valid_check; vm_compute; reflexivity)).
Defined.

(** C9 as stated fails.  After one disconnect, a retry of the transport
    that fails is reported as a close again and emits [Offline] a second
    time, and so does an unjoin of a binding that is offline already: two
    notifications for one transition.  And a session that opens after
    the first attempt was reported [unreachable] emits no [Online]: the
    binding has dropped its connection and abandons the open sequence. *)
Lemma communicationState_offline_repeated :
  emitted Examples.working = [Offline; Online]
  /\ emitted (exec (transport_close lost ;;
                    connection_open true ;;
                    transport_close lost) Examples.working)
     = [Offline; Online; Offline; Offline]
  /\ transitions_only
       (emitted (exec (transport_close lost ;;
                       connection_open true ;;
                       transport_close lost) Examples.working)) = false
  /\ emitted (exec (transport_close lost ;; onUnjoin) Examples.working)
     = [Offline; Online; Offline; Offline]
  /\ emitted (exec (transport_close unreachable ;;
                    connection_open true ;;
                    transport_open Examples.session1) Examples.joined)
     = [Offline; Offline; Offline].
Proof. vm_compute. repeat split. Qed.

(** ** Closing the connection *)



